(** * Profile-aware RAG assistant: a shallow embedding of [backend/utils.py]

    The development follows the Python module top to bottom:
    - [PyStr]: the fragment of Python's [str] and [re] the module relies on;
    - [ProfileDetector]: the keyword table, [detect_profile], [get_profile_context];
    - [UniversalMetadataHandler]: [extract_clean_filename], [get_source_reference];
    - [ProfileAwareRAGSystem]: formatting helpers, the answer clean-up, [ask],
      [ask_stream] and [get_metrics], with the retrieval and generation services
      and the clock taken as inputs of each call.

    It is followed by [Api], the chat and feedback endpoints of
    [backend/main.py] over the table of [backend/database.py], with what the
    database does taken as an input of each request.

    Strings are lists of bytes (the UTF-8 encoding of the Python [str]).  The
    embedding is exact on ASCII text; the pictographs the module writes into
    its own constants are carried as their UTF-8 byte sequences.  Case mapping,
    character classes and slicing coincide with Python's on ASCII input. *)

From Stdlib Require Import List Ascii String Bool Arith ZArith Lia.
From Stdlib Require Import DecimalString.
From Stdlib Require DecimalNat.
From Stdlib Require Import PrimFloat FloatOps SpecFloat Uint63.
Import ListNotations.

(* ====================================================================== *)
(** ** Python strings and the regular expressions of the module           *)
(* ====================================================================== *)

Module PyStr.

Definition str := list ascii.

(** String constants are written as Rocq string literals. *)
Definition lit (s : string) : str := list_ascii_of_string s.

Definition NL : ascii := ascii_of_nat 10.

Definition code (c : ascii) : nat := nat_of_ascii c.

Definition in_range (lo hi : nat) (c : ascii) : bool :=
  (lo <=? code c) && (code c <=? hi).

(** [str.isspace] on ASCII, which is also [\s] of [re] and what [strip] and
    [split] remove: TAB LF VT FF CR, FS GS RS US, and the space. *)
Definition is_space (c : ascii) : bool := in_range 9 13 c || in_range 28 32 c.

Definition is_digit (c : ascii) : bool := in_range 48 57 c.
Definition is_upper (c : ascii) : bool := in_range 65 90 c.
Definition is_lower (c : ascii) : bool := in_range 97 122 c.
Definition is_alpha (c : ascii) : bool := is_upper c || is_lower c.
Definition is_nl (c : ascii) : bool := Ascii.eqb c NL.

Definition lower_char (c : ascii) : ascii :=
  if is_upper c then ascii_of_nat (code c + 32) else c.
Definition upper_char (c : ascii) : ascii :=
  if is_lower c then ascii_of_nat (code c - 32) else c.

(** [s.lower()] and [s.upper()] *)
Definition lower (s : str) : str := map lower_char s.
Definition upper (s : str) : str := map upper_char s.

(** [s.title()]: a letter that follows a letter is lower-cased, any other
    letter is upper-cased. *)
Fixpoint title_aux (prev_cased : bool) (s : str) : str :=
  match s with
  | [] => []
  | c :: s' =>
      (if prev_cased then lower_char c else upper_char c)
        :: title_aux (is_alpha c) s'
  end.
Definition title (s : str) : str := title_aux false s.

(** [s.startswith(p)] *)
Fixpoint starts_with (p s : str) : bool :=
  match p, s with
  | [], _ => true
  | _ :: _, [] => false
  | a :: p', b :: s' => Ascii.eqb a b && starts_with p' s'
  end.

(** [a == b] on strings *)
Fixpoint str_eqb (a b : str) : bool :=
  match a, b with
  | [], [] => true
  | x :: a', y :: b' => Ascii.eqb x y && str_eqb a' b'
  | _, _ => false
  end.

(** The same test under [re.IGNORECASE]. *)
Fixpoint starts_with_ci (p s : str) : bool :=
  match p, s with
  | [], _ => true
  | _ :: _, [] => false
  | a :: p', b :: s' =>
      Ascii.eqb (lower_char a) (lower_char b) && starts_with_ci p' s'
  end.

(** [p in s] *)
Fixpoint contains (p s : str) : bool :=
  starts_with p s
  || match s with
     | [] => false
     | _ :: s' => contains p s'
     end.

Fixpoint drop_while (f : ascii -> bool) (s : str) : str :=
  match s with
  | [] => []
  | c :: s' => if f c then drop_while f s' else s
  end.

Fixpoint take_while (f : ascii -> bool) (s : str) : str :=
  match s with
  | [] => []
  | c :: s' => if f c then c :: take_while f s' else []
  end.

(** [s.lstrip()], [s.rstrip()], [s.strip()] *)
Definition lstrip (s : str) : str := drop_while is_space s.
Definition rstrip (s : str) : str := rev (drop_while is_space (rev s)).
Definition strip (s : str) : str := rstrip (lstrip s).

(** [s.split()]: the maximal runs of non-blank characters.  [cur] is the
    word being read, in reverse. *)
Fixpoint split_ws_aux (cur : str) (s : str) : list str :=
  match s with
  | [] => match cur with [] => [] | _ => [rev cur] end
  | c :: s' =>
      if is_space c
      then match cur with
           | [] => split_ws_aux [] s'
           | _ => rev cur :: split_ws_aux [] s'
           end
      else split_ws_aux (c :: cur) s'
  end.
Definition split_ws (s : str) : list str := split_ws_aux [] s.

(** [s.replace(old, new)] for a non-empty [old]: occurrences are replaced
    from the left and do not overlap.  [skip] counts the characters of the
    occurrence just replaced that are still to be passed over. *)
Fixpoint replace_aux (old new : str) (skip : nat) (s : str) : str :=
  match s with
  | [] => []
  | c :: s' =>
      match skip with
      | S k => replace_aux old new k s'
      | O =>
          if starts_with old s
          then new ++ replace_aux old new (List.length old - 1) s'
          else c :: replace_aux old new 0 s'
      end
  end.
Definition replace (old new s : str) : str := replace_aux old new 0 s.

(** [sep.join(parts)] *)
Fixpoint join (sep : str) (parts : list str) : str :=
  match parts with
  | [] => []
  | [p] => p
  | p :: rest => p ++ sep ++ join sep rest
  end.

(** Truthiness of a string: [if s:] *)
Definition nonempty (s : str) : bool :=
  match s with [] => false | _ :: _ => true end.

(** [str(n)] / [f"{n}"] for an integer. *)
Definition str_of_nat (n : nat) : str :=
  lit (NilEmpty.string_of_uint (Nat.to_uint n)).
Definition str_of_Z (z : Z) : str :=
  lit (NilEmpty.string_of_int (Z.to_int z)).

(** [s[:n]] and [s[-n:]] for [n > 0]; the same slices are used on lists. *)
Definition slice_to {A} (n : nat) (l : list A) : list A := firstn n l.
Definition slice_last {A} (n : nat) (l : list A) : list A :=
  skipn (List.length l - n) l.

End PyStr.

(* ====================================================================== *)
(** ** PROFILE DETECTOR                                                    *)
(* ====================================================================== *)

Module ProfileDetector.
Import PyStr.

(** The keys of [PROFILE_KEYWORDS], and ['custom']. *)
Inductive ProfileName :=
| doctor | hr_leader | entrepreneur | corporate_executive | consultant
| engineer | lawyer | educator | finance
| custom.

Definition profile_label (p : ProfileName) : str :=
  match p with
  | doctor => lit "doctor"
  | hr_leader => lit "hr_leader"
  | entrepreneur => lit "entrepreneur"
  | corporate_executive => lit "corporate_executive"
  | consultant => lit "consultant"
  | engineer => lit "engineer"
  | lawyer => lit "lawyer"
  | educator => lit "educator"
  | finance => lit "finance"
  | custom => lit "custom"
  end.

Inductive Confidence := high | medium.

(** The dictionary [detect_profile] returns.  ['custom_profile'] is present
    for a custom profile only. *)
Record ProfileInfo := {
  profile : ProfileName;
  custom_profile : option str;
  confidence : Confidence;
  detected_keyword : str
}.

(** [PROFILE_KEYWORDS], in declaration order (the order [dict.items()]
    enumerates). *)
Definition PROFILE_KEYWORDS : list (ProfileName * list str) :=
  [ (doctor, map lit ["doctor"; "physician"; "medical"; "healthcare provider";
                      "clinician"; "surgeon"; "dentist"]%string);
    (hr_leader, map lit ["hr"; "human resources"; "hr manager"; "hr director";
                         "chro"; "people ops"; "talent"]%string);
    (entrepreneur, map lit ["entrepreneur"; "founder"; "startup";
                            "business owner"; "ceo of startup";
                            "starting business"]%string);
    (corporate_executive, map lit ["executive"; "cxo"; "vp"; "vice president";
                                   "director"; "senior leader";
                                   "c-suite"]%string);
    (consultant, map lit ["consultant"; "consulting"; "advisor";
                          "advisory"]%string);
    (engineer, map lit ["engineer"; "technical lead"; "tech professional";
                        "software"; "it professional"]%string);
    (lawyer, map lit ["lawyer"; "attorney"; "legal"; "advocate"]%string);
    (educator, map lit ["teacher"; "professor"; "educator"; "academic";
                        "principal"]%string);
    (finance, map lit ["finance"; "accountant"; "cfo"; "financial";
                       "banker"]%string) ].

(** The two nested [for] loops over the table: the first keyword, in table
    order, that is a substring of the lower-cased question. *)
Fixpoint scan_keywords (table : list (ProfileName * list str))
    (question_lower : str) : option ProfileInfo :=
  match table with
  | [] => None
  | (p, keywords) :: rest =>
      match find (fun keyword => contains keyword question_lower) keywords with
      | Some keyword =>
          Some {| profile := p; custom_profile := None;
                  confidence := high; detected_keyword := keyword |}
      | None => scan_keywords rest question_lower
      end
  end.

(** [profession_patterns].  Each pattern is [<lead> (?:a|an) ([a-z\s]+)];
    only the lead differs. *)
Definition profession_patterns : list str :=
  map lit ["i am "; "as "; "i'm "; "working as "]%string.

(** The class [[a-z\s]]. *)
Definition profession_char (c : ascii) : bool := is_lower c || is_space c.

(** One alternative of [(?:a|an)] at the head of [s]: the lead, the
    article, a space, and then the longest non-empty run of [[a-z\s]],
    which is group 1. *)
Definition pattern_with_article (lead article s : str) : option str :=
  let head := lead ++ article ++ lit " " in
  if starts_with head s
  then
    let group1 := take_while profession_char (skipn (List.length head) s) in
    if nonempty group1 then Some group1 else None
  else None.

(** The pattern anchored at the head of [s]; the alternatives are tried in
    the order they are written. *)
Definition pattern_at (lead s : str) : option str :=
  match pattern_with_article lead (lit "a") s with
  | Some g => Some g
  | None => pattern_with_article lead (lit "an") s
  end.

(** [re.search(pattern, s)]: the leftmost position where the pattern
    matches; the result is [match.group(1)]. *)
Fixpoint search_profession (lead s : str) : option str :=
  match pattern_at lead s with
  | Some g => Some g
  | None =>
      match s with
      | [] => None
      | _ :: s' => search_profession lead s'
      end
  end.

Definition question_words : list str :=
  map lit ["how"; "what"; "where"; "when"; "why"; "can"; "do"]%string.

(** [\s+(?:how|what|where|when|why|can|do)] anchored at the head of [s].
    The run of blanks is followed by a letter, so it is the longest one. *)
Definition question_word_at (s : str) : bool :=
  match s with
  | [] => false
  | c :: _ =>
      is_space c
      && existsb (fun w => starts_with w (drop_while is_space s)) question_words
  end.

(** [re.split(r'\s+(?:how|...|do)', s)[0]]: the text before the leftmost
    match, the whole of [s] when there is none. *)
Fixpoint before_question_word (s : str) : str :=
  if question_word_at s then []
  else
    match s with
    | [] => []
    | c :: s' => c :: before_question_word s'
    end.

(** The body of the second loop for one pattern: the profession it
    proposes, if it passes the test [profession and len(profession.split())
    <= 3]. *)
Definition profession_of (lead question_lower : str) : option str :=
  match search_profession lead question_lower with
  | None => None
  | Some group1 =>
      let profession := before_question_word (strip group1) in
      if nonempty profession && (List.length (split_ws profession) <=? 3)
      then Some profession
      else None
  end.

(** The second loop: the first pattern, in order, whose profession passes. *)
Fixpoint scan_patterns (leads : list str) (question_lower : str)
    : option ProfileInfo :=
  match leads with
  | [] => None
  | lead :: rest =>
      match profession_of lead question_lower with
      | Some profession =>
          Some {| profile := custom; custom_profile := Some profession;
                  confidence := medium; detected_keyword := profession |}
      | None => scan_patterns rest question_lower
      end
  end.

Definition detect_profile (question : str) : option ProfileInfo :=
  let question_lower := lower question in
  match scan_keywords PROFILE_KEYWORDS question_lower with
  | Some info => Some info
  | None => scan_patterns profession_patterns question_lower
  end.

(** The values of the [contexts] dictionary of [get_profile_context]. *)
Definition context_doctor : str := lit "
            Healthcare professionals focused on:
            - Patient outcomes and care quality
            - Managing medical teams (residents, nurses)
            - Clinical excellence and research
            - Hospital administration and operations
            - Board certification and advancement
            - Balancing clinical work with leadership
            ".

Definition context_hr_leader : str := lit "
            Human Resources leaders focused on:
            - Talent acquisition and retention
            - Employee development and engagement
            - Organizational culture and change
            - Performance management systems
            - Strategic workforce planning
            - Diversity, equity, and inclusion
            ".

Definition context_entrepreneur : str := lit "
            Business founders focused on:
            - Building and scaling businesses
            - Product-market fit and growth
            - Fundraising and investor relations
            - Team building and leadership
            - Customer acquisition and retention
            - Managing limited resources effectively
            ".

Definition context_corporate_executive : str := lit "
            Senior corporate leaders focused on:
            - Strategic business decisions
            - P&L management and growth
            - Stakeholder management (board, investors)
            - Organizational transformation
            - Leading large teams (100+ people)
            - Cross-functional collaboration
            ".

Definition context_consultant : str := lit "
            Professional consultants focused on:
            - Client engagement and delivery
            - Problem-solving and recommendations
            - Building credibility and expertise
            - Managing multiple projects
            - Thought leadership and positioning
            - Business development
            ".

Definition context_engineer : str := lit "
            Technical professionals focused on:
            - Technical leadership and architecture
            - Team management and mentoring
            - Innovation and product development
            - Balancing technical depth with leadership
            - Cross-functional collaboration
            - Strategic technology decisions
            ".

Definition context_lawyer : str := lit "
            Legal professionals focused on:
            - Case management and client service
            - Legal strategy and advisory
            - Team leadership and development
            - Business development and partnerships
            - Professional reputation
            - Work-life balance in demanding field
            ".

Definition context_educator : str := lit "
            Educational leaders focused on:
            - Student outcomes and development
            - Curriculum design and innovation
            - Faculty/team management
            - Institutional leadership
            - Balancing teaching with administration
            - Educational technology and methods
            ".

Definition context_finance : str := lit "
            Financial professionals focused on:
            - Financial planning and analysis
            - Risk management and compliance
            - Strategic financial decisions
            - Investor relations and reporting
            - Team leadership and development
            - Business partnering with operations
            ".

Definition contexts (p : ProfileName) : option str :=
  match p with
  | doctor => Some context_doctor
  | hr_leader => Some context_hr_leader
  | entrepreneur => Some context_entrepreneur
  | corporate_executive => Some context_corporate_executive
  | consultant => Some context_consultant
  | engineer => Some context_engineer
  | lawyer => Some context_lawyer
  | educator => Some context_educator
  | finance => Some context_finance
  | custom => None
  end.

Definition context_custom (custom_prof : str) : str :=
  lit "
            " ++ title custom_prof ++ lit " professional focused on:
            - Professional excellence and leadership in their field
            - Managing teams and stakeholders effectively
            - Balancing technical/functional work with strategic leadership
            - Career growth and board-level positioning
            - Applying frameworks to their specific domain
            - Achieving measurable business outcomes
            
            Note: Adapt examples to this profession's context where relevant.
            ".

Definition get_profile_context (p : ProfileName) (custom_prof : option str)
    : str :=
  match contexts p with
  | Some text => text
  | None =>
      match p, custom_prof with
      | custom, Some (c :: cs) => context_custom (c :: cs)
      | _, _ => lit "Professional focused on leadership and growth"
      end
  end.

End ProfileDetector.

(* ====================================================================== *)
(** ** UNIVERSAL METADATA HANDLER                                          *)
(* ====================================================================== *)

Module UniversalMetadataHandler.
Import PyStr.

(** The metadata keys the module reads; a key that is absent is [None].
    Session numbers are integers (the session filter of the retrieval step
    compares them with [int(...)]). *)
Record Metadata := {
  source_file : option str;
  parent_folder : option str;
  session_number : option Z;
  session_title : option str;
  facilitator : option str
}.

Record Document := {
  page_content : str;
  metadata : Metadata
}.

(** [d.get(key, default)] *)
Definition get_default {A} (o : option A) (default : A) : A :=
  match o with Some v => v | None => default end.

(** Truthiness of [d.get(key)]: a string that is present and not empty,
    an integer that is present and not zero. *)
Definition truthy_str (o : option str) : bool :=
  match o with Some s => nonempty s | None => false end.
Definition truthy_int (o : option Z) : bool :=
  match o with Some z => negb (z =? 0)%Z | None => false end.

(** [re.sub(r'^\d+\.\s*', '', name)]: the pattern can only match at the
    start of [name]; the digits and the blanks are the longest runs. *)
Definition strip_ordinal (name : str) : str :=
  match take_while is_digit name, drop_while is_digit name with
  | _ :: _, c :: rest =>
      if Ascii.eqb c "."%char then drop_while is_space rest else name
  | _, _ => name
  end.

Definition extract_clean_filename (source_file : str) : str :=
  let name :=
    replace (lit ".txt") []
      (replace (lit ".pdf") [] (replace (lit ".docx") [] source_file)) in
  let name := strip_ordinal name in
  strip name.

Inductive RefKind := session | folder_content | general.

(** The dictionary [ref_info]. *)
Record RefInfo := {
  ref_source_file : str;
  clean_name : str;
  ref_parent_folder : str;
  type : option RefKind;
  reference_text : option str
}.

Definition set_type (k : RefKind) (r : RefInfo) : RefInfo :=
  {| ref_source_file := ref_source_file r; clean_name := clean_name r;
     ref_parent_folder := ref_parent_folder r;
     type := Some k; reference_text := reference_text r |}.

Definition set_reference_text (t : str) (r : RefInfo) : RefInfo :=
  {| ref_source_file := ref_source_file r; clean_name := clean_name r;
     ref_parent_folder := ref_parent_folder r;
     type := type r; reference_text := Some t |}.

(** [any(kw in source_file.lower() for kw in kws)] *)
Definition mentions_any (kws : list str) (source_file : str) : bool :=
  existsb (fun kw => contains kw (lower source_file)) kws.

Definition folder_video_keywords : list str :=
  map lit ["video"; "sawaal"; "showcase"; "connect"; "revision"]%string.
Definition general_video_keywords : list str :=
  map lit ["video"; "sawaal"; "showcase"]%string.

Definition get_source_reference (doc : Document) : RefInfo :=
  let md := metadata doc in
  let source_file := get_default (source_file md) (lit "Unknown") in
  let parent_folder := get_default (parent_folder md) [] in
  let session_number := session_number md in
  let facilitator := facilitator md in
  let clean_name := extract_clean_filename source_file in
  let ref_info :=
    {| ref_source_file := source_file; clean_name := clean_name;
       ref_parent_folder := parent_folder;
       type := None; reference_text := None |} in
  if truthy_int session_number then
    let ref_info := set_type session ref_info in
    let ref_text :=
      lit "For more details, refer to **Session "
      ++ str_of_Z (get_default session_number 0%Z) in
    let ref_text :=
      if truthy_str facilitator
      then ref_text ++ lit " (Facilitator: "
                    ++ get_default facilitator [] ++ lit ")"
      else ref_text in
    let ref_text := ref_text ++ lit "** videos and documentation (PPT/PDF)." in
    set_reference_text ref_text ref_info
  else if nonempty parent_folder
          && negb (str_eqb parent_folder (lit "lms_content")) then
    let ref_info := set_type folder_content ref_info in
    if mentions_any folder_video_keywords source_file
    then set_reference_text
           (lit "For more details, visit **" ++ clean_name ++ lit "** video.")
           ref_info
    else set_reference_text
           (lit "For more details, refer to **" ++ parent_folder ++ lit " - "
            ++ clean_name ++ lit "**.")
           ref_info
  else
    let ref_info := set_type general ref_info in
    if mentions_any general_video_keywords source_file
    then set_reference_text
           (lit "For more details, visit **" ++ clean_name ++ lit "** video.")
           ref_info
    else set_reference_text
           (lit "For more details, refer to **" ++ clean_name ++ lit "**.")
           ref_info.

End UniversalMetadataHandler.

(* ====================================================================== *)
(** ** Floating-point numbers as [get_metrics] prints them                 *)
(* ====================================================================== *)

Module PyFloat.
Import PyStr.

(** [float(n)] for a counter; exact for [0 <= n < 2^53]. *)
Definition of_int (n : Z) : float := PrimFloat.of_uint63 (Uint63.of_Z n).

(** [a / b] on two integers and on a float and an integer. *)
Definition int_div (a b : Z) : float := PrimFloat.div (of_int a) (of_int b).
Definition float_div_int (a : float) (b : Z) : float :=
  PrimFloat.div a (of_int b).

(** Nearest integer to [num / den], ties to even ([0 <= num], [0 < den]). *)
Definition round_half_even (num den : Z) : Z :=
  let q := (num / den)%Z in
  let r := (num mod den)%Z in
  match (2 * r ?= den)%Z with
  | Lt => q
  | Gt => (q + 1)%Z
  | Eq => if Z.even q then q else (q + 1)%Z
  end.

(** The digits of [n], left-padded with zeros to [width] characters. *)
Definition zero_pad (width : nat) (n : Z) : str :=
  let digits := str_of_Z n in
  repeat "0"%char (width - List.length digits) ++ digits.

(** [f"{x:.<d>f}"]: the exact binary value of [x], correctly rounded to [d]
    decimals. *)
Definition format_fixed (d : nat) (x : float) : str :=
  let sign (s : bool) : str := if s then lit "-" else [] in
  let scale := (10 ^ Z.of_nat d)%Z in
  let render (n : Z) : str :=
    str_of_Z (n / scale)
    ++ match d with
       | O => []
       | S _ => lit "." ++ zero_pad d (n mod scale)
       end in
  match Prim2SF x with
  | S754_zero s => sign s ++ render 0%Z
  | S754_infinity s => sign s ++ lit "inf"
  | S754_nan => lit "nan"
  | S754_finite s m e =>
      let n :=
        match e with
        | Zneg p => round_half_even (Zpos m * scale) (2 ^ Zpos p)
        | _ => (Zpos m * scale * 2 ^ e)%Z
        end in
      sign s ++ render n
  end.

End PyFloat.

(* ====================================================================== *)
(** ** PROFILE-AWARE RAG SYSTEM                                            *)
(* ====================================================================== *)

Module ProfileAwareRAGSystem.
Import PyStr.
Export ProfileDetector UniversalMetadataHandler.

(** *** Values *)

(** One exchange of the conversation history. *)
Record Turn := {
  turn_question : str;
  turn_answer : str;
  turn_timestamp : str
}.

(** An entry of [metrics['queries']]. *)
Record QueryLog := {
  log_timestamp : str;
  log_question : str;
  log_profile : str;
  log_latency : float
}.

(** [self.metrics] *)
Record Metrics := {
  query_count : Z;
  total_latency : float;
  profile_detected_count : Z;
  queries : list QueryLog
}.

(** The metrics set up by [__init__]. *)
Definition initial_metrics : Metrics :=
  {| query_count := 0; total_latency := 0%float;
     profile_detected_count := 0; queries := [] |}.

(** The four values the prompt template interpolates. *)
Record PromptInput := {
  prompt_context : str;
  prompt_profile_context : str;
  prompt_conversation_history : str;
  prompt_question : str
}.

(** A call either returns or raises an exception [e]; [Raise] carries
    [str(e)]. *)
Inductive result (A : Type) :=
| Ok (value : A)
| Raise (message : str).
Arguments Ok {A} value.
Arguments Raise {A} message.

(** What one call of [ask] or [ask_stream] obtains from outside the class:
    the vector store and the retriever, the chain [prompt | llm | parser]
    run on the interpolated values, and the clock.  A stream delivers its
    chunks and then either ends or raises. *)
Record Env := {
  similarity_search : str -> nat -> Z -> result (list Document);
  retriever_invoke : str -> result (list Document);
  chain_invoke : PromptInput -> result str;
  chain_stream : PromptInput -> list str * option str;
  now_history : str;
  now_metrics : str;
  elapsed : float
}.

(** *** Helpers of the class *)

Definition reference_keywords : list str :=
  map lit ["source"; "reference"; "where can i find"; "where is this from";
           "which session"; "what video"; "where to learn more";
           "more details"; "show source"; "cite"; "citation";
           "what document"; "which document"]%string.

Definition _is_asking_for_references (question : str) : bool :=
  let question_lower := lower question in
  existsb (fun keyword => contains keyword question_lower) reference_keywords.

(** The body of the loop of [_format_conversation_history]: two lines are
    appended to [formatted] for every exchange. *)
Fixpoint format_exchanges (formatted : list str) (exchanges : list Turn)
    : list str :=
  match exchanges with
  | [] => formatted
  | exchange :: rest =>
      let formatted := formatted ++ [lit "User: " ++ turn_question exchange] in
      let formatted :=
        formatted
        ++ [lit "Assistant: " ++ slice_to 200 (turn_answer exchange)
            ++ lit "..."] in
      format_exchanges formatted rest
  end.

Definition _format_conversation_history (conversation_history : list Turn)
    : str :=
  match conversation_history with
  | [] => lit "No previous conversation."
  | _ :: _ =>
      join [NL] (format_exchanges [] (slice_last 10 conversation_history))
  end.

(** The header parts of one document, in the order they are appended. *)
Definition header_parts (doc : Document) : list str :=
  let md := metadata doc in
  let source_file := get_default (source_file md) [] in
  let parent_folder := get_default (parent_folder md) [] in
  (if nonempty source_file
   then [lit "Source: " ++ extract_clean_filename source_file] else [])
  ++ (if nonempty parent_folder
         && negb (str_eqb parent_folder (lit "lms_content"))
      then [lit "Category: " ++ parent_folder] else [])
  ++ (if truthy_int (session_number md)
      then
        let session_num := str_of_Z (get_default (session_number md) 0%Z) in
        let session_title := get_default (session_title md) [] in
        if nonempty session_title
        then [lit "Session " ++ session_num ++ lit ": " ++ session_title]
        else [lit "Session " ++ session_num]
      else [])
  ++ (if truthy_str (facilitator md)
      then [lit "Facilitator: " ++ get_default (facilitator md) []] else []).

Definition format_doc (doc : Document) : str :=
  match header_parts doc with
  | [] => page_content doc
  | parts =>
      lit "[" ++ join (lit " | ") parts ++ lit "]" ++ [NL] ++ page_content doc
  end.

Definition _format_docs (docs : list Document) : str :=
  join ([NL; NL] ++ lit "---" ++ [NL; NL]) (map format_doc docs).

Definition _get_primary_source_reference (retrieved_docs : list Document)
    : option str :=
  match retrieved_docs with
  | [] => None
  | primary_doc :: _ => reference_text (get_source_reference primary_doc)
  end.

(** The first stage of the chain: the dictionary of the four values the
    prompt template receives. *)
Definition chain_input (context profile_context : str)
    (conversation_history : list Turn) (question : str) : PromptInput :=
  {| prompt_context := context;
     prompt_profile_context := profile_context;
     prompt_conversation_history :=
       _format_conversation_history conversation_history;
     prompt_question := question |}.

(** *** Retrieval *)

(** [session\s+(\d+)] anchored at the head of [s]; the result is group 1. *)
Definition session_at (s : str) : option str :=
  if starts_with (lit "session") s then
    match skipn 7 s with
    | [] => None
    | c :: _ as rest =>
        if is_space c then
          let digits := take_while is_digit (drop_while is_space rest) in
          if nonempty digits then Some digits else None
        else None
    end
  else None.

(** [re.search(r'session\s+(\d+)', s)] *)
Fixpoint search_session (s : str) : option str :=
  match session_at s with
  | Some digits => Some digits
  | None =>
      match s with
      | [] => None
      | _ :: s' => search_session s'
      end
  end.

(** [int(digits)] *)
Definition int_of_digits (digits : str) : Z :=
  fold_left (fun acc c => (acc * 10 + Z.of_nat (code c - 48))%Z) digits 0%Z.

Definition retrieve (env : Env) (question : str) : result (list Document) :=
  match search_session (lower question) with
  | Some digits =>
      similarity_search env question 8 (int_of_digits digits)
  | None => retriever_invoke env question
  end.

(** *** Cleaning the generated answer (step 6 of [ask]) *)

Definition tv_emoji : str := lit "📺".
Definition books_emoji : str := lit "📚".
Definition warning_emoji : str := lit "⚠️".

(** The list [patterns].  Each pattern is [<emoji>?\s*<text>.*?$] where
    [<text>] is one of a few literal alternatives, matched with
    [re.DOTALL | re.IGNORECASE]. *)
Definition patterns : list (str * list str) :=
  [ (tv_emoji, [lit "Related Video Resources:"]);
    (tv_emoji, [lit "For more details"; lit "For further details"]);
    (books_emoji, [lit "For more details"]) ].

(** [\s*<text>] anchored at the head of [s].  No text starts with a blank,
    so the run of blanks it follows is the longest one. *)
Definition text_after_blanks (texts : list str) (s : str) : bool :=
  existsb (fun text => starts_with_ci text (drop_while is_space s)) texts.

(** [<emoji>?\s*<text>] anchored at the head of [s]: first with the emoji,
    then without it. *)
Definition pattern_starts (emoji : str) (texts : list str) (s : str) : bool :=
  (starts_with emoji s && text_after_blanks texts (skipn (List.length emoji) s))
  || text_after_blanks texts s.

Definition ends_with_newline (s : str) : bool :=
  match rev s with
  | c :: _ => is_nl c
  | [] => false
  end.

(** [re.sub(pattern, '', s, flags=re.DOTALL | re.IGNORECASE)].  From the
    leftmost match, the lazy [.*?] runs to the first place where [$] holds:
    the end of [s], or just before a newline that ends [s].  That newline
    is kept, and nothing can match after it. *)
Fixpoint remove_section (emoji : str) (texts : list str) (s : str) : str :=
  if pattern_starts emoji texts s
  then (if ends_with_newline s then [NL] else [])
  else
    match s with
    | [] => []
    | c :: s' => c :: remove_section emoji texts s'
    end.

(** The loop over [patterns]: each substitution is followed by [strip()]. *)
Definition strip_boilerplate (answer : str) : str :=
  fold_left (fun answer p => strip (remove_section (fst p) (snd p) answer))
            patterns answer.

(** [f"\n\n📚 {source_ref}"] *)
Definition citation (source_ref : str) : str :=
  [NL; NL] ++ books_emoji ++ lit " " ++ source_ref.

Definition add_reference (answer question : str) (source_ref : option str)
    : str :=
  if _is_asking_for_references question && truthy_str source_ref
  then answer ++ citation (get_default source_ref [])
  else answer.

(** [re.sub(r'\n\n\n+', '\n\n', s)]: of every run of newlines the first two
    are kept.  [run] is the number of newlines just read. *)
Fixpoint collapse_aux (run : nat) (s : str) : str :=
  match s with
  | [] => []
  | c :: s' =>
      if is_nl c
      then (if run <? 2 then c :: collapse_aux (S run) s'
            else collapse_aux (S run) s')
      else c :: collapse_aux 0 s'
  end.
Definition collapse_blank_lines (s : str) : str := collapse_aux 0 s.

(** Step 6 as a whole. *)
Definition clean_answer (answer question : str) (source_ref : option str)
    : str :=
  let answer := strip_boilerplate answer in
  let answer := add_reference answer question source_ref in
  strip (collapse_blank_lines answer).

(** *** The body of a [try] block

    A computation reads and updates a state [S] (the metrics, and for the
    generator the chunks yielded so far) and returns or raises.  The state
    reached when an exception is raised is kept: the [except] clause sees
    what the block did before failing. *)

Definition M (S A : Type) : Type := S -> result A * S.

Definition ret {S A} (a : A) : M S A := fun s => (Ok a, s).
Definition raise {S A} (message : str) : M S A := fun s => (Raise message, s).
Definition bind {S A B} (m : M S A) (k : A -> M S B) : M S B :=
  fun s =>
    match m s with
    | (Ok a, s') => k a s'
    | (Raise e, s') => (Raise e, s')
    end.
Definition modify {S} (f : S -> S) : M S unit := fun s => (Ok tt, f s).
Definition lift {S A} (r : result A) : M S A := fun s => (r, s).

Notation "x <- m ;; k" := (bind m (fun x => k))
  (at level 61, m at next level, right associativity).
Notation "m ;;; k" := (bind m (fun _ => k))
  (at level 61, right associativity).

(** *** Updates of [self.metrics] *)

(** [self.metrics['profile_detected_count'] += 1] *)
Definition count_detected_profile (m : Metrics) : Metrics :=
  {| query_count := query_count m;
     total_latency := total_latency m;
     profile_detected_count := profile_detected_count m + 1;
     queries := queries m |}.

(** The label logged for a query: [profile_info['profile'] if profile_info
    else 'general']. *)
Definition logged_profile (profile_info : option ProfileInfo) : str :=
  match profile_info with
  | Some info => profile_label (profile info)
  | None => lit "general"
  end.

(** The block under [# Track metrics]. *)
Definition track_metrics (env : Env) (question : str)
    (profile_info : option ProfileInfo) (m : Metrics) : Metrics :=
  let latency := elapsed env in
  {| query_count := query_count m + 1;
     total_latency := PrimFloat.add (total_latency m) latency;
     profile_detected_count := profile_detected_count m;
     queries :=
       queries m
       ++ [ {| log_timestamp := now_metrics env;
               log_question := slice_to 50 question ++ lit "...";
               log_profile := logged_profile profile_info;
               log_latency := latency |} ] |}.

(** *** [ask] *)

(** The dictionary [ask] returns. *)
Record Answer := {
  answer : str;
  updated_history : list Turn
}.

(** [profile_name.upper().replace('_', ' ')] *)
Definition display_name (p : ProfileName) : str :=
  replace (lit "_") (lit " ") (upper (profile_label p)).

(** What [custom_prof.UPPER()] raises: [str] has no such method. *)
Definition no_attribute_UPPER : str :=
  lit "'str' object has no attribute 'UPPER'".

(** The profile context of [ask] for a detected profile.  For a custom
    profile the first field of the f-string calls [custom_prof.UPPER()]. *)
Definition ask_profile_context (info : ProfileInfo) : result str :=
  match profile info with
  | custom => Raise no_attribute_UPPER
  | profile_name =>
      Ok ([NL] ++ lit "USER PROFILE DETECTED: " ++ display_name profile_name
          ++ [NL] ++ lit "Profile Context: "
          ++ get_profile_context profile_name None
          ++ [NL; NL]
          ++ lit "IMPORTANT: Personalize examples for this profile while keeping the core framework intact!"
          ++ [NL])
  end.

Definition ask_general_context : str :=
  lit "USER PROFILE: General professional" ++ [NL]
  ++ lit "Provide general examples from the context.".

(** Step 1 of [ask]. *)
Definition ask_detect (question : str)
    : M Metrics (option ProfileInfo * str) :=
  let profile_info := detect_profile question in
  match profile_info with
  | Some info =>
      modify count_detected_profile ;;;
      profile_context <- lift (ask_profile_context info) ;;
      ret (profile_info, profile_context)
  | None => ret (profile_info, ask_general_context)
  end.

(** The [try] block of [ask]. *)
Definition ask_try (env : Env) (question : str)
    (conversation_history : list Turn) : M Metrics Answer :=
  (* STEP 1: Detect user profile *)
  detected <- ask_detect question ;;
  let (profile_info, profile_context) := detected in
  (* STEP 2: Retrieve relevant content *)
  retrieved_docs <- lift (retrieve env question) ;;
  (* STEP 3: Get source reference *)
  let source_ref := _get_primary_source_reference retrieved_docs in
  (* STEP 4: Format context *)
  let context := _format_docs retrieved_docs in
  (* STEP 5: Generate personalized answer with conversation history *)
  answer <- lift (chain_invoke env
              (chain_input context profile_context conversation_history
                 question)) ;;
  (* STEP 6: Clean up and add source ONLY if user is asking for it *)
  let answer := clean_answer answer question source_ref in
  let updated_history :=
    conversation_history
    ++ [ {| turn_question := question; turn_answer := answer;
            turn_timestamp := now_history env |} ] in
  modify (track_metrics env question profile_info) ;;;
  ret {| answer := answer; updated_history := updated_history |}.

(** The prefix of the answer the [except] clause of [ask] returns. *)
Definition error_marker : str := warning_emoji ++ lit " Error: ".

(** [ask]: the [try] block and its [except Exception] clause.  A history of
    [None] stands for the empty one. *)
Definition ask (env : Env) (question : str)
    (conversation_history : option (list Turn)) (m : Metrics)
    : Answer * Metrics :=
  let conversation_history := get_default conversation_history [] in
  match ask_try env question conversation_history m with
  | (Ok r, m') => (r, m')
  | (Raise e, m') =>
      ({| answer := error_marker ++ e;
          updated_history := conversation_history |}, m')
  end.

(** *** [ask_stream] *)

(** What the generator yields, by the [yield] statement it comes from. *)
Inductive Yield :=
| AnswerChunk (chunk : str)
| ReferenceChunk (source_ref : str)
| HistoryMarker (length_of_history : nat)
| ErrorChunk (message : str).

(** The string each [yield] hands to the caller. *)
Definition yielded (y : Yield) : str :=
  match y with
  | AnswerChunk chunk => chunk
  | ReferenceChunk source_ref => citation source_ref
  | HistoryMarker n => lit "__HISTORY_UPDATE__:" ++ str_of_nat n
  | ErrorChunk message => [NL; NL] ++ error_marker ++ message
  end.

(** The state of a run of the generator: the metrics and the values
    yielded so far. *)
Definition StreamState : Type := Metrics * list Yield.

Definition emit (y : Yield) : M StreamState unit :=
  modify (fun s : StreamState => (fst s, snd s ++ [y])).
Definition on_metrics (f : Metrics -> Metrics) : M StreamState unit :=
  modify (fun s : StreamState => (f (fst s), snd s)).

Definition stream_profile_context (info : ProfileInfo) : str :=
  match profile info with
  | custom =>
      let custom_prof := get_default (custom_profile info) [] in
      [NL] ++ lit "USER PROFILE DETECTED: " ++ upper custom_prof
      ++ [NL] ++ lit "Profile Context: "
      ++ get_profile_context custom (Some custom_prof)
      ++ [NL] ++ lit "IMPORTANT: Personalize examples for this profession!"
      ++ [NL]
  | profile_name =>
      [NL] ++ lit "USER PROFILE DETECTED: " ++ display_name profile_name
      ++ [NL] ++ lit "Profile Context: "
      ++ get_profile_context profile_name None
      ++ [NL] ++ lit "IMPORTANT: Personalize examples for this profile!"
      ++ [NL]
  end.

Definition stream_general_context : str :=
  lit "USER PROFILE: General professional".

(** The loop [for chunk in chain.stream({})]: a chunk that is not empty is
    added to [full_answer] and yielded. *)
Fixpoint forward_chunks (full_answer : str) (chunks : list str)
    : M StreamState str :=
  match chunks with
  | [] => ret full_answer
  | chunk :: rest =>
      if nonempty chunk
      then emit (AnswerChunk chunk) ;;; forward_chunks (full_answer ++ chunk) rest
      else forward_chunks full_answer rest
  end.

(** The [try] block of [ask_stream], run until the generator is exhausted.
    Its value is the local [updated_history]. *)
Definition ask_stream_try (env : Env) (question : str)
    (conversation_history : list Turn) : M StreamState (list Turn) :=
  (* Detect profile *)
  let profile_info := detect_profile question in
  profile_context <-
    match profile_info with
    | Some info =>
        on_metrics count_detected_profile ;;;
        ret (stream_profile_context info)
    | None => ret stream_general_context
    end ;;
  (* Retrieve content *)
  retrieved_docs <- lift (retrieve env question) ;;
  (* Get source *)
  let source_ref := _get_primary_source_reference retrieved_docs in
  (* Format context *)
  let context := _format_docs retrieved_docs in
  (* Stream answer with conversation history *)
  let stream :=
    chain_stream env
      (chain_input context profile_context conversation_history question) in
  full_answer <- forward_chunks [] (fst stream) ;;
  match snd stream with Some e => raise e | None => ret tt end ;;;
  (if _is_asking_for_references question && truthy_str source_ref
   then emit (ReferenceChunk (get_default source_ref []))
   else ret tt) ;;;
  let updated_history :=
    conversation_history
    ++ [ {| turn_question := question; turn_answer := full_answer;
            turn_timestamp := now_history env |} ] in
  (* Yield special marker with updated history *)
  emit (HistoryMarker (List.length updated_history)) ;;;
  on_metrics (track_metrics env question profile_info) ;;;
  ret updated_history.

(** [ask_stream], as the sequence of values the generator yields and the
    metrics it leaves. *)
Definition ask_stream_run (env : Env) (question : str)
    (conversation_history : option (list Turn)) (m : Metrics)
    : list Yield * Metrics :=
  let conversation_history := get_default conversation_history [] in
  match ask_stream_try env question conversation_history (m, []) with
  | (Ok _, (m', ys)) => (ys, m')
  | (Raise e, (m', ys)) => (ys ++ [ErrorChunk e], m')
  end.

Definition ask_stream (env : Env) (question : str)
    (conversation_history : option (list Turn)) (m : Metrics)
    : list str * Metrics :=
  let (ys, m') := ask_stream_run env question conversation_history m in
  (map yielded ys, m').

(** *** [get_metrics] *)

(** The dictionary returned once a query has been counted. *)
Record MetricsReport := {
  total_queries : Z;
  profile_detected : Z;
  detection_rate : str;
  average_latency : str;
  total_time : str;
  recent_queries : list QueryLog
}.

(** [get_metrics] returns [self.metrics] itself while no query is counted. *)
Inductive MetricsView :=
| RawMetrics (m : Metrics)
| Report (r : MetricsReport).

Definition get_metrics (m : Metrics) : MetricsView :=
  if (query_count m =? 0)%Z then RawMetrics m
  else
    let avg_latency := PyFloat.float_div_int (total_latency m) (query_count m) in
    let profile_detection_rate :=
      PrimFloat.mul
        (PyFloat.int_div (profile_detected_count m) (query_count m))
        (PyFloat.of_int 100) in
    Report
      {| total_queries := query_count m;
         profile_detected := profile_detected_count m;
         detection_rate :=
           PyFloat.format_fixed 1 profile_detection_rate ++ lit "%";
         average_latency := PyFloat.format_fixed 2 avg_latency ++ lit "s";
         total_time := PyFloat.format_fixed 2 (total_latency m) ++ lit "s";
         recent_queries := slice_last 5 (queries m) |}.

End ProfileAwareRAGSystem.

(* ====================================================================== *)
(** ** The HTTP endpoints of [backend/main.py]                             *)
(* ====================================================================== *)

Module Api.
Import PyStr.
Export ProfileAwareRAGSystem.

(** An endpoint returns a value or raises [HTTPException]. *)
Inductive Response (A : Type) :=
| Returned (value : A)
| HTTPException (status_code : nat) (detail : str).
Arguments Returned {A} value.
Arguments HTTPException {A} status_code detail.

(** *** The chat endpoints *)

Record ChatRequest := {
  req_question : str;
  req_session_id : str;
  req_conversation_history : list Turn
}.

Definition not_initialized : str := lit "RAG system not initialized".

(** [chat].  The global [rag_system] is [None] until [startup] has run;
    afterwards it is the system, of which the metrics are its state.  [ask]
    catches its own exceptions, so that the [try] block of the endpoint
    returns. *)
Definition chat (rag_system : option Metrics) (env : Env)
    (request : ChatRequest) : Response Answer * option Metrics :=
  match rag_system with
  | None => (HTTPException 503 not_initialized, None)
  | Some m =>
      let (result, m') :=
        ask env (req_question request)
          (Some (req_conversation_history request)) m in
      (Returned {| answer := answer result;
                   updated_history := updated_history result |},
       Some m')
  end.

(** The events [event_generator] yields, by their ["event"] field; the
    argument is the value the ["data"] field carries under the key
    ["chunk"], ["full_answer"] or ["error"], before [json.dumps]. *)
Inductive Event :=
| MessageEvent (chunk : str)
| DoneEvent (full_answer : str)
| ErrorEvent (error : str).

Definition history_update_prefix : str := lit "__HISTORY_UPDATE__:".

(** The loop of [event_generator]: a chunk that starts with the marker is
    skipped; any other is added to [full_answer] and sent. *)
Fixpoint forward_events (full_answer : str) (chunks : list str)
    : list Event * str :=
  match chunks with
  | [] => ([], full_answer)
  | chunk :: rest =>
      if starts_with history_update_prefix chunk
      then forward_events full_answer rest
      else
        let (events, full_answer) :=
          forward_events (full_answer ++ chunk) rest in
        (MessageEvent chunk :: events, full_answer)
  end.

(** [event_generator] over a generator that yields [chunks] and then ends,
    or raises an exception of text [raised]. *)
Definition event_generator (chunks : list str) (raised : option str)
    : list Event :=
  let (events, full_answer) := forward_events [] chunks in
  match raised with
  | None => events ++ [DoneEvent full_answer]
  | Some e => events ++ [ErrorEvent e]
  end.

(** [chat_stream], as the events of the response.  The generator
    [ask_stream] catches its own exceptions and ends. *)
Definition chat_stream (rag_system : option Metrics) (env : Env)
    (request : ChatRequest) : Response (list Event) * option Metrics :=
  match rag_system with
  | None => (HTTPException 503 not_initialized, None)
  | Some m =>
      let (chunks, m') :=
        ask_stream env (req_question request)
          (Some (req_conversation_history request)) m in
      (Returned (event_generator chunks None), Some m')
  end.

(** *** The feedback endpoints *)

Record FeedbackRequest := {
  fb_session_id : str;
  fb_message_id : str;
  fb_question : str;
  fb_answer : str;
  fb_rating : str;
  fb_user_comment : option str
}.

Record FeedbackResponse := {
  success : bool;
  response_message : str;
  feedback_id : Z
}.

(** A row of the table [feedback] ([database.Feedback]). *)
Record Feedback := {
  row_id : Z;
  row_session_id : str;
  row_message_id : str;
  row_question : str;
  row_answer : str;
  row_rating : str;
  row_timestamp : str;
  row_user_comment : option str
}.

(** What the database does in one request: [commit] inserts the pending row
    and gives it its [id] and its [timestamp], or fails; [refresh] reads
    the row back, or fails. *)
Record Session := {
  commit : result (Z * str);
  refresh : result unit
}.

(** [feedback.rating not in ['positive', 'negative']] *)
Definition invalid_rating (rating : str) : bool :=
  negb (existsb (str_eqb rating) [lit "positive"; lit "negative"]).

Definition rating_detail : str :=
  lit "Rating must be 'positive' or 'negative'".

Section Endpoints.

(** [str(e)] for an [HTTPException] of a given status code and detail, as
    the installed framework renders it. *)
Variable http_exception_text : nat -> str -> str.

(** The [try] block of [submit_feedback]; the state is the table. *)
Definition submit_feedback_try (db : Session) (feedback : FeedbackRequest)
    : M (list Feedback) FeedbackResponse :=
  (* Validate rating *)
  (if invalid_rating (fb_rating feedback)
   then raise (http_exception_text 400 rating_detail)
   else ret tt) ;;;
  (* Create feedback entry *)
  assigned <- lift (commit db) ;;
  let db_feedback :=
    {| row_id := fst assigned;
       row_session_id := fb_session_id feedback;
       row_message_id := fb_message_id feedback;
       row_question := fb_question feedback;
       row_answer := fb_answer feedback;
       row_rating := fb_rating feedback;
       row_timestamp := snd assigned;
       row_user_comment := fb_user_comment feedback |} in
  modify (fun table => table ++ [db_feedback]) ;;;
  lift (refresh db) ;;;
  ret {| success := true;
         response_message := lit "Feedback submitted successfully";
         feedback_id := row_id db_feedback |}.

(** [submit_feedback]: the [try] block and its [except Exception] clause,
    which rolls back what is not committed and answers with status 500. *)
Definition submit_feedback (db : Session) (feedback : FeedbackRequest)
    (table : list Feedback) : Response FeedbackResponse * list Feedback :=
  match submit_feedback_try db feedback table with
  | (Ok response, table') => (Returned response, table')
  | (Raise e, table') => (HTTPException 500 e, table')
  end.

End Endpoints.

(** [round(x, ndigits)] on a float: the exact binary value of [x] rounded
    to [ndigits] decimals, ties to even, and the float nearest to that
    decimal. *)
Definition round_float (ndigits : nat) (x : float) : float :=
  let scale := (10 ^ Z.of_nat ndigits)%Z in
  match Prim2SF x with
  | S754_finite s m e =>
      let n :=
        match e with
        | Zneg p => PyFloat.round_half_even (Zpos m * scale) (2 ^ Zpos p)
        | _ => (Zpos m * scale * 2 ^ e)%Z
        end in
      let r := PyFloat.int_div n scale in
      if s then PrimFloat.opp r else r
  | _ => x
  end.

(** A Python number: [round] of an [int] is an [int]. *)
Inductive Number :=
| IntNumber (z : Z)
| FloatNumber (f : float).

(** The dictionary [get_feedback_stats] returns. *)
Record FeedbackStats := {
  total_feedback : Z;
  positive_count : Z;
  negative_count : Z;
  positive_percentage : Number
}.

(** [db.query(Feedback).filter(Feedback.rating == rating).count()] *)
Definition count_rating (rating : str) (table : list Feedback) : Z :=
  Z.of_nat
    (List.length (filter (fun row => str_eqb (row_rating row) rating) table)).

(** [get_feedback_stats] on the table the queries read, or on their
    failure. *)
Definition get_feedback_stats (queried : result (list Feedback))
    : Response FeedbackStats :=
  match queried with
  | Raise e => HTTPException 500 e
  | Ok table =>
      let total_feedback := Z.of_nat (List.length table) in
      let positive_count := count_rating (lit "positive") table in
      let negative_count := count_rating (lit "negative") table in
      Returned
        {| total_feedback := total_feedback;
           positive_count := positive_count;
           negative_count := negative_count;
           positive_percentage :=
             if (0 <? total_feedback)%Z
             then FloatNumber
                    (round_float 2
                       (PrimFloat.mul
                          (PyFloat.int_div positive_count total_feedback)
                          (PyFloat.of_int 100)))
             else IntNumber 0 |}
  end.

End Api.

(* ====================================================================== *)
(** * Properties                                                           *)
(* ====================================================================== *)

Import PyStr.

Module StrFacts.

Lemma str_eqb_eq (a b : str) : str_eqb a b = true <-> a = b.
Proof.
  revert b; induction a as [|x a IH]; intros [|y b]; simpl; split;
    try congruence; try discriminate; auto.
  - intros H; apply andb_true_iff in H as [Hx Hab].
    apply Ascii.eqb_eq in Hx; apply IH in Hab; congruence.
  - intros H; injection H as -> ->.
    rewrite Ascii.eqb_refl; simpl; apply IH; reflexivity.
Qed.

Lemma starts_with_app (p s : str) : starts_with p (p ++ s) = true.
Proof.
  induction p as [|a p IH]; simpl; auto.
  rewrite Ascii.eqb_refl; exact IH.
Qed.

Lemma starts_with_iff (p s : str) :
  starts_with p s = true <-> exists t, s = p ++ t.
Proof.
  revert s; induction p as [|a p IH]; intros s; simpl.
  - split; eauto.
  - destruct s as [|b s].
    + split; [discriminate | intros [t Ht]; discriminate].
    + rewrite andb_true_iff, Ascii.eqb_eq, IH; split.
      * intros [-> [t ->]]; eauto.
      * intros [t Ht]; injection Ht as -> ->; eauto.
Qed.

(** An occurrence of [p] at the head of [a ++ b] lies within [a] or runs
    over the seam. *)
Lemma starts_with_seam (p a b : str) :
  starts_with p (a ++ b) = true ->
  starts_with p a = true
  \/ exists q, p = a ++ q /\ q <> [] /\ starts_with q b = true.
Proof.
  revert a; induction p as [|x p IH]; intros a H; simpl in *; auto.
  destruct a as [|y a]; simpl in *.
  - right; exists (x :: p); repeat split; auto; discriminate.
  - apply andb_true_iff in H as [Hxy H].
    apply Ascii.eqb_eq in Hxy; subst y.
    destruct (IH _ H) as [Hin | [q [-> [Hq Hs]]]].
    + left; rewrite Ascii.eqb_refl; exact Hin.
    + right; exists q; auto.
Qed.

Lemma contains_cons_false (p : str) c s :
  contains p (c :: s) = false ->
  starts_with p (c :: s) = false /\ contains p s = false.
Proof. simpl; intros H; apply orb_false_iff in H; exact H. Qed.

(** [kw] is a substring of [s]. *)
Definition occurs (kw s : str) : Prop := exists pre post, s = pre ++ kw ++ post.

Lemma contains_iff (kw s : str) : contains kw s = true <-> occurs kw s.
Proof.
  unfold occurs; induction s as [|c s IH]; simpl.
  - rewrite orb_false_r, starts_with_iff; split.
    + intros [t ->]; exists [], t; reflexivity.
    + intros [pre [post H]]. destruct pre; [|discriminate].
      exists post; exact H.
  - rewrite orb_true_iff, IH.
    change (match kw with [] => true | a :: p' => Ascii.eqb a c && starts_with p' s end)
      with (starts_with kw (c :: s)).
    rewrite starts_with_iff; split.
    + intros [[t ->] | [pre [post ->]]].
      * exists [], t; reflexivity.
      * exists (c :: pre), post; reflexivity.
    + intros [[|x pre] [post H]].
      * left; exists post; exact H.
      * injection H as -> ->. right; exists pre, post; reflexivity.
Qed.

Lemma contains_false_iff (kw s : str) : contains kw s = false <-> ~ occurs kw s.
Proof.
  rewrite <- contains_iff; destruct (contains kw s); split; congruence.
Qed.

(** *** [str.replace] *)

Lemma replace_absent old new (s : str) :
  contains old s = false -> replace old new s = s.
Proof.
  unfold replace; induction s as [|c s IH]; intros H; auto.
  apply contains_cons_false in H as [Hs Hc].
  cbn [replace_aux]; rewrite Hs; f_equal; auto.
Qed.

(** No occurrence of [old] in [stem ++ b] starts inside [stem]. *)
Fixpoint none_from (old stem b : str) : Prop :=
  match stem with
  | [] => True
  | _ :: t => starts_with old (stem ++ b) = false /\ none_from old t b
  end.

Lemma contains_app_false old (stem b : str) :
  none_from old stem b -> contains old b = false ->
  contains old (stem ++ b) = false.
Proof.
  induction stem as [|c stem IH]; intros H Hb; auto.
  destruct H as [Hs Ht]. cbn [app contains]. cbn [app] in Hs.
  rewrite Hs; simpl; auto.
Qed.

(** A pattern whose first character occurs nowhere else in it cannot run
    over a seam that begins with that character. *)
Lemma none_from_marker (x : ascii) (old' stem b' : str) :
  ~ In x old' -> contains (x :: old') stem = false ->
  none_from (x :: old') stem (x :: b').
Proof.
  intros Hx; induction stem as [|c stem IH]; intros H; simpl; auto.
  apply contains_cons_false in H as [Hs Hc].
  split; auto.
  destruct (starts_with (x :: old') (c :: stem ++ x :: b')) eqn:E; auto.
  change (c :: stem ++ x :: b') with ((c :: stem) ++ x :: b') in E.
  apply starts_with_seam in E as [E | [q [Hq [Hne E]]]]; [congruence|].
  exfalso. destruct q as [|y q]; [congruence|].
  simpl in E. apply andb_true_iff in E as [E _].
  apply Ascii.eqb_eq in E; subst y.
  injection Hq as -> Hq. apply Hx. rewrite Hq. apply in_or_app; right; left; auto.
Qed.

Lemma occurs_app_l (kw a b : str) : occurs kw a -> occurs kw (a ++ b).
Proof.
  intros [pre [post ->]]. exists pre, (post ++ b).
  rewrite <- !app_assoc; reflexivity.
Qed.

Lemma occurs_app_r (kw a b : str) : occurs kw b -> occurs kw (a ++ b).
Proof.
  intros [pre [post ->]]. exists (a ++ pre), post.
  rewrite <- !app_assoc; reflexivity.
Qed.

Lemma contains_app_parts (kw a b : str) :
  contains kw (a ++ b) = false ->
  contains kw a = false /\ contains kw b = false.
Proof.
  rewrite !contains_false_iff. intros H; split; intros O; apply H.
  - apply occurs_app_l; exact O.
  - apply occurs_app_r; exact O.
Qed.

Lemma replace_skip old new (x b : str) :
  replace_aux old new (List.length x) (x ++ b) = replace_aux old new 0 b.
Proof. induction x as [|c x IH]; simpl; auto. Qed.

(** The leftmost occurrence is replaced and the scan goes on after it. *)
Lemma replace_middle old new (a b : str) :
  old <> [] -> none_from old a (old ++ b) ->
  replace old new (a ++ old ++ b) = a ++ new ++ replace old new b.
Proof.
  unfold replace; intros Hold; induction a as [|c a IH]; intros H.
  - destruct old as [|x old]; [congruence|].
    cbn [app replace_aux].
    assert (Hs : starts_with (x :: old) (x :: old ++ b) = true)
      by (apply (starts_with_app (x :: old) b)).
    rewrite Hs.
    replace (List.length (x :: old) - 1) with (List.length old)
      by (simpl; lia).
    rewrite replace_skip. reflexivity.
  - destruct H as [Hs Ht].
    cbn [app replace_aux]. cbn [app] in Hs. rewrite Hs.
    rewrite IH; auto.
Qed.

(** *** [strip] *)

Lemma drop_while_app_all f (a b : str) :
  forallb f a = true -> drop_while f (a ++ b) = drop_while f b.
Proof.
  induction a as [|c a IH]; simpl; auto.
  intros H; apply andb_true_iff in H as [Hc Ha]; rewrite Hc; auto.
Qed.

Lemma take_while_app_all f (a b : str) :
  forallb f a = true -> take_while f (a ++ b) = a ++ take_while f b.
Proof.
  induction a as [|c a IH]; simpl; auto.
  intros H; apply andb_true_iff in H as [Hc Ha]; rewrite Hc; f_equal; auto.
Qed.

Lemma drop_while_idem f (s : str) :
  drop_while f (drop_while f s) = drop_while f s.
Proof.
  induction s as [|c s IH]; simpl; auto.
  destruct (f c) eqn:E; auto. simpl; rewrite E; reflexivity.
Qed.

Lemma strip_lstrip (s : str) : strip (lstrip s) = strip s.
Proof. unfold strip, lstrip; rewrite drop_while_idem; reflexivity. Qed.

End StrFacts.

Module StripFacts.
Import StrFacts.

Lemma drop_while_app f (a b : str) :
  drop_while f (a ++ b)
  = match drop_while f a with
    | [] => drop_while f b
    | r => r ++ b
    end.
Proof.
  induction a as [|c a IH]; simpl; [destruct (drop_while f b); reflexivity|].
  destruct (f c); auto.
Qed.

Lemma take_drop_while f (s : str) : s = take_while f s ++ drop_while f s.
Proof.
  induction s as [|c s IH]; simpl; auto.
  destruct (f c); simpl; congruence.
Qed.

Lemma take_while_all f (s : str) : forallb f (take_while f s) = true.
Proof.
  induction s as [|c s IH]; simpl; auto.
  destruct (f c) eqn:E; simpl; auto. rewrite E; auto.
Qed.

Lemma drop_while_head f (s : str) c r : drop_while f s = c :: r -> f c = false.
Proof.
  induction s as [|x s IH]; simpl; [discriminate|].
  destruct (f x) eqn:E; auto. intros [= <- _]; exact E.
Qed.

(** [rstrip] by recursion on the string. *)
Lemma rstrip_cons c (s : str) :
  rstrip (c :: s)
  = match rstrip s with
    | [] => if is_space c then [] else [c]
    | r => c :: r
    end.
Proof.
  unfold rstrip; cbn [rev]. rewrite drop_while_app.
  destruct (drop_while is_space (rev s)) as [|x r] eqn:E.
  - simpl. destruct (is_space c); reflexivity.
  - cbn [rev]. rewrite rev_app_distr. cbn [rev app].
    destruct (rev r ++ [x]) eqn:F; [destruct (rev r); discriminate|].
    reflexivity.
Qed.

(** [rstrip s] is [s] without a final run of blanks. *)
Lemma rstrip_prefix (s : str) :
  exists t, s = rstrip s ++ t /\ forallb is_space t = true.
Proof.
  induction s as [|c s [t [Hs Ht]]].
  - exists []; auto.
  - rewrite rstrip_cons. destruct (rstrip s) as [|x r] eqn:E.
    + destruct (is_space c) eqn:Ec.
      * exists (c :: s); split; auto. simpl. rewrite Ec.
        simpl in Hs; rewrite Hs; exact Ht.
      * exists t; split; auto. simpl in *; congruence.
    + exists t; split; auto. simpl in *; congruence.
Qed.

Lemma rstrip_head c (s : str) :
  is_space c = false -> exists r, rstrip (c :: s) = c :: r.
Proof.
  intros H; rewrite rstrip_cons. destruct (rstrip s); rewrite ?H; eauto.
Qed.

Lemma rstrip_last (s r : str) c : rstrip s = r ++ [c] -> is_space c = false.
Proof.
  unfold rstrip. intros H.
  assert (E : drop_while is_space (rev s) = c :: rev r).
  { rewrite <- (rev_involutive (drop_while _ _)), H, rev_app_distr.
    reflexivity. }
  eapply drop_while_head; exact E.
Qed.

Lemma rstrip_fixed (r : str) c : is_space c = false -> rstrip (r ++ [c]) = r ++ [c].
Proof.
  intros H; unfold rstrip. rewrite rev_app_distr; simpl. rewrite H.
  simpl. rewrite rev_involutive; reflexivity.
Qed.

Lemma lstrip_head (s r : str) c : lstrip s = c :: r -> is_space c = false.
Proof. apply drop_while_head. Qed.

Lemma lstrip_fixed c (r : str) : is_space c = false -> lstrip (c :: r) = c :: r.
Proof. unfold lstrip; simpl; intros ->; reflexivity. Qed.

(** The result of [strip] is empty, or begins and ends with characters
    that are not blank. *)
Inductive trimmed : str -> Prop :=
| trimmed_nil : trimmed []
| trimmed_ends c1 mid c2 last :
    is_space c1 = false -> is_space c2 = false ->
    c1 :: mid = last ++ [c2] -> trimmed (c1 :: mid).

Lemma strip_trimmed (s : str) : trimmed (strip s).
Proof.
  unfold strip. destruct (lstrip s) as [|c r] eqn:E; [constructor|].
  assert (Hc : is_space c = false) by (eapply lstrip_head; exact E).
  destruct (rstrip_head c r Hc) as [r' Hr]. rewrite Hr.
  destruct (@exists_last _ (c :: r') ltac:(discriminate)) as [l [x Hl]].
  apply (trimmed_ends c r' x l); auto.
  apply (rstrip_last (c :: r) l x). rewrite Hr; exact Hl.
Qed.

Lemma trimmed_strip (s : str) : trimmed s -> strip s = s.
Proof.
  intros [|c1 mid c2 l H1 H2 E]; [reflexivity|].
  unfold strip. rewrite lstrip_fixed by assumption.
  rewrite E. apply rstrip_fixed; assumption.
Qed.

Lemma strip_idem (s : str) : strip (strip s) = strip s.
Proof. apply trimmed_strip, strip_trimmed. Qed.

(** [strip s] is a segment of [s]. *)
Lemma strip_segment (s : str) : exists l r, s = l ++ strip s ++ r.
Proof.
  unfold strip. destruct (rstrip_prefix (lstrip s)) as [t [Ht _]].
  exists (take_while is_space s), t.
  rewrite <- Ht. apply take_drop_while.
Qed.

End StripFacts.

Module CleanFilenameProofs.
Import UniversalMetadataHandler StrFacts.

(** The three document types whose extension is removed. *)
Definition extensions : list str := map lit [".docx"; ".pdf"; ".txt"]%string.

Definition extension_free (name : str) : Prop :=
  forall e, In e extensions -> contains e name = false.

Lemma extension_free_parts (a b : str) :
  extension_free (a ++ b) -> extension_free a /\ extension_free b.
Proof.
  intros H; split; intros e He; apply (contains_app_parts e a b), H, He.
Qed.

(** No occurrence of an extension text begins before an occurrence of
    another one and runs into it: the full stop is only its first
    character. *)
Ltac dot_seam :=
  match goal with
  | |- none_from (lit ?e) _ (lit ?x ++ ?b) =>
      apply (none_from_marker "."%char (tl (lit e)) _ (tl (lit x) ++ b));
      [ cbv; intuition discriminate
      | match goal with H : contains (lit e) _ = false |- _ => exact H end ]
  end.

(** An extension text is not found where another one stands. *)
Ltac other_extension :=
  match goal with
  | Hb : contains (lit ?e) ?b = false
    |- contains (lit ?e) (_ ++ lit ?x ++ ?b) = false =>
      apply contains_app_false; [dot_seam | simpl; exact Hb]
  end.

Lemma extensions_removed (a b ext : str) :
  In ext extensions -> extension_free (a ++ b) ->
  replace (lit ".txt") []
    (replace (lit ".pdf") [] (replace (lit ".docx") [] (a ++ ext ++ b)))
  = a ++ b.
Proof.
  intros Hext Hfree.
  destruct (extension_free_parts a b Hfree) as [Ha Hb].
  assert (Hd : contains (lit ".docx") a = false) by (apply Ha; cbv; auto).
  assert (Hp : contains (lit ".pdf") a = false) by (apply Ha; cbv; auto).
  assert (Ht : contains (lit ".txt") a = false) by (apply Ha; cbv; auto 6).
  assert (Hd' : contains (lit ".docx") b = false) by (apply Hb; cbv; auto).
  assert (Hp' : contains (lit ".pdf") b = false) by (apply Hb; cbv; auto).
  assert (Ht' : contains (lit ".txt") b = false) by (apply Hb; cbv; auto 6).
  assert (Fd : contains (lit ".docx") (a ++ b) = false)
    by (apply Hfree; cbv; auto).
  assert (Fp : contains (lit ".pdf") (a ++ b) = false)
    by (apply Hfree; cbv; auto).
  assert (Ft : contains (lit ".txt") (a ++ b) = false)
    by (apply Hfree; cbv; auto 6).
  destruct Hext as [<- | [<- | [<- | []]]].
  - rewrite replace_middle with (old := lit ".docx");
      [| discriminate | dot_seam].
    cbn [app]. rewrite (replace_absent (lit ".docx") [] b Hd').
    rewrite (replace_absent (lit ".pdf") [] (a ++ b) Fp).
    apply replace_absent; exact Ft.
  - rewrite (replace_absent (lit ".docx")) by other_extension.
    rewrite replace_middle with (old := lit ".pdf");
      [| discriminate | dot_seam].
    cbn [app]. rewrite (replace_absent (lit ".pdf") [] b Hp').
    apply replace_absent; exact Ft.
  - rewrite (replace_absent (lit ".docx")) by other_extension.
    rewrite (replace_absent (lit ".pdf")) by other_extension.
    rewrite replace_middle with (old := lit ".txt");
      [| discriminate | dot_seam].
    cbn [app]. rewrite (replace_absent (lit ".txt") [] b Ht').
    reflexivity.
Qed.

Lemma strip_ordinal_prefix (digits blanks rest : str) :
  digits <> [] -> forallb is_digit digits = true ->
  forallb is_space blanks = true ->
  strip_ordinal (digits ++ "."%char :: blanks ++ rest) = lstrip rest.
Proof.
  intros Hne Hd Hb. unfold strip_ordinal.
  rewrite take_while_app_all, drop_while_app_all by assumption.
  cbn [take_while drop_while]. change (is_digit "."%char) with false. cbv iota.
  rewrite app_nil_r.
  destruct digits as [|d digits]; [congruence|].
  rewrite Ascii.eqb_refl. apply drop_while_app_all; assumption.
Qed.

(** An extension text is removed wherever it stands, when nothing else in
    the name looks like one. *)
Lemma clean_filename_without (a b ext : str) :
  In ext extensions -> extension_free (a ++ b) ->
  extract_clean_filename (a ++ ext ++ b) = strip (strip_ordinal (a ++ b)).
Proof.
  intros Hext Hfree. unfold extract_clean_filename.
  rewrite extensions_removed; auto.
Qed.

Lemma clean_filename_without_extension (name : str) :
  extension_free name ->
  extract_clean_filename name = strip (strip_ordinal name).
Proof.
  intros Hfree. unfold extract_clean_filename.
  rewrite replace_absent with (old := lit ".docx") by (apply Hfree; cbv; auto).
  rewrite replace_absent with (old := lit ".pdf") by (apply Hfree; cbv; auto).
  rewrite replace_absent with (old := lit ".txt") by (apply Hfree; cbv; auto 6).
  reflexivity.
Qed.

Lemma strip_ordinal_no_digit c (rest : str) :
  is_digit c = false -> strip_ordinal (c :: rest) = c :: rest.
Proof. unfold strip_ordinal; cbn [take_while]; intros ->; reflexivity. Qed.

(** The ordinal at work: the blanks after the full stop are optional, the
    full stop is not.  Each extension text is removed in one pass, so that
    what a removal brings together stays. *)
Example extract_clean_filename_examples :
  extract_clean_filename (lit "7.Capability Matrix.docx")
  = lit "Capability Matrix"
  /\ extract_clean_filename (lit "2024 Plan.txt") = lit "2024 Plan"
  /\ extract_clean_filename (lit " notes.pdf ") = lit "notes"
  /\ extract_clean_filename (lit "a.p.pdfdf") = lit "a.pdf".
Proof. repeat split. Qed.

(** C9, as the code has it.  Let [stem] be a name in which none of the
    texts .docx, .pdf, .txt occurs.  With one of them put anywhere into it,
    at its end in particular, or with none, the name is cleaned to [stem]
    without its ordinal prefix, trimmed: the extension text goes first, then
    the ordinal, then the surrounding blanks.  The ordinal prefix is a run
    of digits, a full stop and the blanks after it, if any; a name that
    does not begin with a digit has none. *)
Theorem extract_clean_filename_correct (stem : str) :
  extension_free stem ->
  (forall a b ext,
     stem = a ++ b -> In ext extensions ->
     extract_clean_filename (a ++ ext ++ b) = strip (strip_ordinal stem))
  /\ (forall ext, In ext extensions ->
        extract_clean_filename (stem ++ ext) = strip (strip_ordinal stem))
  /\ extract_clean_filename stem = strip (strip_ordinal stem)
  /\ (forall digits blanks title,
        digits <> [] ->
        forallb is_digit digits = true ->
        forallb is_space blanks = true ->
        stem = digits ++ "."%char :: blanks ++ title ->
        strip (strip_ordinal stem) = strip title)
  /\ (forall c rest,
        stem = c :: rest -> is_digit c = false -> strip_ordinal stem = stem).
Proof.
  intros Hfree. split; [|split; [|split; [|split]]].
  - intros a b ext -> Hext. apply clean_filename_without; assumption.
  - intros ext Hext.
    rewrite <- (app_nil_r (stem ++ ext)), <- app_assoc.
    rewrite clean_filename_without by (rewrite ?app_nil_r; assumption).
    rewrite app_nil_r; reflexivity.
  - apply clean_filename_without_extension; assumption.
  - intros digits blanks title Hne Hd Hb ->.
    rewrite strip_ordinal_prefix by assumption. apply strip_lstrip.
  - intros c rest -> Hc. apply strip_ordinal_no_digit; exact Hc.
Qed.

(** The example of the specification:
    [extract_clean_filename "12. Leadership Basics.pdf" = "Leadership Basics"]. *)
Lemma extract_clean_filename_example :
  extract_clean_filename (lit "12. Leadership Basics.pdf")
  = lit "Leadership Basics".
Proof.
  assert (Hfree : extension_free (lit "12. Leadership Basics"))
    by (intros e [<- | [<- | [<- | []]]]; vm_compute; reflexivity).
  destruct (extract_clean_filename_correct (lit "12. Leadership Basics") Hfree)
    as [_ [Hext [_ [Hordinal _]]]].
  change (lit "12. Leadership Basics.pdf")
    with (lit "12. Leadership Basics" ++ lit ".pdf").
  rewrite Hext by (right; left; reflexivity).
  apply (Hordinal (lit "12") (lit " ") (lit "Leadership Basics"));
    [discriminate | reflexivity | reflexivity | reflexivity].
Defined.

(** [s.endswith(e)] *)
Definition ends_with (e s : str) : bool := starts_with (rev e) (rev s).

(** A name that ends with none of the three extensions, has no ordinal and
    no blanks around it, and is changed all the same: the extension text
    inside it is removed.  And a name whose ordinal has no blank after the
    full stop. *)
Lemma extension_removed_inside :
  (let name := lit "slides.pdf.backup" in
   forallb (fun e => negb (ends_with e name)) extensions = true
   /\ strip_ordinal name = name
   /\ strip name = name
   /\ extract_clean_filename name = lit "slides.backup")
  /\ extract_clean_filename (lit "7.Capability Matrix.docx")
     = lit "Capability Matrix".
Proof. cbv zeta. repeat split. Qed.

End CleanFilenameProofs.

Module HistoryFormatterProofs.
Import ProfileAwareRAGSystem StrFacts.

(** The two lines an exchange is rendered as. *)
Definition rendered (t : Turn) : list str :=
  [ lit "User: " ++ turn_question t;
    lit "Assistant: " ++ firstn 200 (turn_answer t) ++ lit "..." ].

Lemma format_exchanges_flat_map (formatted : list str) (l : list Turn) :
  format_exchanges formatted l = formatted ++ flat_map rendered l.
Proof.
  revert formatted; induction l as [|t l IH]; intros formatted; simpl.
  - symmetry; apply app_nil_r.
  - rewrite IH, <- !app_assoc; reflexivity.
Qed.

(** The last [n] elements of a list, given as a split of the list. *)
Lemma slice_last_split {A} (n : nat) (older window : list A) :
  List.length window = Nat.min n (List.length (older ++ window)) ->
  slice_last n (older ++ window) = window.
Proof.
  intros H. unfold slice_last.
  rewrite length_app in *.
  replace (List.length older + List.length window - n)
    with (List.length older + 0) by lia.
  rewrite skipn_app, Nat.add_0_r, skipn_all.
  replace (List.length older - List.length older) with 0 by lia.
  reflexivity.
Qed.

(** C8.  An empty history is rendered as the fixed placeholder.  Any other
    history is rendered from its last ten turns only ([window], all of the
    history when it is shorter), in their order, each as a line
    [User: <question>] and a line [Assistant: <the first 200 characters of
    the answer>...], the lines joined by newlines. *)
Theorem format_conversation_history_correct
    (history older window : list Turn) :
  history = older ++ window ->
  List.length window = Nat.min 10 (List.length history) ->
  _format_conversation_history history
  = match history with
    | [] => lit "No previous conversation."
    | _ :: _ => join [NL] (flat_map rendered window)
    end.
Proof.
  intros -> Hlen. unfold _format_conversation_history.
  destruct (older ++ window) as [|t rest] eqn:E; [reflexivity|].
  rewrite <- E in *. rewrite slice_last_split by assumption.
  apply (f_equal (join [NL])), (format_exchanges_flat_map [] window).
Qed.

Definition turn_of (n : nat) : Turn :=
  {| turn_question := lit "q" ++ str_of_nat n;
     turn_answer := repeat "a"%char (199 + n);
     turn_timestamp := [] |}.

(** Twelve turns with answers of 200 to 211 characters: the first two are
    left out and every answer is cut to 200 characters. *)
Lemma format_conversation_history_twelve_turns :
  _format_conversation_history (map turn_of (seq 1 12))
  = join [NL]
      (flat_map
         (fun n => [ lit "User: q" ++ str_of_nat n;
                     lit "Assistant: " ++ repeat "a"%char 200 ++ lit "..." ])
         (seq 3 10)).
Proof.
  rewrite (format_conversation_history_correct
             (map turn_of (seq 1 12))
             (map turn_of (seq 1 2)) (map turn_of (seq 3 10)));
    reflexivity.
Defined.

End HistoryFormatterProofs.

Module SourceReferenceProofs.
Import ProfileAwareRAGSystem StrFacts.

Lemma truthy_int_iff (o : option Z) :
  truthy_int o = true <-> exists n, o = Some n /\ n <> 0%Z.
Proof.
  destruct o as [n|]; simpl.
  - rewrite negb_true_iff, Z.eqb_neq; split.
    + eauto.
    + intros [m [[= ->] H]]; exact H.
  - split; [discriminate | intros [n [[=] _]]].
Qed.

(** A document carries a usable folder when [parent_folder] is present, not
    empty and not the ingestion bucket. *)
Definition has_folder (d : Document) : Prop :=
  exists folder,
    parent_folder (metadata d) = Some folder
    /\ folder <> [] /\ folder <> lit "lms_content".

Definition has_session (d : Document) : Prop :=
  exists n, session_number (metadata d) = Some n /\ n <> 0%Z.

Lemma folder_test_iff (d : Document) :
  let folder := get_default (parent_folder (metadata d)) [] in
  nonempty folder && negb (str_eqb folder (lit "lms_content")) = true
  <-> has_folder d.
Proof.
  unfold has_folder; cbv zeta.
  rewrite andb_true_iff, negb_true_iff.
  destruct (parent_folder (metadata d)) as [f|]; simpl; split.
  - intros [Hne Hlms]. exists f; repeat split.
    + destruct f; [discriminate | discriminate].
    + intros ->. vm_compute in Hlms. discriminate.
  - intros [g [[= <-] [Hne Hlms]]]; split.
    + destruct f; [exfalso; apply Hne; reflexivity | reflexivity].
    + destruct (str_eqb f (lit "lms_content")) eqn:E; auto.
      apply str_eqb_eq in E; exfalso; apply Hlms; exact E.
  - intros [[=] _].
  - intros [g [[=] _]].
Qed.

Lemma reference_kind (d : Document) :
  type (get_source_reference d)
  = Some (if truthy_int (session_number (metadata d)) then session
          else if nonempty (get_default (parent_folder (metadata d)) [])
                  && negb (str_eqb (get_default (parent_folder (metadata d)) [])
                                   (lit "lms_content"))
               then folder_content else general).
Proof.
  unfold get_source_reference.
  destruct (truthy_int _); [reflexivity|].
  destruct (_ && _); destruct (mentions_any _ _); reflexivity.
Qed.

Lemma reference_text_present (d : Document) :
  exists text, reference_text (get_source_reference d) = Some text.
Proof.
  unfold get_source_reference.
  destruct (truthy_int _); [eexists; reflexivity|].
  destruct (_ && _); destruct (mentions_any _ _); eexists; reflexivity.
Qed.

(** C6.  The primary reference is absent for an empty list and is
    otherwise the reference text of the first document alone, which always
    exists.  The kind of a reference is decided in the order session,
    folder, general.  A first document of session 3 without a facilitator
    is cited by the fixed sentence of the specification. *)
Theorem primary_source_reference_correct :
  _get_primary_source_reference [] = None
  /\ (forall d rest,
        _get_primary_source_reference (d :: rest)
        = reference_text (get_source_reference d)
        /\ exists text, _get_primary_source_reference (d :: rest) = Some text)
  /\ (forall d, has_session d -> type (get_source_reference d) = Some session)
  /\ (forall d, ~ has_session d -> has_folder d ->
        type (get_source_reference d) = Some folder_content)
  /\ (forall d, ~ has_session d -> ~ has_folder d ->
        type (get_source_reference d) = Some general)
  /\ (forall d rest,
        session_number (metadata d) = Some 3%Z ->
        truthy_str (facilitator (metadata d)) = false ->
        _get_primary_source_reference (d :: rest)
        = Some (lit "For more details, refer to **Session 3** videos and documentation (PPT/PDF).")).
Proof.
  split; [reflexivity|].
  split; [intros d rest; split; [reflexivity | apply reference_text_present]|].
  split; [|split; [|split]].
  - intros d H. apply truthy_int_iff in H.
    rewrite reference_kind, H; reflexivity.
  - intros d Hs Hf. rewrite reference_kind.
    destruct (truthy_int _) eqn:E; [apply truthy_int_iff in E; contradiction|].
    apply folder_test_iff in Hf. cbv zeta in Hf. rewrite Hf; reflexivity.
  - intros d Hs Hf. rewrite reference_kind.
    destruct (truthy_int _) eqn:E; [apply truthy_int_iff in E; contradiction|].
    destruct (_ && _) eqn:F; [|reflexivity].
    exfalso; apply Hf, folder_test_iff; exact F.
  - intros d rest Hs Hf. simpl. unfold get_source_reference.
    rewrite Hs, Hf. reflexivity.
Qed.

(** A chunk of session 3 with no facilitator, and a chunk filed under a
    folder. *)
Definition session3_doc : Document :=
  {| page_content := lit "4T Management: Target, Time, Team, Theme";
     metadata :=
       {| source_file := Some (lit "3. Management.pdf");
          parent_folder := Some (lit "Sessions");
          session_number := Some 3%Z;
          session_title := None; facilitator := None |} |}.

Definition folder_doc : Document :=
  {| page_content := lit "Capability matrix";
     metadata :=
       {| source_file := Some (lit "7. Capability Matrix.docx");
          parent_folder := Some (lit "Frameworks");
          session_number := None;
          session_title := None; facilitator := None |} |}.

(** Only the first document counts, and its session wins over its folder. *)
Lemma primary_source_reference_session3 :
  _get_primary_source_reference [session3_doc; folder_doc]
  = Some (lit "For more details, refer to **Session 3** videos and documentation (PPT/PDF).")
  /\ type (get_source_reference session3_doc) = Some session
  /\ type (get_source_reference folder_doc) = Some folder_content.
Proof.
  destruct primary_source_reference_correct
    as [_ [_ [Hsession [Hfolder [_ Hthree]]]]].
  split; [apply Hthree; reflexivity|].
  split.
  - apply Hsession. exists 3%Z; split; [reflexivity | discriminate].
  - apply Hfolder.
    + intros [n [H _]]; discriminate H.
    + exists (lit "Frameworks"); repeat split; discriminate.
Defined.

End SourceReferenceProofs.

Module DetectorProofs.
Import ProfileDetector StrFacts StripFacts.

(** *** The keyword table *)

(** [kw] is the first keyword of [kws] that occurs in [s]. *)
Definition first_occurring (kws : list str) (kw s : str) : Prop :=
  exists earlier later,
    kws = earlier ++ kw :: later
    /\ (forall kw', In kw' earlier -> ~ occurs kw' s)
    /\ occurs kw s.

Definition none_occurs (kws : list str) (s : str) : Prop :=
  forall kw, In kw kws -> ~ occurs kw s.

(** The entry [(p, kws)] is the first of the table with a keyword occurring
    in [s], and [kw] is the first such keyword of the entry. *)
Definition keyword_hit (table : list (ProfileName * list str))
    (s : str) (p : ProfileName) (kw : str) : Prop :=
  exists before kws after,
    table = before ++ (p, kws) :: after
    /\ (forall e, In e before -> none_occurs (snd e) s)
    /\ first_occurring kws kw s.

Definition no_keyword (table : list (ProfileName * list str)) (s : str)
    : Prop :=
  forall e, In e table -> none_occurs (snd e) s.

Lemma find_keyword_some (kws : list str) (s kw : str) :
  find (fun k => contains k s) kws = Some kw <-> first_occurring kws kw s.
Proof.
  unfold first_occurring; induction kws as [|k kws IH]; simpl.
  - split; [discriminate|]. intros [[|? ?] [? [H _]]]; discriminate.
  - destruct (contains k s) eqn:E; split.
    + intros [= <-]. exists [], kws; repeat split; [intros ? [] |].
      apply contains_iff; exact E.
    + intros [[|k' earlier] [later [H [Hno Hocc]]]].
      * injection H as -> _; reflexivity.
      * injection H as <- _. exfalso.
        apply (Hno k); [left; reflexivity | apply contains_iff; exact E].
    + intros H; apply IH in H as [earlier [later [-> [Hno Hocc]]]].
      exists (k :: earlier), later; repeat split; auto.
      intros kw' [<- | Hin]; [apply contains_false_iff; exact E | auto].
    + intros [[|k' earlier] [later [H [Hno Hocc]]]].
      * injection H as <- _. apply contains_iff in Hocc; congruence.
      * injection H as <- ->. apply IH.
        exists earlier, later; repeat split; auto.
        intros kw' Hin; apply Hno; right; exact Hin.
Qed.

Lemma find_keyword_none (kws : list str) (s : str) :
  find (fun k => contains k s) kws = None <-> none_occurs kws s.
Proof.
  unfold none_occurs; induction kws as [|k kws IH]; simpl.
  - split; [intros _ ? [] | reflexivity].
  - destruct (contains k s) eqn:E; split.
    + discriminate.
    + intros H; exfalso. apply (H k); [left; reflexivity|].
      apply contains_iff; exact E.
    + intros H kw [<- | Hin]; [apply contains_false_iff; exact E|].
      apply IH; assumption.
    + intros H; apply IH; intros kw Hin; apply H; right; exact Hin.
Qed.

Definition named (p : ProfileName) (kw : str) : ProfileInfo :=
  {| profile := p; custom_profile := None;
     confidence := high; detected_keyword := kw |}.

Lemma scan_keywords_hit table (s : str) (p : ProfileName) (kw : str) :
  keyword_hit table s p kw -> scan_keywords table s = Some (named p kw).
Proof.
  intros [before [kws [after [-> [Hno Hfirst]]]]].
  induction before as [|[p' kws'] before IH]; simpl.
  - apply find_keyword_some in Hfirst; rewrite Hfirst; reflexivity.
  - assert (H : find (fun k => contains k s) kws' = None).
    { apply find_keyword_none. apply (Hno (p', kws')). left; reflexivity. }
    rewrite H. apply IH. intros e He; apply Hno; right; exact He.
Qed.

Lemma scan_keywords_none table (s : str) :
  scan_keywords table s = None <-> no_keyword table s.
Proof.
  unfold no_keyword; induction table as [|[p kws] table IH]; simpl.
  - split; [intros _ ? [] | reflexivity].
  - destruct (find _ kws) as [kw|] eqn:E; split.
    + discriminate.
    + intros H. assert (Hn : find (fun k => contains k s) kws = None).
      { apply find_keyword_none. apply (H (p, kws)). left; reflexivity. }
      congruence.
    + intros H e [<- | He]; [apply find_keyword_none; exact E|].
      apply IH; assumption.
    + intros H. apply IH. intros e He; apply H; right; exact He.
Qed.

Lemma scan_keywords_cases table (s : str) :
  (exists p kw, keyword_hit table s p kw) \/ no_keyword table s.
Proof.
  induction table as [|[p kws] table IH].
  - right; intros ? [].
  - destruct (find (fun k => contains k s) kws) as [kw|] eqn:E.
    + left; exists p, kw, [], kws, table; repeat split; [intros ? []|].
      apply find_keyword_some; exact E.
    + apply find_keyword_none in E.
      destruct IH as [[p' [kw [before [kws' [after [-> [Hno Hf]]]]]]] | Hnone].
      * left; exists p', kw, ((p, kws) :: before), kws', after.
        repeat split; auto. intros e [<- | He]; auto.
      * right; intros e [<- | He]; auto.
Qed.

(** *** What the regular expressions match *)

Lemma starts_with_common (l p s : str) :
  starts_with (l ++ p) (l ++ s) = starts_with p s.
Proof.
  induction l as [|c l IH]; simpl; auto.
  rewrite Ascii.eqb_refl; exact IH.
Qed.

Lemma skipn_common (l s : str) : skipn (List.length l) (l ++ s) = s.
Proof. induction l; simpl; auto. Qed.

Lemma take_while_stop f (g rest : str) :
  forallb f g = true ->
  match rest with [] => True | c :: _ => f c = false end ->
  take_while f (g ++ rest) = g.
Proof.
  intros Hg Hr. rewrite take_while_app_all by exact Hg.
  destruct rest as [|c rest]; simpl; [apply app_nil_r|].
  rewrite Hr; apply app_nil_r.
Qed.

Lemma drop_while_stop f (s : str) :
  match drop_while f s with [] => True | c :: _ => f c = false end.
Proof.
  induction s as [|c s IH]; simpl; auto.
  destruct (f c) eqn:E; auto.
Qed.

(** [s] reads: the lead, the article, a space, a non-empty run [g] of
    [[a-z\s]] that cannot be made longer, and anything. *)
Definition reads (lead article g s : str) : Prop :=
  exists rest,
    s = lead ++ article ++ lit " " ++ g ++ rest
    /\ g <> [] /\ forallb profession_char g = true
    /\ match rest with [] => True | c :: _ => profession_char c = false end.

Lemma pattern_with_article_spec (lead article s g : str) :
  pattern_with_article lead article s = Some g <-> reads lead article g s.
Proof.
  unfold pattern_with_article, reads; cbv zeta; split.
  - destruct (starts_with _ s) eqn:E; [|discriminate].
    apply starts_with_iff in E as [t ->].
    rewrite skipn_common.
    destruct (take_while profession_char t) as [|c g'] eqn:G; [discriminate|].
    intros [= <-]. exists (drop_while profession_char t).
    rewrite <- G. repeat split.
    + rewrite <- !app_assoc. do 3 f_equal. apply take_drop_while.
    + rewrite G; discriminate.
    + apply take_while_all.
    + apply drop_while_stop.
  - intros [rest [-> [Hne [Hg Hrest]]]].
    replace (lead ++ article ++ lit " " ++ g ++ rest)
      with ((lead ++ article ++ lit " ") ++ g ++ rest)
      by (rewrite <- !app_assoc; reflexivity).
    rewrite starts_with_app, skipn_common, take_while_stop by assumption.
    destruct g; [congruence | reflexivity].
Qed.

(** [i am (?:a|an) ([a-z\s]+)] and its three siblings, anchored: the text
    reads with the article [a] or with the article [an]. *)
Lemma pattern_at_spec (lead s g : str) :
  pattern_at lead s = Some g
  <-> reads lead (lit "a") g s \/ reads lead (lit "an") g s.
Proof.
  unfold pattern_at.
  destruct (pattern_with_article lead (lit "a") s) as [g'|] eqn:A.
  - apply pattern_with_article_spec in A. split.
    + intros [= <-]; auto.
    + intros [H | H].
      * apply pattern_with_article_spec in H.
        apply pattern_with_article_spec in A. congruence.
      * exfalso. destruct A as [r1 [E1 _]]. destruct H as [r2 [E2 _]].
        rewrite E1 in E2. apply app_inv_head in E2. discriminate E2.
  - rewrite pattern_with_article_spec. split; auto.
    intros [H | H]; auto.
    apply pattern_with_article_spec in H; congruence.
Qed.

(** [re.search]: [s] is cut at the first place where the pattern matches. *)
Lemma search_profession_spec (lead s g : str) :
  search_profession lead s = Some g
  <-> exists pre rest,
        s = pre ++ rest /\ pattern_at lead rest = Some g
        /\ forall p q, pre = p ++ q -> q <> [] ->
             pattern_at lead (q ++ rest) = None.
Proof.
  induction s as [|c s IH]; cbn [search_profession].
  - destruct (pattern_at lead []) as [g'|] eqn:A; split.
    + intros [= <-]. exists [], []; repeat split; auto.
      intros [|? ?] [|? ?]; simpl; congruence.
    + intros [[|? ?] [[|? ?] [E [H _]]]]; try discriminate E. congruence.
    + discriminate.
    + intros [[|? ?] [[|? ?] [E [H _]]]]; try discriminate E. congruence.
  - destruct (pattern_at lead (c :: s)) as [g'|] eqn:A; split.
    + intros [= <-]. exists [], (c :: s); repeat split; auto.
      intros [|? ?] [|? ?]; simpl; congruence.
    + intros [[|x pre] [rest [E [H Hmin]]]].
      * simpl in E; subst rest; congruence.
      * specialize (Hmin [] (x :: pre) eq_refl ltac:(discriminate)).
        rewrite <- E in Hmin. congruence.
    + intros H; apply IH in H as [pre [rest [-> [H Hmin]]]].
      exists (c :: pre), rest; repeat split; auto.
      intros [|x p] q E Hq.
      * simpl in E; subst q. exact A.
      * injection E as Ec Ep. apply (Hmin p q Ep Hq).
    + intros [[|x pre] [rest [E [H Hmin]]]].
      * simpl in E; subst rest; congruence.
      * injection E as Ec Es. subst x s. apply IH.
        exists pre, rest; repeat split; auto.
        intros p q Ep Hq. apply (Hmin (c :: p) q); auto.
        rewrite Ep; reflexivity.
Qed.

(** The cut of [re.split]: what follows it, if anything, begins with blanks
    and a question word, and no such place comes earlier. *)
Lemma before_question_word_spec (s : str) :
  exists rest,
    s = before_question_word s ++ rest
    /\ (rest = [] \/ question_word_at rest = true)
    /\ forall p q, before_question_word s = p ++ q -> q <> [] ->
         question_word_at (q ++ rest) = false.
Proof.
  induction s as [|c s [rest [Hs [Hrest Hmin]]]]; cbn [before_question_word].
  - exists []; repeat split; auto.
    intros [|? ?] [|? ?]; simpl; congruence.
  - destruct (question_word_at (c :: s)) eqn:Q.
    + exists (c :: s); repeat split; auto.
      intros [|? ?] [|? ?]; simpl; congruence.
    + exists rest; repeat split; auto.
      * simpl; congruence.
      * intros [|x p] q E Hq.
        -- simpl in E; subst q. cbn [app]. rewrite <- Hs. exact Q.
        -- injection E as -> E. apply (Hmin p q); auto.
Qed.

(** [\s+(?:how|what|where|when|why|can|do)], anchored: blanks, then one of
    the words, whatever follows it. *)
Lemma question_word_at_spec (s : str) :
  question_word_at s = true
  <-> exists blanks w rest,
        s = blanks ++ w ++ rest
        /\ blanks <> [] /\ forallb is_space blanks = true
        /\ In w question_words.
Proof.
  unfold question_word_at; split.
  - destruct s as [|c s]; [discriminate|].
    intros H; apply andb_true_iff in H as [Hc H].
    apply existsb_exists in H as [w [Hw H]].
    apply starts_with_iff in H as [rest Hrest].
    exists (take_while is_space (c :: s)), w, rest. repeat split; auto.
    + rewrite <- Hrest. apply take_drop_while.
    + simpl; rewrite Hc; discriminate.
    + apply take_while_all.
  - intros [blanks [w [rest [-> [Hne [Hb Hw]]]]]].
    destruct blanks as [|b blanks]; [congruence|].
    cbn [app]. cbn [forallb] in Hb. apply andb_true_iff in Hb as [Hb1 Hb2].
    rewrite Hb1. cbn [andb]. apply existsb_exists. exists w; split; auto.
    change (b :: blanks ++ w ++ rest) with ((b :: blanks) ++ w ++ rest).
    rewrite drop_while_app_all by (cbn [forallb]; rewrite Hb1; exact Hb2).
    assert (Hhead : drop_while is_space (w ++ rest) = w ++ rest).
    { repeat (destruct Hw as [<- | Hw]; [reflexivity|]). destruct Hw. }
    rewrite Hhead. apply starts_with_app.
Qed.

(** The patterns at work.  The search is leftmost and group 1 runs to the
    first character outside [[a-z\s]]; the cut needs blanks before the
    question word but no word boundary after it. *)
Example search_profession_examples :
  search_profession (lit "i am ") (lit "well, i am an artist. ok")
  = Some (lit "artist")
  /\ search_profession (lit "as ") (lit "as a nurse how do i lead?")
     = Some (lit "nurse how do i lead")
  /\ search_profession (lit "i am ") (lit "i am a 5th grader") = None
  /\ search_profession (lit "working as ") (lit "i was a pilot") = None.
Proof. repeat split. Qed.

Example before_question_word_examples :
  before_question_word (lit "nurse how do i lead") = lit "nurse"
  /\ before_question_word (lit "staff nurse   what is 4t") = lit "staff nurse"
  /\ before_question_word (lit "proud canadian") = lit "proud"
  /\ before_question_word (lit "how to cook") = lit "how to cook".
Proof. repeat split. Qed.

(** *** The self-identification patterns *)

(** The test [profession and len(profession.split()) <= 3]. *)
Definition accepted (profession : str) : Prop :=
  profession <> [] /\ List.length (split_ws profession) <= 3.

(** The phrase a match proposes: group 1, trimmed, cut before the first
    run of blanks that is followed by one of the question words. *)
Definition phrase_of (group1 : str) : str :=
  before_question_word (strip group1).

(** The pattern with lead [lead] matches and its phrase passes the test. *)
Definition proposes (lead s profession : str) : Prop :=
  exists group1,
    search_profession lead s = Some group1
    /\ profession = phrase_of group1 /\ accepted profession.

(** The pattern does not match, or its phrase fails the test. *)
Definition silent (lead s : str) : Prop :=
  search_profession lead s = None
  \/ exists group1,
       search_profession lead s = Some group1 /\ ~ accepted (phrase_of group1).

(** [lead] is the first pattern, in order, that proposes a profession. *)
Definition first_proposal (leads : list str) (s profession : str) : Prop :=
  exists before lead after,
    leads = before ++ lead :: after
    /\ (forall l, In l before -> silent l s)
    /\ proposes lead s profession.

Definition no_proposal (leads : list str) (s : str) : Prop :=
  forall l, In l leads -> silent l s.

Lemma accepted_test (profession : str) :
  nonempty profession && (List.length (split_ws profession) <=? 3) = true
  <-> accepted profession.
Proof.
  unfold accepted; rewrite andb_true_iff, Nat.leb_le.
  destruct profession; simpl; intuition congruence.
Qed.

Lemma profession_of_some (lead s profession : str) :
  profession_of lead s = Some profession <-> proposes lead s profession.
Proof.
  unfold profession_of, proposes.
  destruct (search_profession lead s) as [g|]; split.
  - fold (phrase_of g).
    destruct (nonempty _ && _) eqn:E; [|discriminate].
    intros [= <-]. exists g; repeat split; apply accepted_test; exact E.
  - intros [g' [[= <-] [-> Hacc]]]. fold (phrase_of g).
    apply accepted_test in Hacc; rewrite Hacc; reflexivity.
  - discriminate.
  - intros [g [H _]]; discriminate.
Qed.

Lemma profession_of_none (lead s : str) :
  profession_of lead s = None <-> silent lead s.
Proof.
  unfold profession_of, silent.
  destruct (search_profession lead s) as [g|]; split; auto.
  - fold (phrase_of g). destruct (nonempty _ && _) eqn:E; [discriminate|].
    intros _; right; exists g; split; auto.
    intros H; apply accepted_test in H; congruence.
  - intros [H | [g' [[= <-] Hrej]]]; [discriminate|].
    fold (phrase_of g). destruct (nonempty _ && _) eqn:E; auto.
    apply accepted_test in E; contradiction.
Qed.

Definition custom_info (profession : str) : ProfileInfo :=
  {| profile := custom; custom_profile := Some profession;
     confidence := medium; detected_keyword := profession |}.

Lemma scan_patterns_first leads (s profession : str) :
  first_proposal leads s profession ->
  scan_patterns leads s = Some (custom_info profession).
Proof.
  intros [before [lead [after [-> [Hsil Hprop]]]]].
  induction before as [|l before IH]; simpl.
  - apply profession_of_some in Hprop; rewrite Hprop; reflexivity.
  - assert (H : profession_of l s = None).
    { apply profession_of_none, Hsil; left; reflexivity. }
    rewrite H; apply IH; intros l' Hl; apply Hsil; right; exact Hl.
Qed.

Lemma scan_patterns_none leads (s : str) :
  no_proposal leads s -> scan_patterns leads s = None.
Proof.
  unfold no_proposal; induction leads as [|l leads IH]; intros H; simpl; auto.
  assert (Hl : profession_of l s = None).
  { apply profession_of_none, H; left; reflexivity. }
  rewrite Hl; apply IH; intros l' Hin; apply H; right; exact Hin.
Qed.

Lemma scan_patterns_cases leads (s : str) :
  (exists profession, first_proposal leads s profession)
  \/ no_proposal leads s.
Proof.
  induction leads as [|l leads IH].
  - right; intros ? [].
  - destruct (profession_of l s) as [profession|] eqn:E.
    + left; exists profession, [], l, leads; repeat split; [intros ? []|].
      apply profession_of_some; exact E.
    + apply profession_of_none in E.
      destruct IH as [[profession [before [lead [after [-> [Hs Hp]]]]]] | Hn].
      * left; exists profession, (l :: before), lead, after.
        repeat split; auto. intros l' [<- | Hl]; auto.
      * right; intros l' [<- | Hl]; auto.
Qed.

(** C1, as the code has it.  On the lower-cased question: if a keyword of
    the table occurs, the result is the first entry of the table that has
    one, with confidence high and its first occurring keyword.  Otherwise
    the four patterns are tried in order; a pattern that does not match, or
    whose phrase is empty or longer than three words, is passed over, and
    the first pattern that proposes a phrase gives a custom profile with
    confidence medium.  Otherwise nothing is detected.  One of the three
    cases always applies. *)
Theorem detect_profile_correct (question : str) :
  let s := lower question in
  (forall p kw,
     keyword_hit PROFILE_KEYWORDS s p kw ->
     detect_profile question = Some (named p kw))
  /\ (forall profession,
        no_keyword PROFILE_KEYWORDS s ->
        first_proposal profession_patterns s profession ->
        detect_profile question = Some (custom_info profession))
  /\ (no_keyword PROFILE_KEYWORDS s ->
      no_proposal profession_patterns s ->
      detect_profile question = None)
  /\ ((exists p kw, keyword_hit PROFILE_KEYWORDS s p kw)
      \/ (no_keyword PROFILE_KEYWORDS s
          /\ ((exists profession,
                 first_proposal profession_patterns s profession)
              \/ no_proposal profession_patterns s))).
Proof.
  cbv zeta; unfold detect_profile. repeat split.
  - intros p kw H. rewrite scan_keywords_hit with (p := p) (kw := kw) by exact H.
    reflexivity.
  - intros profession Hno H. apply scan_keywords_none in Hno.
    rewrite Hno. apply scan_patterns_first; exact H.
  - intros Hno H. apply scan_keywords_none in Hno.
    rewrite Hno. apply scan_patterns_none; exact H.
  - destruct (scan_keywords_cases PROFILE_KEYWORDS (lower question)) as [H|H];
      [left; exact H | right; split; [exact H|]].
    apply scan_patterns_cases.
Qed.

(** The question of the specification: the first entry of the table with an
    occurring keyword is [hr_leader], by its first keyword, although
    [director] of a later entry occurs too. *)
Lemma detect_profile_hr_director :
  detect_profile (lit "I am the HR director for clinical staff")
  = Some (named hr_leader (lit "hr")).
Proof.
  destruct (detect_profile_correct
              (lit "I am the HR director for clinical staff")) as [H _].
  apply H.
  exists [ (doctor, map lit ["doctor"; "physician"; "medical";
                             "healthcare provider"; "clinician"; "surgeon";
                             "dentist"]%string) ].
  eexists. eexists. split; [reflexivity|]. split.
  - intros e [<- | []]. apply find_keyword_none. reflexivity.
  - apply find_keyword_some. reflexivity.
Defined.

(** The second step as the specification words it: the first pattern that
    matches decides, and its phrase is taken when it has at most three
    words. *)
Fixpoint first_match (leads : list str) (s : str) : option str :=
  match leads with
  | [] => None
  | lead :: rest =>
      match search_profession lead s with
      | Some group1 => Some group1
      | None => first_match rest s
      end
  end.

Definition detect_profile_as_stated (question : str) : option ProfileInfo :=
  let s := lower question in
  match scan_keywords PROFILE_KEYWORDS s with
  | Some info => Some info
  | None =>
      match first_match profession_patterns s with
      | Some group1 =>
          if List.length (split_ws (phrase_of group1)) <=? 3
          then Some (custom_info (phrase_of group1))
          else None
      | None => None
      end
  end.

(** Two questions on which [detect_profile] departs from that wording.  In the
    first, the first pattern matches with a phrase of five words and the
    second pattern then gives the profile.  In the second, the phrase of
    the only match is empty and nothing is detected. *)
Lemma detect_profile_not_as_stated :
  let q1 := lit "I am a proud mother of two kids. As a pilot I fly" in
  let q2 := lit "I am a  !" in
  (search_profession (lit "i am ") (lower q1)
   = Some (lit "proud mother of two kids")
   /\ detect_profile_as_stated q1 = None
   /\ detect_profile q1 = Some (custom_info (lit "pilot i fly")))
  /\ (detect_profile_as_stated q2 = Some (custom_info [])
      /\ detect_profile q2 = None).
Proof. cbv zeta. repeat split. Qed.

End DetectorProofs.

Module CleanAnswerProofs.
Import ProfileAwareRAGSystem StrFacts StripFacts.

(** *** Characters *)

Lemma blank_not_upper (b : ascii) : is_space b = true -> lower_char b = b.
Proof.
  destruct b as [[] [] [] [] [] [] [] []]; vm_compute; intros H;
    first [reflexivity | discriminate H].
Qed.

Lemma is_nl_eq (b : ascii) : is_nl b = true -> b = NL.
Proof. unfold is_nl; apply Ascii.eqb_eq. Qed.

Lemma nl_is_blank (b : ascii) : is_nl b = true -> is_space b = true.
Proof. intros H; apply is_nl_eq in H; subst; reflexivity. Qed.

(** A character that matches, case ignored, a pattern character which is
    not a blank (a newline) is not a blank (a newline) either. *)
Lemma match_not_blank (a b : ascii) :
  is_space (lower_char a) = false ->
  Ascii.eqb (lower_char a) (lower_char b) = true -> is_space b = false.
Proof.
  intros Ha E; apply Ascii.eqb_eq in E.
  destruct (is_space b) eqn:Hb; auto.
  rewrite (blank_not_upper b Hb) in E; congruence.
Qed.

Lemma match_not_nl (a b : ascii) :
  is_nl (lower_char a) = false ->
  Ascii.eqb (lower_char a) (lower_char b) = true -> is_nl b = false.
Proof.
  intros Ha E; apply Ascii.eqb_eq in E.
  destruct (is_nl b) eqn:Hb; auto.
  apply is_nl_eq in Hb; subst b. rewrite E in Ha. discriminate Ha.
Qed.

(** *** Occurrences, letter case ignored *)

(** [text] occurs in [s], letter case ignored. *)
Fixpoint contains_ci (text s : str) : bool :=
  starts_with_ci text s
  || match s with
     | [] => false
     | _ :: s' => contains_ci text s'
     end.

(** No character of [text] matches a newline. *)
Definition one_line (text : str) : bool :=
  forallb (fun c => negb (is_nl (lower_char c))) text.

(** [text] is not empty and its first character does not match a blank. *)
Definition solid_head (text : str) : bool :=
  match text with
  | [] => false
  | c :: _ => negb (is_space (lower_char c))
  end.

Definition plain (text : str) : bool := solid_head text && one_line text.

Lemma plain_head (text : str) : plain text = true -> solid_head text = true.
Proof. unfold plain; intros H; apply andb_true_iff in H; tauto. Qed.

Lemma plain_one_line (text : str) : plain text = true -> one_line text = true.
Proof. unfold plain; intros H; apply andb_true_iff in H; tauto. Qed.

Lemma starts_with_ci_app (text a b : str) :
  starts_with_ci text a = true -> starts_with_ci text (a ++ b) = true.
Proof.
  revert a; induction text as [|x text IH]; intros [|y a]; simpl; auto;
    [discriminate|].
  intros H; apply andb_true_iff in H as [H1 H2]; rewrite H1; simpl; auto.
Qed.

Lemma contains_ci_cons (text : str) c (s : str) :
  contains_ci text (c :: s) = false ->
  starts_with_ci text (c :: s) = false /\ contains_ci text s = false.
Proof. simpl; intros H; apply orb_false_iff in H; exact H. Qed.

Lemma contains_ci_suffix (text a b : str) :
  contains_ci text (a ++ b) = false -> contains_ci text b = false.
Proof.
  induction a as [|c a IH]; auto.
  intros H; apply contains_ci_cons in H as [_ H]; auto.
Qed.

Lemma contains_ci_prefix (text a b : str) :
  text <> [] -> contains_ci text (a ++ b) = false -> contains_ci text a = false.
Proof.
  intros Hne; induction a as [|c a IH]; intros H.
  - destruct text; [congruence | reflexivity].
  - cbn [app] in H. apply contains_ci_cons in H as [H1 H2].
    cbn [contains_ci]. rewrite (IH H2), orb_false_r.
    destruct (starts_with_ci text (c :: a)) eqn:E; auto.
    apply (starts_with_ci_app _ _ b) in E. cbn [app] in E. congruence.
Qed.

Lemma contains_ci_strip (text s : str) :
  text <> [] -> contains_ci text s = false -> contains_ci text (strip s) = false.
Proof.
  intros Hne H. destruct (strip_segment s) as [l [r Hs]].
  rewrite Hs in H. apply contains_ci_suffix in H.
  apply contains_ci_prefix in H; auto.
Qed.

Lemma solid_head_nonempty (text : str) : solid_head text = true -> text <> [].
Proof. destruct text; simpl; congruence. Qed.

(** A text of one line that starts [a ++ NL :: b] starts [a]. *)
Lemma starts_with_ci_line (text a b : str) :
  one_line text = true ->
  starts_with_ci text (a ++ NL :: b) = true -> starts_with_ci text a = true.
Proof.
  revert a; induction text as [|x text IH]; intros a Hl H; auto.
  cbn [one_line forallb] in Hl. apply andb_true_iff in Hl as [Hx Hl].
  apply negb_true_iff in Hx.
  destruct a as [|y a]; cbn [app starts_with_ci] in *;
    apply andb_true_iff in H as [H1 H2].
  - apply (match_not_nl x NL Hx) in H1. discriminate H1.
  - rewrite H1; simpl. apply IH; auto.
Qed.

Lemma contains_ci_line (text a : str) :
  plain text = true ->
  contains_ci text a = false -> contains_ci text (a ++ [NL]) = false.
Proof.
  intros Hp. pose proof (plain_one_line _ Hp) as Hl.
  pose proof (solid_head_nonempty _ (plain_head _ Hp)) as Hne.
  induction a as [|c a IH]; intros H.
  - destruct text as [|x text]; [congruence|]. simpl.
    cbn [one_line forallb] in Hl. apply andb_true_iff in Hl as [Hx _].
    apply negb_true_iff in Hx.
    destruct (Ascii.eqb (lower_char x) (lower_char NL)) eqn:E; auto.
    apply (match_not_nl x NL Hx) in E; discriminate E.
  - apply contains_ci_cons in H as [H1 H2].
    cbn [app contains_ci]. rewrite (IH H2), orb_false_r.
    destruct (starts_with_ci text (c :: a ++ [NL])) eqn:E; auto.
    change (c :: a ++ [NL]) with ((c :: a) ++ NL :: []) in E.
    apply starts_with_ci_line in E; auto. congruence.
Qed.

(** *** Removing a section *)

Lemma text_after_blanks_occurs (texts : list str) (s : str) :
  text_after_blanks texts s = true ->
  exists text, In text texts /\ contains_ci text s = true.
Proof.
  unfold text_after_blanks; intros H.
  apply existsb_exists in H as [text [Hin H]].
  exists text; split; auto.
  destruct (contains_ci text s) eqn:E; auto.
  rewrite (take_drop_while is_space s) in E.
  apply contains_ci_suffix in E.
  destruct (drop_while is_space s); simpl in E; rewrite H in E; discriminate.
Qed.

Lemma pattern_starts_occurs (emoji : str) (texts : list str) (s : str) :
  pattern_starts emoji texts s = true ->
  exists text, In text texts /\ contains_ci text s = true.
Proof.
  unfold pattern_starts; intros H. apply orb_true_iff in H as [H|H].
  - apply andb_true_iff in H as [_ H].
    apply text_after_blanks_occurs in H as [text [Hin H]].
    exists text; split; auto.
    destruct (contains_ci text s) eqn:E; auto.
    rewrite <- (firstn_skipn (List.length emoji) s) in E.
    apply contains_ci_suffix in E. congruence.
  - apply text_after_blanks_occurs; exact H.
Qed.

Definition absent (texts : list str) (s : str) : Prop :=
  forall text, In text texts -> contains_ci text s = false.

Lemma absent_tail (texts : list str) c (s : str) :
  absent texts (c :: s) -> absent texts s.
Proof. intros H text Hin; apply (contains_ci_suffix text [c] s), H, Hin. Qed.

Lemma remove_section_absent (emoji : str) (texts : list str) (s : str) :
  absent texts s -> remove_section emoji texts s = s.
Proof.
  induction s as [|c s IH]; intros H; cbn [remove_section].
  - destruct (pattern_starts emoji texts []) eqn:E; auto.
  - destruct (pattern_starts emoji texts (c :: s)) eqn:E.
    + apply pattern_starts_occurs in E as [text [Hin E]].
      rewrite (H text Hin) in E; discriminate.
    + f_equal; apply IH. eapply absent_tail; exact H.
Qed.

(** What is left is a prefix of the answer, with a newline added when the
    answer ended with one. *)
Lemma remove_section_shape (emoji : str) (texts : list str) (s : str) :
  exists p q,
    s = p ++ q
    /\ (remove_section emoji texts s = p
        \/ remove_section emoji texts s = p ++ [NL]).
Proof.
  induction s as [|c s [p [q [Hs IH]]]]; cbn [remove_section].
  - exists [], []; split; auto.
    destruct (pattern_starts emoji texts []); auto.
  - destruct (pattern_starts emoji texts (c :: s)).
    + exists [], (c :: s); split; auto.
      destruct (ends_with_newline (c :: s)); auto.
    + exists (c :: p), q; split; [simpl; congruence|].
      destruct IH as [-> | ->]; auto.
Qed.

Lemma remove_section_keeps_absent (emoji : str) (texts : list str)
    (text s : str) :
  plain text = true -> contains_ci text s = false ->
  contains_ci text (remove_section emoji texts s) = false.
Proof.
  intros Hp H.
  pose proof (solid_head_nonempty _ (plain_head _ Hp)) as Hne.
  destruct (remove_section_shape emoji texts s) as [p [q [Hs [-> | ->]]]];
    rewrite Hs in H; apply contains_ci_prefix in H; auto.
  apply contains_ci_line; auto.
Qed.

Lemma starts_ci_head_solid (text : str) c (s : str) :
  solid_head text = true -> starts_with_ci text (c :: s) = true ->
  is_space c = false.
Proof.
  destruct text as [|x text]; simpl; [discriminate|].
  intros Hx H; apply negb_true_iff in Hx.
  apply andb_true_iff in H as [H _]. eapply match_not_blank; eauto.
Qed.

Lemma remove_section_clears (emoji : str) (texts : list str) (text s : str) :
  plain text = true -> In text texts ->
  contains_ci text (remove_section emoji texts s) = false.
Proof.
  intros Hp Hin.
  pose proof (plain_one_line _ Hp) as Hl.
  pose proof (plain_head _ Hp) as Hh.
  pose proof (solid_head_nonempty _ Hh) as Hne.
  assert (Hnil : contains_ci text [] = false)
    by (destruct text; [congruence | reflexivity]).
  assert (Hnl : contains_ci text [NL] = false)
    by (apply (contains_ci_line text [] Hp Hnil)).
  induction s as [|c s IH]; cbn [remove_section].
  - destruct (pattern_starts emoji texts []); auto.
  - destruct (pattern_starts emoji texts (c :: s)) eqn:E.
    + destruct (ends_with_newline (c :: s)); auto.
    + cbn [contains_ci]. rewrite IH, orb_false_r.
      destruct (starts_with_ci text (c :: remove_section emoji texts s)) eqn:F;
        auto.
      exfalso.
      assert (G : starts_with_ci text (c :: s) = true).
      { destruct (remove_section_shape emoji texts s) as [p [q [Hs [R | R]]]];
          rewrite R in F; rewrite Hs.
        - apply (starts_with_ci_app text (c :: p) q); exact F.
        - apply (starts_with_ci_app text (c :: p) q).
          apply (starts_with_ci_line text (c :: p) []); auto. }
      pose proof (starts_ci_head_solid text c s Hh G) as Hc.
      unfold pattern_starts in E. apply orb_false_iff in E as [_ E].
      unfold text_after_blanks in E.
      assert (T : existsb
                    (fun t => starts_with_ci t (drop_while is_space (c :: s)))
                    texts = true).
      { apply existsb_exists; exists text; split; auto.
        cbn [drop_while]; rewrite Hc; exact G. }
      congruence.
Qed.

(** *** Collapsing blank lines *)

(** No newline of [s] is dropped by [collapse_aux run]. *)
Fixpoint keeps (run : nat) (s : str) : bool :=
  match s with
  | [] => true
  | c :: s' =>
      if is_nl c then (run <? 2) && keeps (S run) s' else keeps 0 s'
  end.

Lemma collapse_keeps (run : nat) (s : str) :
  keeps run s = true -> collapse_aux run s = s.
Proof.
  revert run; induction s as [|c s IH]; intros run H; simpl in *; auto.
  destruct (is_nl c).
  - apply andb_true_iff in H as [H1 H2]; rewrite H1; f_equal; auto.
  - f_equal; auto.
Qed.

Lemma keeps_mono (run run' : nat) (s : str) :
  run' <= run -> keeps run s = true -> keeps run' s = true.
Proof.
  destruct s as [|c s]; simpl; auto.
  destruct (is_nl c); auto.
  intros Hle H; apply andb_true_iff in H as [H1 H2].
  apply Nat.ltb_lt in H1.
  assert (run' = run \/ run' < run) as [-> | Hlt] by lia.
  - rewrite H2, andb_true_r; apply Nat.ltb_lt; lia.
  - (* run = 1, run' = 0 *)
    assert (run = 1 /\ run' = 0) as [-> ->] by lia.
    simpl. destruct s as [|d s]; simpl in *; auto.
    destruct (is_nl d); auto. discriminate.
Qed.

Lemma keeps_collapse (run : nat) (s : str) :
  keeps run (collapse_aux run s) = true.
Proof.
  revert run; induction s as [|c s IH]; intros run; simpl; auto.
  destruct (is_nl c) eqn:E.
  - destruct (run <? 2) eqn:R; simpl.
    + rewrite E, R; simpl; auto.
    + apply (keeps_mono (S run)); auto.
  - simpl; rewrite E; auto.
Qed.

Lemma keeps_prefix (run : nat) (a b : str) :
  keeps run (a ++ b) = true -> keeps run a = true.
Proof.
  revert run; induction a as [|c a IH]; intros run; simpl; auto.
  destruct (is_nl c); auto.
  intros H; apply andb_true_iff in H as [H1 H2]; rewrite H1; simpl; eauto.
Qed.

Lemma keeps_suffix (run : nat) (a b : str) :
  keeps run (a ++ b) = true -> keeps 0 b = true.
Proof.
  revert run; induction a as [|c a IH]; intros run; simpl.
  - apply keeps_mono; lia.
  - destruct (is_nl c); eauto.
    intros H; apply andb_true_iff in H as [_ H]; eauto.
Qed.

Lemma keeps_strip (s : str) : keeps 0 s = true -> keeps 0 (strip s) = true.
Proof.
  intros H. destruct (strip_segment s) as [l [r Hs]]. rewrite Hs in H.
  apply keeps_suffix, keeps_prefix in H; exact H.
Qed.

Lemma collapse_starts_ci (text s : str) :
  one_line text = true ->
  starts_with_ci text (collapse_aux 0 s) = true -> starts_with_ci text s = true.
Proof.
  revert s; induction text as [|x text IH]; intros s Hl H; auto.
  cbn [one_line forallb] in Hl. apply andb_true_iff in Hl as [Hx Hl].
  apply negb_true_iff in Hx.
  destruct s as [|c s]; [discriminate H|].
  cbn [collapse_aux] in H. destruct (is_nl c) eqn:E.
  - cbn [Nat.ltb Nat.leb starts_with_ci] in H.
    apply andb_true_iff in H as [H _].
    apply (match_not_nl x c Hx) in H; congruence.
  - cbn [starts_with_ci] in *. apply andb_true_iff in H as [H1 H2].
    rewrite H1; simpl; auto.
Qed.

Lemma collapse_contains_ci (text : str) (run : nat) (s : str) :
  plain text = true -> contains_ci text s = false ->
  contains_ci text (collapse_aux run s) = false.
Proof.
  intros Hp. pose proof (plain_one_line _ Hp) as Hl.
  pose proof (solid_head_nonempty _ (plain_head _ Hp)) as Hne.
  revert run; induction s as [|c s IH]; intros run H; auto.
  pose proof H as H0.
  apply contains_ci_cons in H as [H1 H2].
  cbn [collapse_aux]. destruct (is_nl c) eqn:E.
  - destruct (run <? 2); auto.
    cbn [contains_ci]. rewrite (IH _ H2), orb_false_r.
    destruct text as [|x text]; [congruence|].
    cbn [one_line forallb] in Hl. apply andb_true_iff in Hl as [Hx _].
    apply negb_true_iff in Hx. cbn [starts_with_ci].
    destruct (Ascii.eqb (lower_char x) (lower_char c)) eqn:F; auto.
    apply (match_not_nl x c Hx) in F; congruence.
  - cbn [contains_ci]. rewrite (IH _ H2), orb_false_r.
    destruct (starts_with_ci text (c :: collapse_aux 0 s)) eqn:F; auto.
    assert (G : starts_with_ci text (collapse_aux 0 (c :: s)) = true)
      by (cbn [collapse_aux]; rewrite E; exact F).
    apply collapse_starts_ci in G; auto. congruence.
Qed.

(** The substitutions at work.  A section runs from the emoji or the blanks
    before its first words to the end of the answer; a newline that ends
    the answer is kept.  The third pattern never finds what the second has
    left, so the book emoji of a pointer stays behind. *)
Example remove_section_examples :
  remove_section tv_emoji [lit "Related Video Resources:"]
    (lit "Use 4T. 📺 related video resources: a, b")
  = lit "Use 4T. "
  /\ remove_section tv_emoji [lit "For more details"; lit "For further details"]
       (lit "Use 4T." ++ [NL] ++ lit "FOR FURTHER DETAILS ask." ++ [NL])
     = lit "Use 4T." ++ [NL]
  /\ strip_boilerplate (lit "Use 4T. 📚 For more details, see X.")
     = lit "Use 4T. 📚".
Proof. repeat split. Qed.

Example collapse_blank_lines_examples :
  collapse_blank_lines (lit "a" ++ [NL; NL; NL; NL; NL] ++ lit "b")
  = lit "a" ++ [NL; NL] ++ lit "b"
  /\ collapse_blank_lines (lit "a" ++ [NL; NL] ++ lit "b" ++ [NL] ++ lit "c")
     = lit "a" ++ [NL; NL] ++ lit "b" ++ [NL] ++ lit "c".
Proof. repeat split. Qed.

(** *** The answer without boilerplate *)

(** The texts the three patterns look for. *)
Definition boilerplate_texts : list str := flat_map snd patterns.

Lemma boilerplate_texts_plain :
  forallb plain boilerplate_texts = true.
Proof. vm_compute; reflexivity. Qed.

Lemma boilerplate_plain (text : str) :
  In text boilerplate_texts -> plain text = true.
Proof.
  intros H. pose proof boilerplate_texts_plain as P.
  rewrite forallb_forall in P; auto.
Qed.

(** One round of the loop over [patterns]. *)
Definition strip_section (p : str * list str) (answer : str) : str :=
  strip (remove_section (fst p) (snd p) answer).

Lemma strip_section_clears p (text answer : str) :
  plain text = true -> In text (snd p) ->
  contains_ci text (strip_section p answer) = false.
Proof.
  intros Hp Hin. unfold strip_section.
  apply contains_ci_strip; [apply solid_head_nonempty, plain_head, Hp|].
  apply remove_section_clears; auto.
Qed.

Lemma strip_section_keeps_absent p (text answer : str) :
  plain text = true -> contains_ci text answer = false ->
  contains_ci text (strip_section p answer) = false.
Proof.
  intros Hp H. unfold strip_section.
  apply contains_ci_strip; [apply solid_head_nonempty, plain_head, Hp|].
  apply remove_section_keeps_absent; auto.
Qed.

Lemma strip_boilerplate_sections (answer : str) (ps : list (str * list str)) :
  fold_left (fun answer p => strip (remove_section (fst p) (snd p) answer))
            ps answer
  = fold_left (fun answer p => strip_section p answer) ps answer.
Proof. reflexivity. Qed.

Lemma sections_clear (ps : list (str * list str)) (text answer : str) :
  plain text = true ->
  In text (flat_map snd ps) \/ contains_ci text answer = false ->
  contains_ci text (fold_left (fun a p => strip_section p a) ps answer) = false.
Proof.
  intros Hp; revert answer; induction ps as [|p ps IH]; intros answer H.
  - destruct H as [[] | H]; exact H.
  - cbn [fold_left]. apply IH.
    destruct H as [H | H].
    + cbn [flat_map] in H. apply in_app_or in H as [H | H]; auto.
      right; apply strip_section_clears; auto.
    + right; apply strip_section_keeps_absent; auto.
Qed.

Lemma strip_boilerplate_clears (answer : str) :
  absent boilerplate_texts (strip_boilerplate answer).
Proof.
  intros text Hin. unfold strip_boilerplate.
  rewrite strip_boilerplate_sections.
  apply sections_clear; [apply boilerplate_plain; exact Hin | left; exact Hin].
Qed.

Lemma absent_boilerplate_section (p : str * list str) (answer : str) :
  In p patterns -> absent boilerplate_texts answer -> absent (snd p) answer.
Proof.
  intros Hp H text Hin. apply H.
  unfold boilerplate_texts. apply in_flat_map; exists p; auto.
Qed.

(** An answer that is trimmed and free of the texts is left as it is. *)
Lemma strip_boilerplate_fixed (answer : str) :
  trimmed answer -> absent boilerplate_texts answer ->
  strip_boilerplate answer = answer.
Proof.
  intros Ht Ha. unfold strip_boilerplate.
  assert (step : forall p, In p patterns ->
            strip (remove_section (fst p) (snd p) answer) = answer).
  { intros p Hp. rewrite remove_section_absent.
    - apply trimmed_strip; exact Ht.
    - apply absent_boilerplate_section; auto. }
  unfold patterns in *. cbn [fold_left].
  rewrite !step; cbn [In]; auto.
Qed.

Lemma clean_answer_plain (answer question : str) :
  _is_asking_for_references question = false ->
  forall source_ref,
    clean_answer answer question source_ref
    = strip (collapse_blank_lines (strip_boilerplate answer)).
Proof.
  intros H source_ref. unfold clean_answer, add_reference. rewrite H.
  reflexivity.
Qed.

(** C7.  For a question that does not ask for references, cleaning an
    answer that has already been cleaned changes nothing. *)
Theorem clean_answer_idempotent (answer question : str)
    (source_ref : option str) :
  _is_asking_for_references question = false ->
  clean_answer (clean_answer answer question source_ref) question source_ref
  = clean_answer answer question source_ref.
Proof.
  intros H. rewrite !(clean_answer_plain _ question H).
  set (cleaned := strip (collapse_blank_lines (strip_boilerplate answer))).
  assert (Ht : trimmed cleaned) by apply strip_trimmed.
  assert (Ha : absent boilerplate_texts cleaned).
  { intros text Hin. pose proof (boilerplate_plain text Hin) as Hp.
    apply contains_ci_strip; [apply solid_head_nonempty, plain_head, Hp|].
    apply collapse_contains_ci; auto.
    apply strip_boilerplate_clears; exact Hin. }
  rewrite (strip_boilerplate_fixed cleaned Ht Ha).
  assert (Hk : keeps 0 cleaned = true)
    by (apply keeps_strip, keeps_collapse).
  unfold collapse_blank_lines at 1. rewrite (collapse_keeps 0 cleaned Hk).
  apply trimmed_strip; exact Ht.
Qed.

(** An answer with a pointer of the model and a run of blank lines, cleaned
    once and cleaned twice. *)
Lemma clean_answer_idempotent_example :
  clean_answer
    (clean_answer
       (lit "Target, Time, Team, Theme." ++ [NL; NL; NL; NL]
        ++ lit "Start with Target." ++ [NL; NL]
        ++ lit "For more details, see the slides.")
       (lit "What is 4T?") (Some (lit "For more details, refer to **4T**.")))
    (lit "What is 4T?") (Some (lit "For more details, refer to **4T**."))
  = lit "Target, Time, Team, Theme." ++ [NL; NL] ++ lit "Start with Target.".
Proof.
  rewrite clean_answer_idempotent; reflexivity.
Defined.

End CleanAnswerProofs.

Module CitationProofs.
Import ProfileAwareRAGSystem StrFacts StripFacts CleanAnswerProofs.
Import SourceReferenceProofs.

(** *** The reference text *)

(** The words every reference text begins with; they are also what the
    second and third patterns look for. *)
Definition pointer : str := lit "For more details".

(** What precedes the reference text in the final answer. *)
Definition citation_mark : str := books_emoji ++ lit " ".

Lemma reference_text_shape (d : Document) :
  exists mid,
    reference_text (get_source_reference d)
    = Some (pointer ++ mid ++ lit ".").
Proof.
  unfold get_source_reference.
  set (name := extract_clean_filename _).
  set (folder := get_default (parent_folder (metadata d)) []).
  destruct (truthy_int _).
  - destruct (truthy_str _).
    + exists (lit ", refer to **Session "
              ++ str_of_Z (get_default (session_number (metadata d)) 0%Z)
              ++ lit " (Facilitator: "
              ++ get_default (facilitator (metadata d)) []
              ++ lit ")** videos and documentation (PPT/PDF)").
      cbn [set_reference_text reference_text]. f_equal.
      change (lit "For more details, refer to **Session ")
        with (pointer ++ lit ", refer to **Session ").
      change (lit "** videos and documentation (PPT/PDF).")
        with (lit "** videos and documentation (PPT/PDF)" ++ lit ".").
      change (lit ")** videos and documentation (PPT/PDF)")
        with (lit ")" ++ lit "** videos and documentation (PPT/PDF)").
      rewrite <- !app_assoc. reflexivity.
    + exists (lit ", refer to **Session "
              ++ str_of_Z (get_default (session_number (metadata d)) 0%Z)
              ++ lit "** videos and documentation (PPT/PDF)").
      cbn [set_reference_text reference_text]. f_equal.
      change (lit "For more details, refer to **Session ")
        with (pointer ++ lit ", refer to **Session ").
      change (lit "** videos and documentation (PPT/PDF).")
        with (lit "** videos and documentation (PPT/PDF)" ++ lit ".").
      rewrite <- !app_assoc. reflexivity.
  - destruct (_ && _); destruct (mentions_any _ _);
      cbn [set_reference_text set_type reference_text].
    + exists (lit ", visit **" ++ name ++ lit "** video").
      f_equal.
      change (lit "For more details, visit **")
        with (pointer ++ lit ", visit **").
      change (lit "** video.") with (lit "** video" ++ lit ".").
      rewrite <- !app_assoc. reflexivity.
    + exists (lit ", refer to **" ++ folder ++ lit " - " ++ name ++ lit "**").
      f_equal.
      change (lit "For more details, refer to **")
        with (pointer ++ lit ", refer to **").
      change (lit "**.") with (lit "**" ++ lit ".").
      rewrite <- !app_assoc. reflexivity.
    + exists (lit ", visit **" ++ name ++ lit "** video").
      f_equal.
      change (lit "For more details, visit **")
        with (pointer ++ lit ", visit **").
      change (lit "** video.") with (lit "** video" ++ lit ".").
      rewrite <- !app_assoc. reflexivity.
    + exists (lit ", refer to **" ++ name ++ lit "**").
      f_equal.
      change (lit "For more details, refer to **")
        with (pointer ++ lit ", refer to **").
      change (lit "**.") with (lit "**" ++ lit ".").
      rewrite <- !app_assoc. reflexivity.
Qed.

(** *** Collapsing around the citation *)

Lemma collapse_app_solid (run : nat) (a : str) c (b : str) :
  is_nl c = false ->
  collapse_aux run (a ++ c :: b)
  = collapse_aux run a ++ c :: collapse_aux 0 b.
Proof.
  intros Hc; revert run; induction a as [|x a IH]; intros run; simpl.
  - rewrite Hc; reflexivity.
  - destruct (is_nl x); [destruct (run <? 2)|]; simpl; rewrite IH; reflexivity.
Qed.

Lemma collapse_solid_run (run : nat) (a b : str) :
  a <> [] -> forallb (fun c => negb (is_nl c)) a = true ->
  collapse_aux run (a ++ b) = a ++ collapse_aux 0 b.
Proof.
  revert run; induction a as [|x a IH]; intros run Hne H; [congruence|].
  cbn [forallb] in H. apply andb_true_iff in H as [Hx Ha].
  apply negb_true_iff in Hx. cbn [app collapse_aux]. rewrite Hx. f_equal.
  destruct a as [|y a]; [reflexivity|].
  apply IH; [discriminate | exact Ha].
Qed.

Lemma collapse_citation (ref : str) :
  collapse_aux 0 (citation ref) = citation (collapse_blank_lines ref).
Proof.
  unfold citation.
  change ([NL; NL] ++ books_emoji ++ lit " " ++ ref)
    with (NL :: NL :: citation_mark ++ ref).
  cbn [collapse_aux]. change (is_nl NL) with true. cbv iota.
  change (0 <? 2) with true. change (1 <? 2) with true. cbv iota.
  rewrite collapse_solid_run; [| discriminate | reflexivity].
  reflexivity.
Qed.

(** Collapsing a reference text keeps its first words and its full stop. *)
Lemma collapse_reference (mid : str) :
  collapse_blank_lines (pointer ++ mid ++ lit ".")
  = pointer ++ collapse_aux 0 mid ++ lit ".".
Proof.
  unfold collapse_blank_lines.
  rewrite collapse_solid_run; [| discriminate | reflexivity].
  change (lit ".") with ["."%char].
  rewrite (collapse_app_solid 0 mid "."%char [] eq_refl). reflexivity.
Qed.

Lemma repeat_shift (run : nat) (s : str) :
  repeat NL run ++ NL :: s = repeat NL (S run) ++ s.
Proof.
  induction run as [|run IH]; [reflexivity|].
  cbn [repeat app] in *. rewrite IH. reflexivity.
Qed.

(** A text without three newlines in a row is left as it is. *)
Lemma keeps_no_triple (run : nat) (s : str) :
  run <= 2 ->
  contains [NL; NL; NL] (repeat NL run ++ s) = false ->
  keeps run s = true.
Proof.
  revert run; induction s as [|c s IH]; intros run Hrun H; auto.
  cbn [keeps]. destruct (is_nl c) eqn:E.
  - apply is_nl_eq in E; subst c.
    rewrite (repeat_shift run s) in H.
    assert (Hlt : run < 2).
    { destruct run as [|[|[|run]]]; try lia.
      cbn in H. discriminate H. }
    apply Nat.ltb_lt in Hlt as Hb. rewrite Hb. cbn [andb].
    apply IH; [lia | exact H].
  - apply (IH 0); [lia|]. cbn [repeat app].
    apply (contains_app_parts [NL; NL; NL] (repeat NL run ++ [c]) s).
    rewrite <- app_assoc. exact H.
Qed.

Lemma collapse_no_triple (s : str) :
  contains [NL; NL; NL] s = false -> collapse_blank_lines s = s.
Proof.
  intros H. apply collapse_keeps, keeps_no_triple; [lia | exact H].
Qed.

Lemma not_blank_not_nl c : is_space c = false -> is_nl c = false.
Proof.
  intros H; destruct (is_nl c) eqn:E; auto.
  apply nl_is_blank in E; congruence.
Qed.

Lemma collapse_trimmed (s : str) : trimmed s -> trimmed (collapse_blank_lines s).
Proof.
  intros [|c1 mid c2 l H1 H2 E]; [constructor|].
  unfold collapse_blank_lines.
  pose proof (not_blank_not_nl c1 H1) as N1.
  pose proof (not_blank_not_nl c2 H2) as N2.
  assert (R : collapse_aux 0 (c1 :: mid) = collapse_aux 0 l ++ [c2]).
  { rewrite E. rewrite (collapse_app_solid 0 l c2 [] N2). reflexivity. }
  cbn [collapse_aux] in *. rewrite N1 in *.
  eapply trimmed_ends; eauto.
Qed.

Lemma trimmed_app (a b : str) c :
  trimmed a -> a <> [] -> is_space c = false -> trimmed (a ++ b ++ [c]).
Proof.
  intros [|c1 mid c2 l H1 H2 E] Hne Hc; [congruence|].
  apply (trimmed_ends c1 (mid ++ b ++ [c]) c ((c1 :: mid) ++ b)); auto.
  cbn [app]. rewrite <- app_assoc. reflexivity.
Qed.

(** The clean-up of an answer to which the citation has been appended. *)
Lemma cleaned_with_citation (body mid : str) :
  trimmed body ->
  strip (collapse_blank_lines (body ++ citation (pointer ++ mid ++ lit ".")))
  = collapse_blank_lines body
    ++ (if nonempty body then [NL; NL] else [])
    ++ citation_mark ++ collapse_blank_lines (pointer ++ mid ++ lit ".").
Proof.
  intros Ht. rewrite (collapse_reference mid).
  assert (Hc : collapse_aux 0 (citation (pointer ++ mid ++ lit "."))
               = citation (pointer ++ collapse_aux 0 mid ++ lit "."))
    by (rewrite collapse_citation, collapse_reference; reflexivity).
  set (tidy := collapse_aux 0 mid) in *.
  set (ref := pointer ++ tidy ++ lit ".") in *.
  assert (Hlast : citation_mark ++ ref
                  = (citation_mark ++ pointer ++ tidy) ++ ["."%char]).
  { unfold ref. rewrite <- !app_assoc. reflexivity. }
  destruct Ht as [|c1 rest c2 l H1 H2 E].
  - cbn [app nonempty]. unfold collapse_blank_lines at 1.
    rewrite Hc. unfold citation.
    change ([NL; NL] ++ books_emoji ++ lit " " ++ ref)
      with (NL :: NL :: citation_mark ++ ref).
    unfold strip, lstrip. cbn [drop_while].
    change (is_space NL) with true. cbv iota.
    change (drop_while is_space (citation_mark ++ ref))
      with (citation_mark ++ ref).
    rewrite Hlast. apply rstrip_fixed. reflexivity.
  - pose proof (not_blank_not_nl c2 H2) as N2.
    cbn [nonempty]. unfold collapse_blank_lines.
    rewrite E, <- app_assoc. cbn [app].
    rewrite (collapse_app_solid 0 l c2 _ N2).
    rewrite (collapse_app_solid 0 l c2 [] N2).
    rewrite Hc.
    cbn [collapse_aux]. rewrite <- !app_assoc. cbn [app].
    unfold citation.
    change ([NL; NL] ++ books_emoji ++ lit " " ++ ref)
      with (NL :: NL :: citation_mark ++ ref).
    apply trimmed_strip.
    assert (T : trimmed (collapse_blank_lines (c1 :: rest)))
      by (apply collapse_trimmed; eapply trimmed_ends; eauto).
    unfold collapse_blank_lines in T.
    rewrite E, (collapse_app_solid 0 l c2 [] N2) in T.
    cbn [collapse_aux] in T.
    replace (collapse_aux 0 l ++ c2 :: NL :: NL :: citation_mark ++ ref)
      with ((collapse_aux 0 l ++ [c2])
            ++ (NL :: NL :: citation_mark ++ pointer ++ tidy) ++ ["."%char]).
    + apply trimmed_app; auto. destruct (collapse_aux 0 l); discriminate.
    + unfold ref. rewrite <- !app_assoc. cbn [app]. rewrite <- !app_assoc.
      reflexivity.
Qed.

(** *** Counting the citation *)

(** The number of places of [s] where [p] occurs. *)
Fixpoint occurrences (p s : str) : nat :=
  (if starts_with p s then 1 else 0)
  + match s with
    | [] => 0
    | _ :: s' => occurrences p s'
    end.

Lemma starts_with_length (p s : str) :
  starts_with p s = true -> List.length p <= List.length s.
Proof.
  intros H; apply starts_with_iff in H as [t ->].
  rewrite length_app; lia.
Qed.

Lemma occurrences_short (p s : str) :
  List.length s < List.length p -> occurrences p s = 0.
Proof.
  induction s as [|c s IH]; intros H; cbn [occurrences].
  - destruct (starts_with p []) eqn:E; auto.
    apply starts_with_length in E; simpl in *; lia.
  - destruct (starts_with p (c :: s)) eqn:E.
    + apply starts_with_length in E; lia.
    + apply IH; simpl in H; lia.
Qed.

Lemma occurrences_self (p : str) : p <> [] -> occurrences p p = 1.
Proof.
  destruct p as [|c p]; [congruence|]. intros _. cbn [occurrences].
  assert (E : starts_with (c :: p) (c :: p) = true).
  { rewrite <- (app_nil_r (c :: p)) at 2. apply starts_with_app. }
  rewrite E, occurrences_short; simpl; lia.
Qed.

Lemma occurrences_after (p stem b : str) :
  none_from p stem b -> occurrences p (stem ++ b) = occurrences p b.
Proof.
  induction stem as [|c stem IH]; intros H; auto.
  destruct H as [Hs Ht]. cbn [app occurrences]. cbn [app] in Hs.
  rewrite Hs; auto.
Qed.

Lemma starts_with_nth (p s : str) (d : ascii) (j : nat) :
  starts_with p s = true -> j < List.length p -> nth j s d = nth j p d.
Proof.
  intros H Hj; apply starts_with_iff in H as [t ->].
  apply app_nth1; exact Hj.
Qed.

Lemma starts_with_prefix (p q s : str) :
  starts_with (p ++ q) s = true -> starts_with p s = true.
Proof.
  intros H; apply starts_with_iff in H as [t ->].
  rewrite <- app_assoc; apply starts_with_app.
Qed.

(** The citation mark followed by the first words of a reference. *)
Definition citation_head : str := citation_mark ++ pointer.

Lemma citation_head_distinct (n : nat) :
  1 <= n -> n < List.length citation_head ->
  nth n citation_head "000"%char <> nth 0 citation_head "000"%char.
Proof.
  intros H1 H2.
  do 21 (destruct n as [|n];
         [first [lia | vm_compute; intros H; discriminate H]|]).
  vm_compute in H2; lia.
Qed.

(** The citation cannot begin earlier than where it was appended, unless
    the words of a reference already occur before it. *)
Lemma no_early_citation (t tail : str) :
  t <> [] -> contains pointer t = false ->
  starts_with (citation_head ++ tail) (t ++ citation_head ++ tail) = false.
Proof.
  intros Hne Hc.
  destruct (starts_with _ _) eqn:E; auto. exfalso.
  destruct (Nat.lt_ge_cases (List.length t) (List.length citation_head))
    as [Hlt | Hge].
  - pose proof (starts_with_nth _ _ "000"%char (List.length t) E) as N.
    rewrite length_app in N. specialize (N ltac:(lia)).
    rewrite app_nth2, Nat.sub_diag in N by lia.
    rewrite (app_nth1 citation_head tail "000"%char Hlt) in N.
    rewrite (app_nth1 citation_head tail "000"%char (n := 0)) in N
      by (vm_compute; lia).
    apply (citation_head_distinct (List.length t)); auto.
    destruct t; [congruence | simpl; lia].
  - apply starts_with_prefix, starts_with_seam in E
      as [E | [q [Hq [Hqne _]]]].
    + apply starts_with_iff in E as [r Hr].
      assert (O : contains pointer t = true).
      { apply contains_iff. exists citation_mark, r.
        rewrite Hr. unfold citation_head. rewrite <- app_assoc. reflexivity. }
      congruence.
    + apply (f_equal (@List.length ascii)) in Hq.
      rewrite length_app in Hq.
      destruct q; [congruence | cbn [List.length] in Hq; lia].
Qed.

Lemma citation_not_early (stem tail : str) :
  contains pointer stem = false ->
  none_from (citation_head ++ tail) stem (citation_head ++ tail).
Proof.
  induction stem as [|c stem IH]; intros H; simpl; auto.
  split.
  - apply (no_early_citation (c :: stem) tail); [discriminate | exact H].
  - apply IH. apply contains_cons_false in H; tauto.
Qed.

Lemma starts_with_ci_of (p s : str) :
  starts_with p s = true -> starts_with_ci p s = true.
Proof.
  revert s; induction p as [|a p IH]; intros [|b s]; simpl; auto.
  intros H; apply andb_true_iff in H as [H1 H2].
  apply Ascii.eqb_eq in H1; subst b. rewrite Ascii.eqb_refl; simpl; auto.
Qed.

Lemma contains_of_ci (p s : str) :
  contains_ci p s = false -> contains p s = false.
Proof.
  induction s as [|c s IH]; simpl; intros H;
    apply orb_false_iff in H as [H1 H2].
  - rewrite orb_false_r. destruct (starts_with p []) eqn:E; auto.
    apply starts_with_ci_of in E; congruence.
  - rewrite IH, orb_false_r by exact H2.
    change (match p with [] => true | a :: p' => Ascii.eqb a c && starts_with p' s end)
      with (starts_with p (c :: s)).
    destruct (starts_with p (c :: s)) eqn:E; auto.
    apply starts_with_ci_of in E. simpl in E. congruence.
Qed.

Lemma pointer_boilerplate : In pointer boilerplate_texts.
Proof. vm_compute; auto. Qed.

(** *** The final answer (C4) *)

(** The answer as it is returned when nothing is appended. *)
Definition uncited (answer : str) : str :=
  strip (collapse_blank_lines (strip_boilerplate answer)).

Lemma uncited_absent (answer : str) : absent boilerplate_texts (uncited answer).
Proof.
  intros text Hin. pose proof (boilerplate_plain text Hin) as Hp.
  apply contains_ci_strip; [apply solid_head_nonempty, plain_head, Hp|].
  apply collapse_contains_ci; auto.
  apply strip_boilerplate_clears; exact Hin.
Qed.

Lemma strip_boilerplate_is_trimmed (answer : str) :
  trimmed (strip_boilerplate answer).
Proof.
  unfold strip_boilerplate, patterns. cbn [fold_left fst snd].
  apply strip_trimmed.
Qed.

Lemma uncited_collapse (answer : str) :
  uncited answer = collapse_blank_lines (strip_boilerplate answer).
Proof.
  unfold uncited. apply trimmed_strip, collapse_trimmed.
  apply strip_boilerplate_is_trimmed.
Qed.

Lemma collapse_nonempty (s : str) :
  trimmed s -> nonempty (collapse_blank_lines s) = nonempty s.
Proof.
  intros [|c1 mid c2 l H1 H2 E]; [reflexivity|].
  unfold collapse_blank_lines; cbn [collapse_aux].
  rewrite (not_blank_not_nl c1 H1). reflexivity.
Qed.

(** The blank line between the answer and the citation. *)
Definition separator (body : str) : str :=
  if nonempty body then [NL; NL] else [].

Lemma no_pointer_before_citation (body : str) :
  absent boilerplate_texts body ->
  contains pointer (body ++ separator body) = false.
Proof.
  intros H. apply contains_of_ci.
  pose proof (boilerplate_plain pointer pointer_boilerplate) as Hp.
  pose proof (H pointer pointer_boilerplate) as Hb.
  unfold separator. destruct (nonempty body).
  - change [NL; NL] with ([NL] ++ [NL]). rewrite app_assoc.
    apply contains_ci_line; auto. apply contains_ci_line; auto.
  - rewrite app_nil_r; exact Hb.
Qed.

(** C4, as the code has it.  The citation is appended exactly when the
    question asks for references and a document was retrieved.  The answer
    returned without a citation contains none of the texts of the patterns.
    With a citation, the answer returned is the answer without citation, a
    blank line if that answer is not empty, and the citation mark with the
    reference text as the collapsing of blank lines leaves it, which is the
    reference text itself unless three newlines stand in a row in it; the
    mark with that text occurs once in the answer returned. *)
Theorem citation_appended (raw question : str) (docs : list Document) :
  let source_ref := _get_primary_source_reference docs in
  let cleaned := strip_boilerplate raw in
  let body := clean_answer raw question None in
  absent boilerplate_texts body
  /\ (_is_asking_for_references question = false \/ docs = [] ->
      add_reference cleaned question source_ref = cleaned
      /\ clean_answer raw question source_ref = body)
  /\ (_is_asking_for_references question = true -> docs <> [] ->
      exists ref,
        source_ref = Some ref
        /\ add_reference cleaned question source_ref
           = cleaned ++ citation ref
        /\ clean_answer raw question source_ref
           = body ++ separator body
             ++ citation_mark ++ collapse_blank_lines ref
        /\ occurrences (citation_mark ++ collapse_blank_lines ref)
             (clean_answer raw question source_ref) = 1
        /\ (contains [NL; NL; NL] ref = false ->
            collapse_blank_lines ref = ref)).
Proof.
  cbv zeta.
  assert (Hbody : clean_answer raw question None = uncited raw).
  { unfold clean_answer, add_reference, uncited.
    rewrite andb_false_r. reflexivity. }
  rewrite Hbody.
  split; [apply uncited_absent|]. split.
  - intros H.
    assert (A : add_reference (strip_boilerplate raw) question
                  (_get_primary_source_reference docs)
                = strip_boilerplate raw).
    { unfold add_reference. destruct H as [-> | ->]; [reflexivity|].
      cbn. rewrite andb_false_r. reflexivity. }
    split; [exact A|]. unfold clean_answer. rewrite A. reflexivity.
  - intros Hask Hdocs. destruct docs as [|d rest]; [congruence|].
    destruct (reference_text_shape d) as [mid Hmid].
    cbn [_get_primary_source_reference]. rewrite Hmid.
    exists (pointer ++ mid ++ lit "."). split; [reflexivity|].
    assert (A : add_reference (strip_boilerplate raw) question
                  (Some (pointer ++ mid ++ lit "."))
                = strip_boilerplate raw ++ citation (pointer ++ mid ++ lit ".")).
    { unfold add_reference. rewrite Hask. reflexivity. }
    split; [exact A|].
    assert (F : clean_answer raw question (Some (pointer ++ mid ++ lit "."))
                = uncited raw ++ separator (uncited raw)
                  ++ citation_mark
                  ++ collapse_blank_lines (pointer ++ mid ++ lit ".")).
    { unfold clean_answer. rewrite A.
      rewrite (cleaned_with_citation (strip_boilerplate raw) mid
                 (strip_boilerplate_is_trimmed raw)).
      unfold separator. rewrite uncited_collapse.
      rewrite collapse_nonempty by apply strip_boilerplate_is_trimmed.
      reflexivity. }
    split; [exact F|]. split; [|apply collapse_no_triple].
    rewrite F, collapse_reference.
    replace (citation_mark ++ pointer ++ collapse_aux 0 mid ++ lit ".")
      with (citation_head ++ collapse_aux 0 mid ++ lit ".")
      by (unfold citation_head; rewrite <- app_assoc; reflexivity).
    rewrite (app_assoc (uncited raw) (separator (uncited raw))).
    rewrite occurrences_after.
    + apply occurrences_self. discriminate.
    + apply citation_not_early, no_pointer_before_citation, uncited_absent.
Qed.

Definition session3_reference : str :=
  lit "For more details, refer to **Session 3** videos and documentation (PPT/PDF).".

(** The answer of the model ends with a pointer of its own and the user
    asks where the material is from. *)
Lemma citation_appended_example :
  clean_answer
    (lit "Target, Time, Team, Theme." ++ [NL; NL]
     ++ lit "For more details, see the slides.")
    (lit "which session is this from?")
    (_get_primary_source_reference [session3_doc])
  = lit "Target, Time, Team, Theme." ++ [NL; NL]
    ++ citation_mark ++ session3_reference
  /\ occurrences (citation_mark ++ session3_reference)
       (clean_answer
          (lit "Target, Time, Team, Theme." ++ [NL; NL]
           ++ lit "For more details, see the slides.")
          (lit "which session is this from?")
          (_get_primary_source_reference [session3_doc])) = 1.
Proof.
  destruct (citation_appended
              (lit "Target, Time, Team, Theme." ++ [NL; NL]
               ++ lit "For more details, see the slides.")
              (lit "which session is this from?") [session3_doc])
    as [_ [_ H]].
  destruct (H eq_refl ltac:(discriminate))
    as [ref [Href [_ [Hshape [Hcount _]]]]].
  injection Href as <-.
  split; [rewrite Hshape; reflexivity | exact Hcount].
Defined.

(** A chunk whose facilitator field holds blank lines. *)
Definition untidy_doc : Document :=
  {| page_content := lit "Bell curve";
     metadata :=
       {| source_file := None; parent_folder := None;
          session_number := Some 5%Z; session_title := None;
          facilitator := Some (lit "A. Rao" ++ [NL; NL; NL] ++ lit "B. Iyer") |} |}.

(** Where the citation line does not survive as it was appended.  When the
    whole answer of the model is boilerplate, the citation line, with its
    two newlines, is not in the final answer: the newlines are trimmed.
    When the reference text holds three newlines in a row, it is not in the
    final answer either: they are collapsed with the rest. *)
Lemma citation_line_altered :
  (let final :=
     clean_answer (lit "For more details, see the slides.")
       (lit "which session is this from?")
       (_get_primary_source_reference [session3_doc]) in
   final = citation_mark ++ session3_reference
   /\ occurrences (citation session3_reference) final = 0)
  /\ (exists ref,
        _get_primary_source_reference [untidy_doc] = Some ref
        /\ occurrences (citation_mark ++ ref)
             (clean_answer (lit "Use the bell curve.") (lit "cite this")
                (Some ref)) = 0).
Proof.
  split.
  - cbv zeta. split; reflexivity.
  - eexists. split; reflexivity.
Qed.

End CitationProofs.

Module OrchestratorProofs.
Import ProfileAwareRAGSystem StrFacts SourceReferenceProofs.

(** *** Running the [try] block of [ask] *)

Definition detects (question : str) : bool :=
  match detect_profile question with Some _ => true | None => false end.

(** The metrics once step 1 has run. *)
Definition after_detection (question : str) (m : Metrics) : Metrics :=
  if detects question then count_detected_profile m else m.

Lemma ask_profile_context_custom (info : ProfileInfo) :
  profile info = custom -> ask_profile_context info = Raise no_attribute_UPPER.
Proof. unfold ask_profile_context; intros ->; reflexivity. Qed.

Lemma ask_profile_context_named (info : ProfileInfo) :
  profile info <> custom -> exists text, ask_profile_context info = Ok text.
Proof.
  unfold ask_profile_context; destruct (profile info);
    intros H; try (eexists; reflexivity); congruence.
Qed.

Lemma ask_detect_run (question : str) (m : Metrics) :
  ask_detect question m
  = match detect_profile question with
    | None => (Ok (None, ask_general_context), m)
    | Some info =>
        match ask_profile_context info with
        | Ok text => (Ok (Some info, text), count_detected_profile m)
        | Raise e => (Raise e, count_detected_profile m)
        end
    end.
Proof.
  unfold ask_detect, bind, modify, lift, ret.
  destruct (detect_profile question) as [info|]; [|reflexivity].
  destruct (ask_profile_context info); reflexivity.
Qed.

Lemma ask_detect_metrics (question : str) (m : Metrics) :
  snd (ask_detect question m) = after_detection question m.
Proof.
  rewrite ask_detect_run; unfold after_detection, detects.
  destruct (detect_profile question) as [info|]; [|reflexivity].
  destruct (ask_profile_context info); reflexivity.
Qed.

(** The turn [ask] appends on success. *)
Definition recorded (env : Env) (question text : str) : Turn :=
  {| turn_question := question; turn_answer := text;
     turn_timestamp := now_history env |}.

Lemma ask_try_run (env : Env) (question : str) (history : list Turn)
    (m : Metrics) :
  ask_try env question history m
  = match ask_detect question m with
    | (Raise e, m1) => (Raise e, m1)
    | (Ok (profile_info, profile_context), m1) =>
        match retrieve env question with
        | Raise e => (Raise e, m1)
        | Ok docs =>
            match chain_invoke env
                    (chain_input (_format_docs docs) profile_context history
                       question) with
            | Raise e => (Raise e, m1)
            | Ok text =>
                let cleaned :=
                  clean_answer text question
                    (_get_primary_source_reference docs) in
                (Ok {| answer := cleaned;
                       updated_history :=
                         history ++ [recorded env question cleaned] |},
                 track_metrics env question profile_info m1)
            end
        end
    end.
Proof.
  unfold ask_try, bind, lift, modify, ret.
  destruct (ask_detect question m) as [[[profile_info profile_context]|e] m1];
    [|reflexivity].
  destruct (retrieve env question) as [docs|e]; [|reflexivity].
  destruct (chain_invoke env _) as [text|e]; reflexivity.
Qed.

(** *** Running the [try] block of [ask_stream] *)

Definition stream_context (question : str) : str :=
  match detect_profile question with
  | Some info => stream_profile_context info
  | None => stream_general_context
  end.

Definition chunks_yielded (chunks : list str) : list Yield :=
  map AnswerChunk (filter nonempty chunks).

Lemma forward_chunks_run (full_answer : str) (chunks : list str)
    (m : Metrics) (ys : list Yield) :
  forward_chunks full_answer chunks (m, ys)
  = (Ok (full_answer ++ List.concat chunks), (m, ys ++ chunks_yielded chunks)).
Proof.
  revert full_answer ys; induction chunks as [|chunk rest IH];
    intros full_answer ys; unfold chunks_yielded; simpl.
  - unfold ret; rewrite !app_nil_r; reflexivity.
  - destruct chunk as [|c chunk]; simpl.
    + apply IH.
    + unfold bind, emit, modify; simpl. rewrite IH.
      unfold chunks_yielded. rewrite <- !app_assoc. reflexivity.
Qed.

(** The citation the generator yields after the answer, if any. *)
Definition reference_yielded (question : str) (docs : list Document)
    : list Yield :=
  let source_ref := _get_primary_source_reference docs in
  if _is_asking_for_references question && truthy_str source_ref
  then [ReferenceChunk (get_default source_ref [])]
  else [].

Lemma ask_stream_try_run (env : Env) (question : str) (history : list Turn)
    (m : Metrics) :
  ask_stream_try env question history (m, [])
  = let m1 := after_detection question m in
    match retrieve env question with
    | Raise e => (Raise e, (m1, []))
    | Ok docs =>
        let stream :=
          chain_stream env
            (chain_input (_format_docs docs) (stream_context question)
               history question) in
        match snd stream with
        | Some e => (Raise e, (m1, chunks_yielded (fst stream)))
        | None =>
            let updated :=
              history ++ [recorded env question (List.concat (fst stream))] in
            (Ok updated,
             (track_metrics env question (detect_profile question) m1,
              chunks_yielded (fst stream)
              ++ reference_yielded question docs
              ++ [HistoryMarker (List.length updated)]))
        end
    end.
Proof.
  unfold ask_stream_try, after_detection, detects, stream_context.
  unfold bind, lift, ret, raise, emit, on_metrics, modify.
  destruct (detect_profile question) as [info|]; cbv beta iota zeta;
    (destruct (retrieve env question) as [docs|e]; [|reflexivity]);
    rewrite forward_chunks_run; cbn [fst snd app];
    (destruct (snd (chain_stream env _)) as [e|]; [reflexivity|]);
    unfold reference_yielded;
    destruct (_ && _); cbn [fst snd app]; rewrite <- ?app_assoc; reflexivity.
Qed.


(** *** Failure of a call (C2, C3) *)

(** The [try] block raises an exception whose text is [e]. *)
Definition ask_raises (env : Env) (question : str) (history : list Turn)
    (m : Metrics) (e : str) : Prop :=
  fst (ask_try env question history m) = Raise e.

Definition stream_raises (env : Env) (question : str) (history : list Turn)
    (m : Metrics) (e : str) : Prop :=
  fst (ask_stream_try env question history (m, [])) = Raise e.

(** The profile context of [ask], when building it does not raise. *)
Definition ask_context (question : str) : result str :=
  match detect_profile question with
  | Some info => ask_profile_context info
  | None => Ok ask_general_context
  end.

(** The exceptions of [ask] are those of its three steps: building the
    profile context, retrieval, generation. *)
Lemma ask_raises_iff (env : Env) (question : str) (history : list Turn)
    (m : Metrics) (e : str) :
  ask_raises env question history m e
  <-> ask_context question = Raise e
      \/ (exists text, ask_context question = Ok text
            /\ retrieve env question = Raise e)
      \/ (exists text docs,
            ask_context question = Ok text
            /\ retrieve env question = Ok docs
            /\ chain_invoke env
                 (chain_input (_format_docs docs) text history question)
               = Raise e).
Proof.
  unfold ask_raises, ask_context.
  rewrite ask_try_run, ask_detect_run.
  destruct (detect_profile question) as [info|];
    [destruct (ask_profile_context info) as [text|e0]|]; cbn [fst];
    try (destruct (retrieve env question) as [docs|e1] eqn:R; cbn [fst]);
    try (destruct (chain_invoke env _) as [a|e2] eqn:E; cbn [fst]);
    (split;
     [ intros H; try discriminate; injection H as <-;
       first [ left; reflexivity
             | right; left; eexists; split; reflexivity
             | right; right; do 2 eexists; repeat split; eassumption ]
     | intros [H | [[t [H1 H2]] | [t [d [H1 [H2 H3]]]]]]; congruence ]).
Qed.

(** The exceptions of [ask_stream] are those of retrieval and of the
    stream of the model. *)
Lemma stream_raises_iff (env : Env) (question : str) (history : list Turn)
    (m : Metrics) (e : str) :
  stream_raises env question history m e
  <-> retrieve env question = Raise e
      \/ exists docs,
           retrieve env question = Ok docs
           /\ snd (chain_stream env
                     (chain_input (_format_docs docs)
                        (stream_context question) history question))
              = Some e.
Proof.
  unfold stream_raises. rewrite ask_stream_try_run. cbv zeta.
  destruct (retrieve env question) as [docs|e1]; cbn [fst].
  - destruct (snd (chain_stream env _)) as [e2|] eqn:E; cbn [fst]; split.
    + intros [= ->]; right; exists docs; auto.
    + intros [H | [d [[= <-] H]]]; congruence.
    + discriminate.
    + intros [H | [d [[= <-] H]]]; congruence.
  - split; [intros [= ->]; auto|].
    intros [H | [d [H _]]]; congruence.
Qed.

Definition is_marker (y : Yield) : bool :=
  match y with HistoryMarker _ => true | _ => false end.

(** C2.  When the [try] block of [ask] raises, whatever the step, [ask]
    returns the error marker followed by the text of the exception, and the
    history it was given.  When the [try] block of [ask_stream] raises, the
    generator has yielded chunks of the answer only, yields the error text
    as its last chunk, and yields no history marker. *)
Theorem failure_semantics (env : Env) (question : str)
    (history : list Turn) (m : Metrics) (e : str) :
  (ask_raises env question history m e ->
     fst (ask env question (Some history) m)
     = {| answer := error_marker ++ e; updated_history := history |})
  /\ (stream_raises env question history m e ->
        exists chunks,
          fst (ask_stream_run env question (Some history) m)
          = map AnswerChunk chunks ++ [ErrorChunk e]
          /\ fst (ask_stream env question (Some history) m)
             = chunks ++ [[NL; NL] ++ error_marker ++ e]
          /\ existsb is_marker
               (fst (ask_stream_run env question (Some history) m)) = false).
Proof.
  split.
  - unfold ask_raises, ask; cbn [get_default].
    destruct (ask_try env question history m) as [[r|e0] m'];
      cbn [fst]; [discriminate|].
    intros [= ->]; reflexivity.
  - unfold stream_raises, ask_stream, ask_stream_run; cbn [get_default].
    rewrite ask_stream_try_run; cbv zeta.
    destruct (retrieve env question) as [docs|e1]; cbn [fst].
    + destruct (chain_stream env _) as [chunks [e2|]]; cbn [fst snd];
        [|discriminate].
      intros [= ->]. exists (filter nonempty chunks).
      unfold chunks_yielded. repeat split.
      * rewrite map_app, map_map; cbn [map yielded]. rewrite map_id; reflexivity.
      * rewrite existsb_app; cbn [existsb is_marker].
        rewrite orb_false_r. induction (filter nonempty chunks); auto.
    + intros [= ->]. exists []; repeat split.
Qed.

(** A forced retrieval failure, for either operation. *)
Definition failing_env (e : str) : Env :=
  {| similarity_search := fun _ _ _ => Raise e;
     retriever_invoke := fun _ => Raise e;
     chain_invoke := fun _ => Ok [];
     chain_stream := fun _ => ([], None);
     now_history := []; now_metrics := []; elapsed := 0%float |}.

Definition one_turn : list Turn :=
  [ {| turn_question := lit "What is 4T?"; turn_answer := lit "Target, Time, Team, Theme.";
       turn_timestamp := lit "2025-01-01T00:00:00" |} ].

Lemma failure_semantics_retrieval_down :
  fst (ask (failing_env (lit "store unavailable")) (lit "What is ERRC?")
         (Some one_turn) initial_metrics)
  = {| answer := error_marker ++ lit "store unavailable";
       updated_history := one_turn |}
  /\ fst (ask_stream (failing_env (lit "store unavailable"))
            (lit "What is ERRC?") (Some one_turn) initial_metrics)
     = [[NL; NL] ++ error_marker ++ lit "store unavailable"].
Proof.
  pose proof (failure_semantics (failing_env (lit "store unavailable"))
                (lit "What is ERRC?") one_turn initial_metrics
                (lit "store unavailable")) as [Hsync Hstream].
  split.
  - apply Hsync. reflexivity.
  - reflexivity.
Defined.

(** The model fails after its first chunk: the chunk has been yielded, the
    error text follows, and the metrics keep no trace of the query. *)
Definition interrupted_env : Env :=
  {| similarity_search := fun _ _ _ => Ok [];
     retriever_invoke := fun _ => Ok [];
     chain_invoke := fun _ => Raise (lit "rate limited");
     chain_stream := fun _ => ([lit "Target, "], Some (lit "rate limited"));
     now_history := []; now_metrics := []; elapsed := 0%float |}.

Example interrupted_stream :
  ask_stream interrupted_env (lit "What is 4T?") (Some one_turn)
    initial_metrics
  = ([lit "Target, "; [NL; NL] ++ error_marker ++ lit "rate limited"],
     initial_metrics).
Proof. reflexivity. Qed.

(** C3.  A question in which a custom profile is detected makes step 1 of
    [ask] raise: the profile context is never built, retrieval is not
    reached, and the caller receives the error answer.  The detection has
    been counted all the same. *)
Theorem ask_custom_profile_fails (env : Env) (question : str)
    (history : option (list Turn)) (m : Metrics) (info : ProfileInfo) :
  detect_profile question = Some info ->
  profile info = custom ->
  ask env question history m
  = ({| answer := error_marker ++ no_attribute_UPPER;
        updated_history := get_default history [] |},
     count_detected_profile m).
Proof.
  intros Hd Hc. unfold ask.
  rewrite ask_try_run, ask_detect_run, Hd, ask_profile_context_custom by exact Hc.
  reflexivity.
Qed.

(** Retrieval and generation are available, and the call fails all the
    same. *)
Definition working_env : Env :=
  {| similarity_search := fun _ _ _ => Ok [];
     retriever_invoke := fun _ => Ok [];
     chain_invoke := fun _ => Ok (lit "Use the 4T framework.");
     chain_stream := fun _ => ([lit "Use the 4T framework."], None);
     now_history := lit "2025-01-01T00:00:01";
     now_metrics := lit "2025-01-01T00:00:02";
     elapsed := 0.5%float |}.

Lemma ask_custom_profile_fails_pilot :
  ask working_env (lit "I am a pilot") None initial_metrics
  = ({| answer := lit "⚠️ Error: 'str' object has no attribute 'UPPER'";
        updated_history := [] |},
     count_detected_profile initial_metrics).
Proof.
  eapply (ask_custom_profile_fails working_env (lit "I am a pilot") None
            initial_metrics); reflexivity.
Defined.

(** The generator, which calls [upper], serves the same question. *)
Example ask_stream_serves_pilot :
  fst (ask_stream working_env (lit "I am a pilot") None initial_metrics)
  = [lit "Use the 4T framework."; lit "__HISTORY_UPDATE__:1"].
Proof. reflexivity. Qed.


(** *** A successful stream (C10) *)

(** C10.  When the [try] block of [ask_stream] completes, the turn added to
    the local [updated_history] holds the concatenation of the chunks of the
    model, as they came: no citation, nothing removed.  The caller receives
    the chunks that are not empty, then the citation if one is due, then the
    marker with the length of the updated history, and nothing else. *)
Theorem stream_records_raw_answer (env : Env) (question : str)
    (history : list Turn) (m : Metrics) (updated : list Turn) :
  fst (ask_stream_try env question history (m, [])) = Ok updated ->
  exists docs chunks,
    retrieve env question = Ok docs
    /\ chain_stream env
         (chain_input (_format_docs docs) (stream_context question) history
            question)
       = (chunks, None)
    /\ updated = history ++ [recorded env question (List.concat chunks)]
    /\ fst (ask_stream env question (Some history) m)
       = filter nonempty chunks
         ++ map yielded (reference_yielded question docs)
         ++ [lit "__HISTORY_UPDATE__:"
             ++ str_of_nat (List.length history + 1)].
Proof.
  unfold ask_stream, ask_stream_run; cbn [get_default].
  rewrite ask_stream_try_run; cbv zeta.
  destruct (retrieve env question) as [docs|e1]; cbn [fst]; [|discriminate].
  destruct (chain_stream env _) as [chunks [e2|]] eqn:E; cbn [fst snd];
    [discriminate|].
  intros [= <-]. exists docs, chunks.
  split; [reflexivity|]. split; [exact E|]. split; [reflexivity|].
  unfold chunks_yielded.
  rewrite !map_app, map_map; cbn [map yielded]. rewrite map_id.
  rewrite length_app; reflexivity.
Qed.

(** The model streams an answer in three chunks, one of them empty, and
    adds a pointer of its own; the user asks for the source. *)
Definition streaming_env : Env :=
  {| similarity_search := fun _ _ _ => Ok [session3_doc];
     retriever_invoke := fun _ => Ok [session3_doc];
     chain_invoke := fun _ => Ok [];
     chain_stream :=
       fun _ => ([lit "Target, Time, "; []; lit "Team, Theme. For more details see the deck."],
                 None);
     now_history := lit "2025-01-01T00:00:01";
     now_metrics := lit "2025-01-01T00:00:02";
     elapsed := 0.5%float |}.

Lemma stream_records_raw_answer_example :
  exists docs chunks,
    retrieve streaming_env (lit "show source for 4T") = Ok docs
    /\ chain_stream streaming_env
         (chain_input (_format_docs docs)
            (stream_context (lit "show source for 4T")) one_turn
            (lit "show source for 4T"))
       = (chunks, None)
    /\ one_turn
       ++ [recorded streaming_env (lit "show source for 4T")
             (lit "Target, Time, Team, Theme. For more details see the deck.")]
       = one_turn
         ++ [recorded streaming_env (lit "show source for 4T")
               (List.concat chunks)]
    /\ fst (ask_stream streaming_env (lit "show source for 4T")
              (Some one_turn) initial_metrics)
       = filter nonempty chunks
         ++ map yielded (reference_yielded (lit "show source for 4T") docs)
         ++ [lit "__HISTORY_UPDATE__:" ++ str_of_nat (List.length one_turn + 1)].
Proof.
  apply (stream_records_raw_answer streaming_env (lit "show source for 4T")
           one_turn initial_metrics).
  reflexivity.
Defined.

(** *** Metrics over a sequence of calls (C5) *)

Inductive Call :=
| Ask (env : Env) (question : str) (history : option (list Turn))
| AskStream (env : Env) (question : str) (history : option (list Turn)).

Definition call_question (c : Call) : str :=
  match c with Ask _ q _ | AskStream _ q _ => q end.

(** The metrics a call leaves. *)
Definition run_call (m : Metrics) (c : Call) : Metrics :=
  match c with
  | Ask env q h => snd (ask env q h m)
  | AskStream env q h => snd (ask_stream_run env q h m)
  end.

Definition run (calls : list Call) (m : Metrics) : Metrics :=
  fold_left run_call calls m.

(** A call completes when its [try] block does not raise.  Whether it does
    is independent of the metrics. *)
Definition completes (c : Call) : bool :=
  match c with
  | Ask env q h =>
      match fst (ask_try env q (get_default h []) initial_metrics) with
      | Ok _ => true
      | Raise _ => false
      end
  | AskStream env q h =>
      match fst (ask_stream_try env q (get_default h [])
                   (initial_metrics, [])) with
      | Ok _ => true
      | Raise _ => false
      end
  end.

Definition detected (c : Call) : bool := detects (call_question c).

Definition count (f : Call -> bool) (calls : list Call) : Z :=
  Z.of_nat (List.length (filter f calls)).

(** What the block under [# Track metrics] does for the call [c]. *)
Definition tracked (c : Call) (m : Metrics) : Metrics :=
  match c with
  | Ask env q _ | AskStream env q _ =>
      track_metrics env q (detect_profile q) m
  end.

Lemma run_call_metrics (m : Metrics) (c : Call) :
  run_call m c
  = if completes c
    then tracked c (after_detection (call_question c) m)
    else after_detection (call_question c) m.
Proof.
  destruct c as [env q h | env q h]; unfold run_call, completes, tracked;
    cbn [call_question].
  - unfold ask. rewrite !ask_try_run, !ask_detect_run.
    unfold after_detection, detects.
    destruct (detect_profile q) as [info|];
      [destruct (ask_profile_context info)|]; cbn [fst snd]; try reflexivity;
      (destruct (retrieve env q); [|reflexivity]);
      destruct (chain_invoke env _); reflexivity.
  - unfold ask_stream_run. rewrite !ask_stream_try_run; cbv zeta.
    destruct (retrieve env q); [|reflexivity].
    destruct (snd (chain_stream env _)); reflexivity.
Qed.

Lemma run_call_counters (m : Metrics) (c : Call) :
  query_count (run_call m c)
  = (query_count m + if completes c then 1 else 0)%Z
  /\ profile_detected_count (run_call m c)
     = (profile_detected_count m + if detected c then 1 else 0)%Z.
Proof.
  rewrite run_call_metrics. unfold detected, after_detection, tracked.
  destruct c as [env q h | env q h]; cbn [call_question];
    destruct (completes _); destruct (detects q);
    cbn [track_metrics count_detected_profile query_count
         profile_detected_count]; lia.
Qed.

Lemma run_counters (calls : list Call) (m : Metrics) :
  query_count (run calls m) = (query_count m + count completes calls)%Z
  /\ profile_detected_count (run calls m)
     = (profile_detected_count m + count detected calls)%Z.
Proof.
  unfold run, count; revert m; induction calls as [|c calls IH]; intros m.
  - cbn; lia.
  - cbn [fold_left filter].
    destruct (IH (run_call m c)) as [Hq Hp].
    destruct (run_call_counters m c) as [Hq1 Hp1].
    rewrite Hq, Hp, Hq1, Hp1.
    destruct (completes c); destruct (detected c); cbn [List.length]; lia.
Qed.

Lemma count_all (f : Call -> bool) (calls : list Call) :
  forallb f calls = true -> count f calls = Z.of_nat (List.length calls).
Proof.
  unfold count; induction calls as [|c calls IH]; cbn; auto.
  intros H; apply andb_true_iff in H as [Hc H]; rewrite Hc; cbn [List.length].
  apply IH in H; lia.
Qed.

(** The rate [get_metrics] prints for [M] detections over [N] queries:
    [f"{(M / N) * 100:.1f}%"]. *)
Definition printed_rate (M N : Z) : str :=
  PyFloat.format_fixed 1
    (PrimFloat.mul (PyFloat.int_div M N) (PyFloat.of_int 100))
  ++ lit "%".

(** The integer chosen by [format_fixed] is a nearest one. *)
Lemma round_half_even_nearest (num den : Z) :
  (0 < den)%Z ->
  (2 * Z.abs (PyFloat.round_half_even num den * den - num) <= den)%Z.
Proof.
  intros Hden. unfold PyFloat.round_half_even.
  pose proof (Z.div_mod num den ltac:(lia)) as Hdm.
  pose proof (Z.mod_pos_bound num den Hden) as Hr.
  destruct (Z.compare_spec (2 * (num mod den)) den) as [E | E | E];
    [destruct (Z.even (num / den))| |]; nia.
Qed.

(** One query in three, two in three, one in eight.  For one in two
    thousand the product [0.0005 * 100] lies just above [0.05] and is
    printed as [0.1]. *)
Example printed_rates :
  printed_rate 1 3 = lit "33.3%" /\ printed_rate 2 3 = lit "66.7%"
  /\ printed_rate 1 8 = lit "12.5%" /\ printed_rate 1 2000 = lit "0.1%".
Proof. repeat split. Qed.

(** C5, as the code has it.  After any sequence of calls made on a fresh
    system, [query_count] is the number of calls that completed and
    [profile_detected_count] the number of calls in which a profile was
    detected, completed or not.  When all [N > 0] calls completed and [M] of
    them had a profile, the counters are [N] and [M] and [get_metrics]
    reports them with the rate [M/N*100] printed to one decimal.  A call
    that fails leaves everything but [profile_detected_count] as it was. *)
Theorem metrics_after_calls (calls : list Call) :
  let m := run calls initial_metrics in
  query_count m = count completes calls
  /\ profile_detected_count m = count detected calls
  /\ (calls <> [] -> forallb completes calls = true ->
      let N := Z.of_nat (List.length calls) in
      let M := count detected calls in
      query_count m = N /\ profile_detected_count m = M
      /\ exists r, get_metrics m = Report r
           /\ total_queries r = N /\ profile_detected r = M
           /\ detection_rate r = printed_rate M N)
  /\ (forall c m0, completes c = false ->
        query_count (run_call m0 c) = query_count m0
        /\ total_latency (run_call m0 c) = total_latency m0
        /\ queries (run_call m0 c) = queries m0).
Proof.
  cbv zeta.
  destruct (run_counters calls initial_metrics) as [Hq Hp].
  cbn [initial_metrics query_count profile_detected_count] in Hq, Hp.
  rewrite Z.add_0_l in Hq, Hp.
  split; [exact Hq|]. split; [exact Hp|]. split.
  - intros Hne Hall. rewrite (count_all _ _ Hall) in Hq.
    split; [exact Hq|]. split; [exact Hp|].
    unfold get_metrics.
    destruct (query_count (run calls initial_metrics) =? 0)%Z eqn:E.
    + apply Z.eqb_eq in E. destruct calls; [congruence|].
      cbn [List.length] in Hq. lia.
    + eexists; split; [reflexivity|]. cbn [total_queries profile_detected detection_rate].
      unfold printed_rate. rewrite Hq, Hp. auto.
  - intros c m0 Hc. rewrite run_call_metrics, Hc.
    unfold after_detection. destruct (detects _); auto.
Qed.

(** On a fresh system: two questions answered, one of them with a
    profile. *)
Lemma metrics_after_two_calls :
  let calls :=
    [ Ask working_env (lit "As a doctor, how do I use 4T?") None;
      AskStream working_env (lit "What is ERRC?") (Some one_turn) ] in
  let m := run calls initial_metrics in
  query_count m = 2%Z /\ profile_detected_count m = 1%Z
  /\ exists r, get_metrics m = Report r /\ detection_rate r = lit "50.0%".
Proof.
  cbv zeta.
  destruct (metrics_after_calls
              [ Ask working_env (lit "As a doctor, how do I use 4T?") None;
                AskStream working_env (lit "What is ERRC?") (Some one_turn) ])
    as [_ [_ [H _]]].
  destruct (H ltac:(discriminate) eq_refl) as [Hq [Hp [r [Hr [_ [_ Hrate]]]]]].
  split; [exact Hq|]. split; [exact Hp|].
  exists r; split; [exact Hr|]. rewrite Hrate. reflexivity.
Defined.

(** The reading under which the metrics change only once a query has
    completed. *)
Definition metrics_change_on_completion_only : Prop :=
  forall c m, completes c = false -> run_call m c = m.

(** A question with a profile whose retrieval fails: the query is not
    counted, the detection is; the rate of [get_metrics] would then be
    computed from one detection. *)
Lemma failed_call_counts_detection :
  let c := Ask (failing_env (lit "store unavailable"))
             (lit "As a doctor, how do I use 4T?") None in
  completes c = false
  /\ query_count (run_call initial_metrics c) = 0%Z
  /\ profile_detected_count (run_call initial_metrics c) = 1%Z
  /\ ~ metrics_change_on_completion_only.
Proof.
  cbv zeta. repeat split.
  intros H.
  specialize (H (Ask (failing_env (lit "store unavailable"))
                   (lit "As a doctor, how do I use 4T?") None)
                initial_metrics eq_refl).
  apply (f_equal profile_detected_count) in H. discriminate H.
Qed.

End OrchestratorProofs.

Module DetectorInvariants.
Import ProfileAwareRAGSystem StrFacts StripFacts DetectorProofs.

(** *** Substrings *)

Lemma occurs_trans (a b s : str) : occurs a b -> occurs b s -> occurs a s.
Proof.
  intros [p1 [q1 ->]] [p2 [q2 ->]].
  exists (p2 ++ p1), (q1 ++ q2). rewrite <- !app_assoc; reflexivity.
Qed.

Lemma contains_trans (a b s : str) :
  contains a b = true -> contains b s = true -> contains a s = true.
Proof.
  rewrite !contains_iff. apply occurs_trans.
Qed.

Lemma forallb_segment (f : ascii -> bool) (l m r : str) :
  forallb f (l ++ m ++ r) = true -> forallb f m = true.
Proof.
  rewrite !forallb_app, !andb_true_iff. tauto.
Qed.

Lemma forallb_occurs (f : ascii -> bool) (a s : str) :
  occurs a s -> forallb f s = true -> forallb f a = true.
Proof. intros [l [r ->]]; apply forallb_segment. Qed.

(** *** The two ways a profile is detected *)

Lemma detect_profile_cases (question : str) (info : ProfileInfo) :
  detect_profile question = Some info ->
  (exists p kw,
     keyword_hit PROFILE_KEYWORDS (lower question) p kw /\ info = named p kw)
  \/ (no_keyword PROFILE_KEYWORDS (lower question)
      /\ exists profession,
           first_proposal profession_patterns (lower question) profession
           /\ info = custom_info profession).
Proof.
  unfold detect_profile; cbv zeta. intros H.
  destruct (scan_keywords_cases PROFILE_KEYWORDS (lower question))
    as [[p [kw Hit]] | Hno].
  - left; exists p, kw; split; auto.
    rewrite (scan_keywords_hit _ _ _ _ Hit) in H. congruence.
  - right; split; auto.
    pose proof Hno as Hn. apply scan_keywords_none in Hn. rewrite Hn in H.
    destruct (scan_patterns_cases profession_patterns (lower question))
      as [[pr Hp] | Hnp].
    + exists pr; split; auto.
      rewrite (scan_patterns_first _ _ _ Hp) in H; congruence.
    + rewrite (scan_patterns_none _ _ Hnp) in H; discriminate.
Qed.

(** *** The phrase of a self-identification *)

(** Group 1 of a match is a run of [[a-z\s]] of the text searched. *)
Lemma group1_facts (lead s g : str) :
  search_profession lead s = Some g ->
  occurs g s /\ forallb profession_char g = true.
Proof.
  intros H. apply search_profession_spec in H as [pre [rest [-> [H _]]]].
  apply pattern_at_spec in H.
  assert (R : exists article, reads lead article g rest)
    by (destruct H; eauto).
  destruct R as [article [r [-> [_ [Hg _]]]]]. split; auto.
  exists (pre ++ lead ++ article ++ lit " "), r.
  rewrite <- !app_assoc; reflexivity.
Qed.

Lemma phrase_prefix (g : str) : exists rest, strip g = phrase_of g ++ rest.
Proof.
  unfold phrase_of.
  destruct (before_question_word_spec (strip g)) as [rest [H _]]; eauto.
Qed.

Lemma phrase_occurs (g : str) : occurs (phrase_of g) g.
Proof.
  destruct (phrase_prefix g) as [rest H].
  destruct (strip_segment g) as [l [r E]].
  exists l, (rest ++ r). rewrite E at 1. rewrite H, <- !app_assoc; reflexivity.
Qed.

Lemma question_word_after_blank c (rest : str) :
  is_space c = true -> question_word_at rest = true ->
  question_word_at (c :: rest) = true.
Proof.
  intros Hc H. apply question_word_at_spec in H
    as [blanks [w [r [-> [Hne [Hb Hw]]]]]].
  apply question_word_at_spec. exists (c :: blanks), w, r. repeat split; auto.
  - discriminate.
  - cbn [forallb]; rewrite Hc; exact Hb.
Qed.

(** The phrase carries no blank at either end: [strip] removed those of
    group 1, and the cut of [re.split] falls before a whole run of blanks. *)
Lemma phrase_trimmed (g : str) : trimmed (phrase_of g).
Proof.
  unfold phrase_of.
  destruct (before_question_word_spec (strip g)) as [rest [Hs [Hrest Hmin]]].
  pose proof (strip_trimmed g) as Ht.
  destruct (before_question_word (strip g)) as [|c1 mid] eqn:B; [constructor|].
  destruct (@exists_last _ (c1 :: mid) ltac:(discriminate)) as [l [c2 Hl]].
  apply (trimmed_ends c1 mid c2 l); auto.
  - rewrite Hs in Ht. inversion Ht; assumption.
  - destruct (is_space c2) eqn:E2; auto. exfalso.
    destruct Hrest as [-> | Hq].
    + rewrite app_nil_r in Hs. rewrite Hs in Ht.
      inversion Ht as [|? ? c3 last _ H3 E]. rewrite Hl in E.
      apply app_inj_tail in E as [_ <-]. congruence.
    + specialize (Hmin l [c2] Hl ltac:(discriminate)).
      cbn [app] in Hmin.
      rewrite (question_word_after_blank c2 rest E2 Hq) in Hmin. discriminate.
Qed.

(** [split()] of a text that is not all blanks gives at least one word. *)
Lemma split_ws_aux_some (cur s : str) :
  cur <> [] \/ forallb is_space s = false -> split_ws_aux cur s <> [].
Proof.
  revert cur; induction s as [|c s IH]; intros cur H; cbn [split_ws_aux].
  - destruct H as [H | H]; [|discriminate]. destruct cur; congruence.
  - destruct (is_space c) eqn:E.
    + destruct cur; [|discriminate]. apply IH. right.
      destruct H as [H | H]; [congruence|]. cbn [forallb] in H.
      rewrite E in H; exact H.
    + apply IH; left; discriminate.
Qed.

Lemma split_ws_trimmed (s : str) :
  trimmed s -> s <> [] -> 1 <= List.length (split_ws s).
Proof.
  intros [|c1 mid c2 l H1 _ _] Hne; [congruence|].
  assert (H : split_ws (c1 :: mid) <> []).
  { apply split_ws_aux_some; right. cbn [forallb]; rewrite H1; reflexivity. }
  destruct (split_ws (c1 :: mid)); [congruence | cbn; lia].
Qed.

(** *** The keywords of the table, in the order they are tried *)

Definition all_keywords : list str := flat_map snd PROFILE_KEYWORDS.

Lemma find_app {A} (f : A -> bool) (l1 l2 : list A) :
  find f (l1 ++ l2)
  = match find f l1 with Some x => Some x | None => find f l2 end.
Proof.
  induction l1 as [|x l1 IH]; simpl; auto. destruct (f x); auto.
Qed.

(** The two nested loops are one pass over the keywords in table order. *)
Lemma scan_keywords_flat table (s : str) :
  option_map detected_keyword (scan_keywords table s)
  = find (fun k => contains k s) (flat_map snd table).
Proof.
  induction table as [|[p kws] table IH]; cbn [scan_keywords flat_map snd]; auto.
  rewrite find_app. destruct (find _ kws); auto.
Qed.

(** The keywords tried before [x]. *)
Fixpoint tried_before (x : str) (l : list str) : list str :=
  match l with
  | [] => []
  | k :: l' => if str_eqb k x then [] else k :: tried_before x l'
  end.

Lemma find_tried_before (f : str -> bool) (l : list str) (x : str) :
  find f l = Some x -> forall y, In y (tried_before x l) -> f y = false.
Proof.
  induction l as [|k l IH]; cbn [find tried_before]; [discriminate|].
  destruct (f k) eqn:E.
  - intros [= <-] y. assert (R : str_eqb k k = true)
      by (apply str_eqb_eq; reflexivity).
    rewrite R; intros [].
  - intros H y. destruct (str_eqb k x); [intros []|].
    intros [<- | Hy]; auto.
Qed.

(** The keywords that contain a keyword tried before them. *)
Definition shadowed_keywords : list str :=
  map lit ["hr manager"; "hr director"; "chro"; "ceo of startup";
           "advisory"]%string.

Lemma shadowed_by_earlier (kw : str) :
  In kw shadowed_keywords ->
  exists earlier,
    In earlier (tried_before kw all_keywords) /\ contains earlier kw = true.
Proof.
  intros H. repeat (destruct H as [<- | H]); try destruct H.
  - exists (lit "hr"); split; [vm_compute; tauto | reflexivity].
  - exists (lit "hr"); split; [vm_compute; tauto | reflexivity].
  - exists (lit "hr"); split; [vm_compute; tauto | reflexivity].
  - exists (lit "startup"); split; [vm_compute; tauto | reflexivity].
  - exists (lit "advisor"); split; [vm_compute; tauto | reflexivity].
Qed.

Lemma tried_before_in (x : str) (l : list str) y :
  In y (tried_before x l) -> In y l.
Proof.
  induction l as [|k l IH]; cbn [tried_before]; auto.
  destruct (str_eqb k x); [intros [] | intros [<- | H]]; [left | right]; auto.
Qed.

Lemma keywords_not_empty (p : ProfileName) (kws : list str) (kw : str) :
  In (p, kws) PROFILE_KEYWORDS -> In kw kws -> kw <> [] /\ p <> custom.
Proof.
  assert (H : forallb (fun e => forallb nonempty (snd e)
                                && negb (str_eqb (profile_label (fst e))
                                           (lit "custom")))
                PROFILE_KEYWORDS = true) by reflexivity.
  rewrite forallb_forall in H. intros He Hk.
  specialize (H _ He). cbn [fst snd] in H.
  apply andb_true_iff in H as [Hn Hc].
  rewrite forallb_forall in Hn. specialize (Hn _ Hk).
  split; [destruct kw; [discriminate | discriminate] |].
  intros ->. discriminate Hc.
Qed.

(** *** Properties of the result *)

(** X1.  Whatever [detect_profile] returns has one of two shapes.  The
    keyword it reports is a non-empty substring of the lower-cased
    question.  Either it is a keyword of the table entry of the profile
    reported, that profile is not [custom], the confidence is high and no
    custom profile is given; or the profile is [custom], the confidence is
    medium, the custom profile is the keyword reported, and that phrase is
    made of lower-case letters and blanks only, has no blank at either end
    and has one to three words. *)
Theorem detect_profile_result_shape (question : str) (info : ProfileInfo) :
  detect_profile question = Some info ->
  occurs (detected_keyword info) (lower question)
  /\ detected_keyword info <> []
  /\ ((exists kws,
         In (profile info, kws) PROFILE_KEYWORDS
         /\ In (detected_keyword info) kws)
      /\ profile info <> custom /\ confidence info = high
      /\ custom_profile info = None
      \/ profile info = custom /\ confidence info = medium
         /\ custom_profile info = Some (detected_keyword info)
         /\ forallb profession_char (detected_keyword info) = true
         /\ strip (detected_keyword info) = detected_keyword info
         /\ 1 <= List.length (split_ws (detected_keyword info)) <= 3).
Proof.
  intros H. apply detect_profile_cases in H
    as [[p [kw [Hit ->]]] | [_ [profession [Hp ->]]]];
    cbn [named custom_info detected_keyword profile confidence custom_profile].
  - destruct Hit as [before [kws [after [Ht [_ [earlier [later [Hk [_ Ho]]]]]]]]].
    assert (He : In (p, kws) PROFILE_KEYWORDS)
      by (rewrite Ht; apply in_or_app; right; left; reflexivity).
    assert (Hin : In kw kws)
      by (rewrite Hk; apply in_or_app; right; left; reflexivity).
    destruct (keywords_not_empty p kws kw He Hin) as [Hne Hc].
    split; [exact Ho|]. split; [exact Hne|]. left. repeat split; eauto.
  - destruct Hp as [_ [lead [_ [_ [_ [g [Hs [-> [Hne Hw]]]]]]]]].
    destruct (group1_facts _ _ _ Hs) as [Hocc Hchars].
    pose proof (phrase_occurs g) as Hpo.
    pose proof (phrase_trimmed g) as Htr.
    split; [exact (occurs_trans _ _ _ Hpo Hocc)|]. split; [exact Hne|].
    right. repeat split; auto.
    + exact (forallb_occurs _ _ _ Hpo Hchars).
    + apply trimmed_strip; exact Htr.
    + apply split_ws_trimmed; assumption.
Qed.

Lemma detect_profile_result_shape_nurse :
  detect_profile (lit "As a staff nurse how do I lead my ward?")
  = Some (custom_info (lit "staff nurse"))
  /\ occurs (lit "staff nurse")
       (lower (lit "As a staff nurse how do I lead my ward?"))
  /\ strip (lit "staff nurse") = lit "staff nurse".
Proof.
  split; [reflexivity|].
  pose proof (detect_profile_result_shape
                (lit "As a staff nurse how do I lead my ward?")
                (custom_info (lit "staff nurse")) eq_refl) as [H1 [_ H2]].
  split; [exact H1|].
  destruct H2 as [[_ [Hc _]] | [_ [_ [_ [_ [Hs _]]]]]]; [|exact Hs].
  exfalso; apply Hc; reflexivity.
Defined.

(** X2.  Five keywords of the table are never reported, whatever the
    question: each contains a keyword that is tried before it ([hr] for
    [hr manager], [hr director] and [chro]; [startup] for [ceo of startup];
    [advisor] for [advisory]).  Every other keyword of the table is
    reported for some question, the keyword itself being one. *)
Theorem reported_keywords :
  (forall question info,
     detect_profile question = Some info ->
     ~ In (detected_keyword info) shadowed_keywords)
  /\ (forall kw,
        In kw all_keywords -> ~ In kw shadowed_keywords ->
        exists info,
          detect_profile kw = Some info
          /\ detected_keyword info = kw /\ confidence info = high).
Proof.
  split.
  - intros question info H Hsh.
    destruct (shadowed_by_earlier _ Hsh) as [earlier [Hin Hsub]].
    pose proof (scan_keywords_flat PROFILE_KEYWORDS (lower question)) as Hflat.
    fold all_keywords in Hflat.
    apply detect_profile_cases in H
      as [[p [kw [Hit ->]]] | [Hno [profession [Hp ->]]]].
    + rewrite (scan_keywords_hit _ _ _ _ Hit) in Hflat.
      cbn [option_map named detected_keyword] in Hflat, Hin, Hsub.
      symmetry in Hflat.
      pose proof (find_tried_before _ _ _ Hflat earlier Hin) as Hfalse.
      apply find_some in Hflat as [_ Hkw]. cbn beta in Hfalse, Hkw.
      rewrite (contains_trans _ _ _ Hsub Hkw) in Hfalse. discriminate.
    + cbn [custom_info detected_keyword] in Hin, Hsub.
      apply scan_keywords_none in Hno. rewrite Hno in Hflat.
      cbn [option_map] in Hflat. symmetry in Hflat.
      pose proof (find_none _ _ Hflat earlier
                    (tried_before_in _ _ _ Hin)) as Hfalse.
      cbn beta in Hfalse.
      destruct Hp as [_ [lead [_ [_ [_ [g [Hs [-> _]]]]]]]].
      destruct (group1_facts _ _ _ Hs) as [Hocc _].
      pose proof (occurs_trans _ _ _ (phrase_occurs g) Hocc) as Ho.
      apply contains_iff in Ho.
      rewrite (contains_trans _ _ _ Hsub Ho) in Hfalse. discriminate.
  - assert (H : forallb
                  (fun kw =>
                     existsb (str_eqb kw) shadowed_keywords
                     || match detect_profile kw with
                        | Some info =>
                            str_eqb (detected_keyword info) kw
                            && match confidence info with
                               | high => true
                               | medium => false
                               end
                        | None => false
                        end)
                  all_keywords = true) by (vm_compute; reflexivity).
    rewrite forallb_forall in H. intros kw Hin Hns.
    specialize (H kw Hin). apply orb_true_iff in H as [H | H].
    + exfalso; apply Hns. apply existsb_exists in H as [x [Hx E]].
      apply str_eqb_eq in E; subst x; exact Hx.
    + destruct (detect_profile kw) as [info|]; [|discriminate].
      exists info. apply andb_true_iff in H as [E Hc].
      apply str_eqb_eq in E. repeat split; auto.
      destruct (confidence info); [reflexivity | discriminate].
Qed.

(** *** Letter case *)






(** *** The profile context *)

(** The line [get_profile_context] falls back on. *)
Definition fallback_context : str :=
  lit "Professional focused on leadership and growth".

Lemma context_custom_head (custom_prof : str) :
  exists rest, context_custom custom_prof = NL :: rest.
Proof. unfold context_custom. eexists; reflexivity. Qed.

(** X4.  For a profile that [detect_profile] returns, [get_profile_context]
    never gives its fall-back line: a named profile has its paragraph in
    the table, and the phrase of a custom profile is not empty, so that the
    paragraph written for it is used, with the phrase in title case. *)
Theorem profile_context_of_detected (question : str) (info : ProfileInfo) :
  detect_profile question = Some info ->
  get_profile_context (profile info) (custom_profile info) <> fallback_context
  /\ (profile info <> custom ->
      contexts (profile info)
      = Some (get_profile_context (profile info) (custom_profile info)))
  /\ (profile info = custom ->
      get_profile_context (profile info) (custom_profile info)
      = context_custom (detected_keyword info)).
Proof.
  intros H. apply detect_profile_cases in H
    as [[p [kw [Hit ->]]] | [_ [profession [Hp ->]]]];
    cbn [named custom_info detected_keyword profile custom_profile].
  - destruct Hit as [before [kws [after [Ht [_ [earlier [later [Hk _]]]]]]]].
    assert (Hc : p <> custom).
    { apply (keywords_not_empty p kws kw).
      - rewrite Ht; apply in_or_app; right; left; reflexivity.
      - rewrite Hk; apply in_or_app; right; left; reflexivity. }
    split; [|split; [|congruence]].
    + destruct p; try congruence;
        intros E; apply (f_equal (@hd ascii NL)) in E; discriminate E.
    + intros _. destruct p; try congruence; reflexivity.
  - destruct Hp as [_ [lead [_ [_ [_ [g [_ [_ [Hne _]]]]]]]]].
    assert (E : get_profile_context custom (Some profession)
                = context_custom profession).
    { destruct profession; [congruence | reflexivity]. }
    rewrite E. split; [|split; [congruence | reflexivity]].
    destruct (context_custom_head profession) as [rest ->].
    discriminate.
Qed.

Lemma profile_context_of_detected_pilot :
  detect_profile (lit "I am a pilot") = Some (custom_info (lit "pilot"))
  /\ get_profile_context custom (Some (lit "pilot"))
     = context_custom (lit "pilot").
Proof.
  split; [reflexivity|].
  apply (profile_context_of_detected (lit "I am a pilot")
           (custom_info (lit "pilot")) eq_refl).
  reflexivity.
Defined.

End DetectorInvariants.

Module RetrievalProofs.
Import ProfileAwareRAGSystem StrFacts StripFacts.

(** *** Decimal numerals *)

Definition digit_step (acc : Z) (c : ascii) : Z :=
  (acc * 10 + Z.of_nat (code c - 48))%Z.

Lemma int_of_digits_fold (digits : str) :
  int_of_digits digits = fold_left digit_step digits 0%Z.
Proof. reflexivity. Qed.

Lemma fold_digits (d : Decimal.uint) (acc : nat) :
  fold_left digit_step (lit (NilEmpty.string_of_uint d)) (Z.of_nat acc)
  = Z.of_nat (Nat.of_uint_acc d acc).
Proof.
  revert acc; induction d; intros acc;
    cbn [NilEmpty.string_of_uint lit list_ascii_of_string fold_left
         Nat.of_uint_acc];
    try reflexivity;
    rewrite <- IHd; f_equal; unfold digit_step; rewrite Nat.tail_mul_spec;
    cbn [code nat_of_ascii]; vm_compute (Z.of_nat (_ - 48)); lia.
Qed.

(** [int(str(n)) == n] *)
Lemma int_of_digits_str_of_nat (n : nat) :
  int_of_digits (str_of_nat n) = Z.of_nat n.
Proof.
  rewrite int_of_digits_fold. unfold str_of_nat.
  change 0%Z with (Z.of_nat 0). rewrite fold_digits.
  change (Nat.of_uint_acc (Nat.to_uint n) 0) with (Nat.of_uint (Nat.to_uint n)).
  rewrite DecimalNat.Unsigned.of_to. reflexivity.
Qed.

Lemma string_of_uint_digits (d : Decimal.uint) :
  forallb is_digit (lit (NilEmpty.string_of_uint d)) = true.
Proof. induction d; cbn; auto. Qed.

Lemma str_of_nat_digits (n : nat) :
  forallb is_digit (str_of_nat n) = true /\ str_of_nat n <> [].
Proof.
  split; [apply string_of_uint_digits|].
  unfold str_of_nat. destruct (Nat.to_uint n) eqn:E; try discriminate.
  pose proof (DecimalNat.Unsigned.of_to n) as H. rewrite E in H.
  cbn in H. subst n. discriminate E.
Qed.

(** *** Characters *)

Lemma lower_char_fixed (c : ascii) : is_upper c = false -> lower_char c = c.
Proof. unfold lower_char; intros ->; reflexivity. Qed.

Lemma space_not_upper (c : ascii) : is_space c = true -> is_upper c = false.
Proof.
  destruct c as [[] [] [] [] [] [] [] []]; intros H;
    first [reflexivity | discriminate H].
Qed.

Lemma digit_not_upper (c : ascii) : is_digit c = true -> is_upper c = false.
Proof.
  destruct c as [[] [] [] [] [] [] [] []]; intros H;
    first [reflexivity | discriminate H].
Qed.

Lemma digit_not_space (c : ascii) : is_digit c = true -> is_space c = false.
Proof.
  destruct c as [[] [] [] [] [] [] [] []]; intros H;
    first [reflexivity | discriminate H].
Qed.

Lemma is_digit_lower_char (c : ascii) : is_digit (lower_char c) = is_digit c.
Proof. destruct c as [[] [] [] [] [] [] [] []]; reflexivity. Qed.

Lemma lower_fixed (f : ascii -> bool) (s : str) :
  (forall c, f c = true -> is_upper c = false) ->
  forallb f s = true -> lower s = s.
Proof.
  intros Hf; induction s as [|c s IH]; cbn [forallb lower map]; auto.
  intros H; apply andb_true_iff in H as [Hc Hs].
  rewrite lower_char_fixed by auto. f_equal. apply IH; exact Hs.
Qed.

Lemma lower_app (a b : str) : lower (a ++ b) = lower a ++ lower b.
Proof. apply map_app. Qed.

(** *** The pattern [session\s+(\d+)] *)

Lemma starts_with_short (p x y : str) :
  List.length p <= List.length x ->
  starts_with p (x ++ y) = starts_with p x.
Proof.
  revert x; induction p as [|a p IH]; intros [|b x] H; cbn in *; auto;
    [lia|]. rewrite IH by lia; reflexivity.
Qed.

(** The pattern anchored at the word, followed by blanks, a numeral and
    something that does not go on with a digit. *)
Lemma session_at_numeral (blanks digits rest : str) :
  blanks <> [] -> forallb is_space blanks = true ->
  digits <> [] -> forallb is_digit digits = true ->
  match rest with [] => True | c :: _ => is_digit c = false end ->
  session_at (lit "session" ++ blanks ++ digits ++ rest) = Some digits.
Proof.
  intros Hb Hbs Hd Hds Hr. unfold session_at.
  rewrite starts_with_app.
  change (skipn 7 (lit "session" ++ blanks ++ digits ++ rest))
    with (blanks ++ digits ++ rest).
  destruct blanks as [|b blanks]; [congruence|]. cbn [app].
  cbn [forallb] in Hbs. apply andb_true_iff in Hbs as [Hb1 Hb2]. rewrite Hb1.
  rewrite (drop_while_app_all is_space blanks (digits ++ rest) Hb2).
  destruct digits as [|d digits]; [congruence|].
  pose proof Hds as Hdall. cbn [forallb] in Hds.
  apply andb_true_iff in Hds as [Hd1 _].
  cbn [app drop_while]. rewrite (digit_not_space d Hd1).
  change (d :: digits ++ rest) with ((d :: digits) ++ rest).
  rewrite DetectorProofs.take_while_stop by assumption. reflexivity.
Qed.

(** No match begins before a word [session] that is the first one. *)
Lemma search_session_skip (a tail : str) :
  contains (lit "session") (a ++ lit "sessio") = false ->
  search_session (a ++ lit "session" ++ tail)
  = search_session (lit "session" ++ tail).
Proof.
  induction a as [|c a IH]; intros H; [reflexivity|].
  apply contains_cons_false in H as [Hs Hc].
  change ((c :: a) ++ lit "session" ++ tail)
    with (c :: (a ++ lit "session" ++ tail)).
  cbn [search_session]. rewrite IH by exact Hc.
  assert (E : session_at (c :: a ++ lit "session" ++ tail) = None).
  { unfold session_at.
    replace (c :: a ++ lit "session" ++ tail)
      with ((c :: a ++ lit "sessio") ++ lit "n" ++ tail)
      by (cbn [app]; rewrite <- app_assoc; reflexivity).
    rewrite starts_with_short.
    - change (starts_with (lit "session") (c :: a ++ lit "sessio") = false)
        in Hs.
      rewrite Hs; reflexivity.
    - cbn [List.length]. rewrite length_app. cbn. lia. }
  rewrite E; reflexivity.
Qed.

Lemma search_session_here (s digits : str) :
  session_at s = Some digits -> search_session s = Some digits.
Proof. intros H; destruct s; cbn [search_session]; rewrite H; reflexivity. Qed.

Lemma search_session_absent (s : str) :
  contains (lit "session") s = false -> search_session s = None.
Proof.
  induction s as [|c s IH]; intros H; [reflexivity|].
  apply contains_cons_false in H as [Hs Hc].
  cbn [search_session]. unfold session_at at 1. rewrite Hs. auto.
Qed.

(** A store that answers a filtered search with the session asked for. *)
Definition session_doc (n : Z) : Document :=
  {| page_content := lit "Notes of the session.";
     metadata := {| source_file := Some (lit "notes.pdf");
                    parent_folder := None;
                    session_number := Some n;
                    session_title := None; facilitator := None |} |}.

Definition store_env : Env :=
  {| similarity_search := fun _ _ n => Ok [session_doc n];
     retriever_invoke := fun _ => Ok [];
     chain_invoke := fun _ => Ok [];
     chain_stream := fun _ => ([], None);
     now_history := []; now_metrics := []; elapsed := 0%float |}.

(** X5.  A question that names a session by number is served by the
    filtered search.  When the first occurrence of the word [session], in
    any letter case, is followed by blanks and the decimal numeral of [n],
    the documents are those of [similarity_search] for the question as
    typed, with [k = 8] and the filter [session_number = n]: the numeral is
    read back to the number it denotes. *)
Theorem retrieve_session_filter (env : Env) (pre word blanks rest : str)
    (n : nat) :
  contains (lit "session") (lower pre ++ lit "sessio") = false ->
  lower word = lit "session" ->
  blanks <> [] -> forallb is_space blanks = true ->
  match rest with [] => True | c :: _ => is_digit c = false end ->
  let question := pre ++ word ++ blanks ++ str_of_nat n ++ rest in
  retrieve env question = similarity_search env question 8 (Z.of_nat n).
Proof.
  intros Hpre Hword Hb Hbs Hrest question. unfold retrieve.
  destruct (str_of_nat_digits n) as [Hds Hd].
  assert (E : search_session (lower question) = Some (str_of_nat n)).
  { unfold question. rewrite !lower_app, Hword.
    rewrite (lower_fixed is_space blanks space_not_upper Hbs).
    rewrite (lower_fixed is_digit (str_of_nat n) digit_not_upper Hds).
    rewrite search_session_skip by exact Hpre.
    apply search_session_here, session_at_numeral; auto.
    destruct rest as [|c rest']; cbn [lower map]; auto.
    rewrite is_digit_lower_char; exact Hrest. }
  rewrite E, int_of_digits_str_of_nat. reflexivity.
Qed.

Lemma retrieve_session_filter_twelve :
  retrieve store_env (lit "What was covered in Session 12?")
  = Ok [session_doc 12].
Proof.
  apply (retrieve_session_filter store_env (lit "What was covered in ")
           (lit "Session") (lit " ") (lit "?") 12);
    first [reflexivity | discriminate | exact I].
Defined.

(** *** Which retriever serves a question *)

(** The text holds the word [session], then blanks, then a digit. *)
Definition names_session (s : str) : Prop :=
  exists pre blanks d rest,
    s = pre ++ lit "session" ++ blanks ++ d :: rest
    /\ blanks <> [] /\ forallb is_space blanks = true /\ is_digit d = true.

Lemma session_at_some (s digits : str) :
  session_at s = Some digits ->
  exists blanks d rest,
    s = lit "session" ++ blanks ++ d :: rest
    /\ blanks <> [] /\ forallb is_space blanks = true /\ is_digit d = true
    /\ digits <> [] /\ forallb is_digit digits = true.
Proof.
  unfold session_at.
  destruct (starts_with (lit "session") s) eqn:E; [|discriminate].
  apply starts_with_iff in E as [t ->].
  change (skipn 7 (lit "session" ++ t)) with t.
  destruct t as [|c t]; [discriminate|].
  destruct (is_space c) eqn:Ec; [|discriminate].
  destruct (take_while is_digit (drop_while is_space t))
    as [|d ds] eqn:D; [discriminate|].
  intros [= <-].
  pose proof (take_while_all is_digit (drop_while is_space t)) as Hall.
  rewrite D in Hall.
  destruct (drop_while is_space t) as [|d' rest] eqn:R;
    [cbn in D; discriminate D|].
  cbn [take_while] in D. destruct (is_digit d') eqn:Ed; [|discriminate D].
  injection D as -> _.
  exists (c :: take_while is_space t), d, rest. repeat split; auto.
  - cbn [app]. do 8 f_equal. rewrite <- R. apply take_drop_while.
  - discriminate.
  - cbn [forallb]. rewrite Ec. apply take_while_all.
  - discriminate.
Qed.

Lemma session_at_digit (blanks rest : str) (d : ascii) :
  blanks <> [] -> forallb is_space blanks = true -> is_digit d = true ->
  session_at (lit "session" ++ blanks ++ d :: rest) <> None.
Proof.
  intros Hb Hbs Hd.
  rewrite (take_drop_while is_digit (d :: rest)).
  rewrite session_at_numeral; auto; try discriminate.
  - cbn [take_while]; rewrite Hd; discriminate.
  - apply take_while_all.
  - apply DetectorProofs.drop_while_stop.
Qed.

Lemma search_session_later (pre s : str) :
  search_session s <> None -> search_session (pre ++ s) <> None.
Proof.
  intros H; induction pre as [|c pre IH]; auto.
  cbn [app search_session].
  destruct (session_at (c :: pre ++ s)); [discriminate | exact IH].
Qed.

(** [re.search] finds a match exactly when there is one. *)
Lemma search_session_some (s : str) :
  (exists digits, search_session s = Some digits) <-> names_session s.
Proof.
  unfold names_session; split.
  - intros [digits H]. induction s as [|c s IH].
    + cbn [search_session] in H.
      destruct (session_at []) eqn:E; [discriminate E | discriminate H].
    + cbn [search_session] in H.
      destruct (session_at (c :: s)) as [g|] eqn:E.
      * apply session_at_some in E
          as [blanks [d [rest [E [Hb [Hbs [Hd _]]]]]]].
        exists [], blanks, d, rest; auto.
      * destruct (IH H) as [pre [blanks [d [rest [-> Hrest]]]]].
        exists (c :: pre), blanks, d, rest; auto.
  - intros [pre [blanks [d [rest [-> [Hb [Hbs Hd]]]]]]].
    pose proof (session_at_digit blanks rest d Hb Hbs Hd) as Hat.
    assert (Hs : search_session (lit "session" ++ blanks ++ d :: rest)
                 <> None).
    { destruct (session_at _) as [g|] eqn:E; [|congruence].
      rewrite (search_session_here _ _ E); discriminate. }
    apply (search_session_later pre) in Hs.
    destruct (search_session _) as [g|]; [eauto | congruence].
Qed.

Lemma search_session_digits (s digits : str) :
  search_session s = Some digits ->
  digits <> [] /\ forallb is_digit digits = true.
Proof.
  induction s as [|c s IH]; cbn [search_session].
  - destruct (session_at []) eqn:E; [discriminate E | discriminate].
  - destruct (session_at (c :: s)) as [g|] eqn:E; auto.
    intros [= <-]. apply session_at_some in E
      as [_ [_ [_ [_ [_ [_ [_ H]]]]]]]. exact H.
Qed.

(** X6.  Which retriever [retrieve] calls.  When the lower-cased question
    holds the word [session], blanks and a digit, the filtered search is
    called with [k = 8] and the number a non-empty run of digits denotes.
    In every other case (no such word; the word followed by no blank, as in
    [session3]; the word followed by something else than a digit, as in
    [session three] or [sessions 3]) the default retriever is called.  The
    question is passed on as typed. *)
Theorem retrieve_routing (env : Env) (question : str) :
  (names_session (lower question)
   /\ exists digits,
        digits <> [] /\ forallb is_digit digits = true
        /\ retrieve env question
           = similarity_search env question 8 (int_of_digits digits))
  \/ (~ names_session (lower question)
      /\ retrieve env question = retriever_invoke env question).
Proof.
  unfold retrieve.
  destruct (search_session (lower question)) as [digits|] eqn:E.
  - left. split; [apply search_session_some; eauto|].
    exists digits. destruct (search_session_digits _ _ E); auto.
  - right. split; auto.
    intros H. apply search_session_some in H as [digits H]. congruence.
Qed.

Example near_misses :
  ~ names_session (lit "notes of session3")
  /\ ~ names_session (lit "what was session three about")
  /\ ~ names_session (lit "sessions 3 and 4")
  /\ names_session (lit "compare session 3 and session 4").
Proof.
  repeat split; try (intros H; apply search_session_some in H as [d H];
                     discriminate H).
  apply search_session_some. eexists; reflexivity.
Qed.

End RetrievalProofs.

Module FormatDocsProofs.
Import ProfileAwareRAGSystem StrFacts StripFacts.

(** *** The context handed to the model *)

(** The separator [_format_docs] joins the documents with. *)
Definition doc_separator : str := [NL; NL] ++ lit "---" ++ [NL; NL].

Lemma join_occurs (sep : str) (parts : list str) (p : str) :
  In p parts -> occurs p (join sep parts).
Proof.
  induction parts as [|x parts IH]; [intros []|].
  intros [<- | H].
  - destruct parts as [|y parts]; cbn [join].
    + exists [], []; rewrite app_nil_r; reflexivity.
    + exists [], (sep ++ join sep (y :: parts)); reflexivity.
  - destruct parts as [|y parts]; [destruct H|].
    change (join sep (x :: y :: parts))
      with (x ++ sep ++ join sep (y :: parts)).
    apply occurs_app_r, occurs_app_r, IH, H.
Qed.

Lemma format_doc_ends (doc : Document) :
  exists head, format_doc doc = head ++ page_content doc.
Proof.
  unfold format_doc. destruct (header_parts doc) as [|p parts].
  - exists []; reflexivity.
  - eexists. rewrite !app_assoc. reflexivity.
Qed.

Lemma header_parts_length (doc : Document) :
  List.length (header_parts doc) <= 4.
Proof.
  unfold header_parts; cbv zeta. rewrite !length_app.
  repeat match goal with
         | |- context [if ?b then _ else _] => destruct b
         end; cbn [List.length]; lia.
Qed.

(** X7.  No document is lost or cut on its way to the prompt.  The context
    of an empty retrieval is the empty string.  Otherwise the text of every
    retrieved document occurs whole in the context, after a header of at
    most four fields; a document none of whose four fields is usable is
    passed without a header. *)
Theorem format_docs_keeps_content (docs : list Document) :
  (docs = [] -> _format_docs docs = [])
  /\ (forall doc,
        In doc docs ->
        occurs (format_doc doc) (_format_docs docs)
        /\ occurs (page_content doc) (_format_docs docs)
        /\ (exists head, format_doc doc = head ++ page_content doc)
        /\ List.length (header_parts doc) <= 4
        /\ (header_parts doc = [] -> format_doc doc = page_content doc)).
Proof.
  split; [intros ->; reflexivity|].
  intros doc Hin.
  assert (Ho : occurs (format_doc doc) (_format_docs docs)).
  { unfold _format_docs. apply join_occurs, in_map, Hin. }
  destruct (format_doc_ends doc) as [head Hhead].
  repeat split; auto.
  - destruct Ho as [pre [post ->]]. rewrite Hhead.
    exists (pre ++ head), post. rewrite <- !app_assoc; reflexivity.
  - eauto.
  - apply header_parts_length.
  - unfold format_doc; intros ->; reflexivity.
Qed.

(** *** Values that count as missing *)

(** The test [parent_folder and parent_folder != 'lms_content']. *)
Definition usable_folder (md : Metadata) : bool :=
  let folder := get_default (parent_folder md) [] in
  nonempty folder && negb (str_eqb folder (lit "lms_content")).

(** The metadata with every value the module takes for missing removed: a
    session number of zero, an empty facilitator, an empty folder or the
    folder [lms_content], and a session title that is empty or comes
    without a session number. *)
Definition without_unused (md : Metadata) : Metadata :=
  {| source_file := source_file md;
     parent_folder := if usable_folder md then parent_folder md else None;
     session_number :=
       if truthy_int (session_number md) then session_number md else None;
     session_title :=
       if truthy_int (session_number md) && truthy_str (session_title md)
       then session_title md else None;
     facilitator :=
       if truthy_str (facilitator md) then facilitator md else None |}.

Definition with_metadata (doc : Document) (md : Metadata) : Document :=
  {| page_content := page_content doc; metadata := md |}.

Lemma usable_folder_kept (md : Metadata) :
  usable_folder (without_unused md) = usable_folder md.
Proof.
  unfold usable_folder at 1. cbn [without_unused parent_folder].
  destruct (usable_folder md) eqn:E; [exact E | reflexivity].
Qed.

Lemma usable_folder_value (md : Metadata) :
  usable_folder md = true ->
  get_default (parent_folder (without_unused md)) []
  = get_default (parent_folder md) [].
Proof. cbn [without_unused parent_folder]. intros ->; reflexivity. Qed.

Lemma truthy_int_kept (o : option Z) :
  truthy_int (if truthy_int o then o else None) = truthy_int o.
Proof. destruct (truthy_int o) eqn:E; [exact E | reflexivity]. Qed.

Lemma truthy_str_kept (o : option str) :
  truthy_str (if truthy_str o then o else None) = truthy_str o.
Proof. destruct (truthy_str o) eqn:E; [exact E | reflexivity]. Qed.

(** X8.  A metadata value that is present but falsy is treated as a key
    that is missing.  Removing a session number of zero, an empty
    facilitator, an empty folder or the folder [lms_content], and a session
    title that is empty or has no session number to go with, changes
    neither the header of the document in the context, nor the kind and
    the text of its reference. *)
Theorem unused_metadata_ignored (doc : Document) :
  let doc' := with_metadata doc (without_unused (metadata doc)) in
  format_doc doc' = format_doc doc
  /\ type (get_source_reference doc') = type (get_source_reference doc)
  /\ reference_text (get_source_reference doc')
     = reference_text (get_source_reference doc)
  /\ clean_name (get_source_reference doc')
     = clean_name (get_source_reference doc).
Proof.
  cbv zeta. destruct doc as [content md].
  unfold with_metadata; cbn [page_content metadata].
  pose proof (usable_folder_kept md) as Hf.
  pose proof (usable_folder_value md) as Hv.
  unfold usable_folder in Hf, Hv.
  repeat split.
  - unfold format_doc, header_parts; cbn [page_content metadata]. cbv zeta.
    rewrite Hf.
    cbn [without_unused source_file session_number session_title facilitator].
    rewrite truthy_int_kept, truthy_str_kept.
    destruct (nonempty (get_default (parent_folder md) [])
              && negb (str_eqb (get_default (parent_folder md) [])
                               (lit "lms_content"))) eqn:F;
      [rewrite (Hv eq_refl)|];
      (destruct (truthy_int (session_number md)) eqn:S; cbn [andb];
       [destruct (truthy_str (session_title md)) eqn:T;
        [|destruct (session_title md) as [[|? ?]|]; try discriminate T]|]);
      destruct (truthy_str (facilitator md)) eqn:Fa; reflexivity.
  - unfold get_source_reference; cbn [metadata]. cbv zeta.
    rewrite Hf.
    cbn [without_unused source_file session_number facilitator].
    rewrite truthy_int_kept.
    destruct (truthy_int (session_number md)); [reflexivity|].
    destruct (nonempty (get_default (parent_folder md) [])
              && negb (str_eqb (get_default (parent_folder md) [])
                               (lit "lms_content")));
      destruct (mentions_any _ _); reflexivity.
  - unfold get_source_reference; cbn [metadata]. cbv zeta.
    rewrite Hf.
    cbn [without_unused source_file session_number facilitator].
    rewrite truthy_int_kept, truthy_str_kept.
    destruct (truthy_int (session_number md)) eqn:S.
    + destruct (truthy_str (facilitator md)) eqn:Fa; reflexivity.
    + destruct (nonempty (get_default (parent_folder md) [])
                && negb (str_eqb (get_default (parent_folder md) [])
                                 (lit "lms_content"))) eqn:F;
        [rewrite (Hv eq_refl)|];
        destruct (mentions_any _ _); reflexivity.
  - unfold get_source_reference; cbn [metadata]. cbv zeta.
    rewrite Hf.
    cbn [without_unused source_file session_number facilitator].
    rewrite truthy_int_kept.
    destruct (truthy_int (session_number md)); [reflexivity|].
    destruct (nonempty (get_default (parent_folder md) [])
              && negb (str_eqb (get_default (parent_folder md) [])
                               (lit "lms_content")));
      destruct (mentions_any _ _); reflexivity.
Qed.

(** A chunk of the root folder with a session number of zero, a title and
    an empty facilitator: it is cited and headed by its file alone. *)
Example unused_metadata_example :
  let doc :=
    {| page_content := lit "Welcome";
       metadata := {| source_file := Some (lit "1. Welcome Note.pdf");
                      parent_folder := Some (lit "lms_content");
                      session_number := Some 0%Z;
                      session_title := Some (lit "Kick-off");
                      facilitator := Some [] |} |} in
  format_doc doc = lit "[Source: Welcome Note]" ++ [NL] ++ lit "Welcome"
  /\ reference_text (get_source_reference doc)
     = Some (lit "For more details, refer to **Welcome Note**.").
Proof. cbv zeta. split; reflexivity. Qed.

End FormatDocsProofs.

Module CleanAnswerInvariants.
Import ProfileAwareRAGSystem StrFacts StripFacts CleanAnswerProofs.
Import CitationProofs.

(** *** The three substitutions *)

(** The answer after the first two substitutions, each followed by
    [strip()]. *)
Definition after_two_patterns (answer : str) : str :=
  fold_left (fun answer p => strip (remove_section (fst p) (snd p) answer))
            (firstn 2 patterns) answer.

Lemma after_two_patterns_clear (answer : str) :
  contains_ci pointer (after_two_patterns answer) = false.
Proof.
  unfold after_two_patterns, patterns. cbn [firstn fold_left fst snd].
  apply (strip_section_clears
           (tv_emoji, [lit "For more details"; lit "For further details"])).
  - reflexivity.
  - left; reflexivity.
Qed.

(** X9.  The third pattern of the clean-up, the pointer with the book
    pictograph before it, never removes anything: the second pattern has
    removed every pointer already, with or without a pictograph before it.
    A book pictograph that preceded a pointer therefore stays in the
    answer. *)
Theorem third_pattern_idle (answer : str) :
  strip_boilerplate answer = after_two_patterns answer
  /\ remove_section books_emoji [lit "For more details"]
       (after_two_patterns answer)
     = after_two_patterns answer.
Proof.
  assert (R : remove_section books_emoji [lit "For more details"]
                (after_two_patterns answer)
              = after_two_patterns answer).
  { apply remove_section_absent. intros text [<- | []].
    apply after_two_patterns_clear. }
  split; [|exact R].
  unfold strip_boilerplate.
  change patterns
    with (firstn 2 patterns ++ [(books_emoji, [lit "For more details"])]).
  rewrite fold_left_app. fold (after_two_patterns answer).
  cbn [fold_left fst snd]. rewrite R.
  unfold after_two_patterns, patterns. cbn [firstn fold_left fst snd].
  apply strip_idem.
Qed.

Example book_pictograph_left :
  strip_boilerplate (lit "Use 4T. 📚 For more details, see Session 3.")
  = lit "Use 4T. 📚"
  /\ strip_boilerplate (lit "Use 4T. 📺 For more details, see Session 3.")
     = lit "Use 4T.".
Proof. split; reflexivity. Qed.

(** *** The answer returned *)

Lemma keeps_no_run (run : nat) (s : str) :
  run <= 2 -> keeps run s = true ->
  contains [NL; NL; NL] (repeat NL run ++ s) = false.
Proof.
  revert run; induction s as [|c s IH]; intros run Hrun H.
  - rewrite app_nil_r.
    destruct run as [|[|[|run]]]; [reflexivity.. | lia].
  - cbn [keeps] in H. destruct (is_nl c) eqn:E.
    + apply andb_true_iff in H as [H1 H2]. apply Nat.ltb_lt in H1.
      apply is_nl_eq in E; subst c.
      rewrite repeat_shift. apply IH; [lia | exact H2].
    + specialize (IH 0 ltac:(lia) H). cbn [repeat app] in IH.
      assert (N : Ascii.eqb NL c = false).
      { rewrite Ascii.eqb_sym. exact E. }
      destruct run as [|[|[|run]]]; [| | | lia];
        cbn [repeat app contains starts_with]; rewrite ?Ascii.eqb_refl, N;
        cbn [andb orb]; exact IH.
Qed.

(** X10.  Whatever the model wrote, whatever the question and whether or
    not a citation is appended, the answer [clean_answer] returns has no
    blank at either end and never three newlines in a row. *)
Theorem clean_answer_tidy (answer question : str) (source_ref : option str) :
  let final := clean_answer answer question source_ref in
  strip final = final
  /\ lstrip final = final /\ rstrip final = final
  /\ contains [NL; NL; NL] final = false.
Proof.
  cbv zeta. unfold clean_answer.
  set (text := add_reference (strip_boilerplate answer) question source_ref).
  pose proof (strip_trimmed (collapse_blank_lines text)) as Ht.
  assert (Hs : strip (strip (collapse_blank_lines text))
               = strip (collapse_blank_lines text)) by apply strip_idem.
  split; [exact Hs|]. split; [|split].
  - inversion Ht as [|c1 mid c2 l H1 H2 E]; [reflexivity|].
    apply lstrip_fixed; exact H1.
  - inversion Ht as [|c1 mid c2 l H1 H2 E]; [reflexivity|].
    rewrite E. apply rstrip_fixed; exact H2.
  - apply (keeps_no_run 0); [lia|].
    apply keeps_strip. apply keeps_collapse.
Qed.

End CleanAnswerInvariants.

Module OrchestratorInvariants.
Import ProfileAwareRAGSystem StrFacts StripFacts OrchestratorProofs.

(** *** The history [ask] returns *)

Lemma app_one_neq {A} (l : list A) (x : A) : l ++ [x] <> l.
Proof.
  intros H. apply (f_equal (@List.length A)) in H.
  rewrite length_app in H. cbn in H. lia.
Qed.

Lemma firstn_own {A} (l tail : list A) :
  firstn (List.length l) (l ++ tail) = l.
Proof. induction l as [|x l IH]; cbn; [reflexivity | f_equal; exact IH]. Qed.

(** X11.  [ask] never rewrites the history it is given: the history it
    returns is that history, or that history with one turn added.  It is
    unchanged exactly when the call failed, and the answer is then the
    error text; otherwise the turn added holds the question as typed and
    the very answer returned, which has no blank at either end.  A history
    of [None] stands for the empty one. *)
Theorem ask_history_append_only (env : Env) (question : str)
    (history : option (list Turn)) (m : Metrics) :
  let given := get_default history [] in
  let r := fst (ask env question history m) in
  firstn (List.length given) (updated_history r) = given
  /\ ((updated_history r = given
       /\ exists e, ask_raises env question given m e
                    /\ answer r = error_marker ++ e)
      \/ (updated_history r = given ++ [recorded env question (answer r)]
          /\ updated_history r <> given
          /\ (forall e, ~ ask_raises env question given m e)
          /\ strip (answer r) = answer r)).
Proof.
  cbv zeta. unfold ask, ask_raises.
  rewrite ask_try_run.
  destruct (ask_detect question m) as [[[profile_info profile_context]|e] m1];
    cbn [fst snd answer updated_history].
  - destruct (retrieve env question) as [docs|e];
      cbn [fst snd answer updated_history].
    + destruct (chain_invoke env _) as [text|e];
        cbn [fst snd answer updated_history].
      * split; [apply firstn_own|]. right.
        split; [reflexivity|]. split; [apply app_one_neq|].
        split; [intros e; discriminate|].
        unfold clean_answer. apply strip_idem.
      * split; [apply firstn_all|]. left; split; eauto.
    + split; [apply firstn_all|]. left; split; eauto.
  - split; [apply firstn_all|]. left; split; eauto.
Qed.

(** *** The log of queries *)

(** The entry the block under [# Track metrics] appends for a call. *)
Definition log_entry (c : Call) : QueryLog :=
  match c with
  | Ask env q _ | AskStream env q _ =>
      {| log_timestamp := now_metrics env;
         log_question := slice_to 50 q ++ lit "...";
         log_profile := logged_profile (detect_profile q);
         log_latency := elapsed env |}
  end.

Lemma run_call_queries (m : Metrics) (c : Call) :
  queries (run_call m c)
  = queries m ++ (if completes c then [log_entry c] else []).
Proof.
  rewrite run_call_metrics. unfold after_detection, tracked, log_entry.
  destruct c as [env q h | env q h]; cbn [call_question];
    destruct (completes _); destruct (detects q);
    cbn [track_metrics count_detected_profile queries];
    rewrite ?app_nil_r; reflexivity.
Qed.

Lemma run_queries (calls : list Call) (m : Metrics) :
  queries (run calls m)
  = queries m ++ map log_entry (filter completes calls).
Proof.
  unfold run; revert m; induction calls as [|c calls IH]; intros m.
  - cbn. rewrite app_nil_r; reflexivity.
  - cbn [fold_left filter]. rewrite IH, run_call_queries.
    destruct (completes c); cbn [map]; rewrite <- app_assoc; reflexivity.
Qed.

Lemma run_call_latency (m : Metrics) (c : Call) :
  total_latency (run_call m c)
  = if completes c
    then PrimFloat.add (total_latency m) (log_latency (log_entry c))
    else total_latency m.
Proof.
  rewrite run_call_metrics. unfold after_detection, tracked, log_entry.
  destruct c as [env q h | env q h]; cbn [call_question];
    destruct (completes _); destruct (detects q); reflexivity.
Qed.

Lemma run_latency (calls : list Call) (m : Metrics) :
  total_latency (run calls m)
  = fold_left PrimFloat.add
      (map log_latency (map log_entry (filter completes calls)))
      (total_latency m).
Proof.
  unfold run; revert m; induction calls as [|c calls IH]; intros m;
    [reflexivity|].
  cbn [fold_left filter]. rewrite IH, run_call_latency.
  destruct (completes c); reflexivity.
Qed.

Lemma slice_last_length {A} (n : nat) (l : list A) :
  List.length (slice_last n l) = Nat.min n (List.length l).
Proof. unfold slice_last. rewrite length_skipn. lia. Qed.

Lemma slice_last_suffix {A} (n : nat) (l : list A) :
  exists older, l = older ++ slice_last n l.
Proof.
  unfold slice_last. exists (firstn (List.length l - n) l).
  symmetry; apply firstn_skipn.
Qed.

(** X12.  On a system that starts fresh, the log [metrics['queries']] holds
    one entry for every call that completed, in the order of the calls and
    none for a call that failed, so that its length is [query_count]: the
    log is never trimmed.  [total_latency] is the sum of the latencies
    logged, added in that order.  An entry holds the first fifty characters
    of the question followed by three dots, also when the question is
    shorter.  Once a query is counted, [get_metrics] reports the last
    entries of the log, five of them at most. *)
Theorem query_log_invariant (calls : list Call) :
  let m := run calls initial_metrics in
  queries m = map log_entry (filter completes calls)
  /\ Z.of_nat (List.length (queries m)) = query_count m
  /\ total_latency m
     = fold_left PrimFloat.add (map log_latency (queries m)) 0%float
  /\ (forall entry,
        In entry (queries m) ->
        List.length (log_question entry) <= 53
        /\ exists head,
             log_question entry = head ++ lit "..."
             /\ List.length head <= 50)
  /\ match get_metrics m with
     | RawMetrics m' => m' = m /\ queries m = []
     | Report r =>
         List.length (recent_queries r)
         = Nat.min 5 (List.length (queries m))
         /\ exists older, queries m = older ++ recent_queries r
     end.
Proof.
  cbv zeta.
  pose proof (run_queries calls initial_metrics) as Hq.
  cbn [initial_metrics queries app] in Hq.
  destruct (run_counters calls initial_metrics) as [Hc _].
  cbn [initial_metrics query_count] in Hc. rewrite Z.add_0_l in Hc.
  assert (Hlen : Z.of_nat (List.length (queries (run calls initial_metrics)))
                 = query_count (run calls initial_metrics)).
  { rewrite Hq, Hc, length_map. reflexivity. }
  split; [exact Hq|]. split; [exact Hlen|]. split; [|split].
  - rewrite Hq. apply (run_latency calls initial_metrics).
  - intros entry Hin. rewrite Hq in Hin.
    apply in_map_iff in Hin as [c [<- _]].
    assert (H : forall q : str, List.length (slice_to 50 q) <= 50).
    { intros q. unfold slice_to. rewrite length_firstn. lia. }
    destruct c as [env q h | env q h]; cbn [log_entry log_question];
      (split; [rewrite length_app; specialize (H q);
               change (List.length (lit "...")) with 3; lia|]);
      (exists (slice_to 50 q); split; [reflexivity | apply H]).
  - unfold get_metrics.
    destruct (query_count (run calls initial_metrics) =? 0)%Z eqn:E.
    + split; [reflexivity|]. apply Z.eqb_eq in E. rewrite E in Hlen.
      destruct (queries (run calls initial_metrics)); [reflexivity|].
      cbn [List.length] in Hlen. lia.
    + cbn [recent_queries]. split.
      * apply slice_last_length.
      * apply slice_last_suffix.
Qed.

(** Seven questions answered: seven entries, the last five reported. *)
Example query_log_of_seven :
  let calls :=
    repeat (Ask working_env (lit "What is ERRC?") None) 7 in
  let m := run calls initial_metrics in
  List.length (queries m) = 7
  /\ exists r, get_metrics m = Report r
               /\ List.length (recent_queries r) = 5
               /\ map log_question (recent_queries r)
                  = repeat (lit "What is ERRC?...") 5.
Proof. cbv zeta. split; [reflexivity|]. eexists. repeat split. Qed.

End OrchestratorInvariants.

Module ApiProofs.
Import Api StrFacts StripFacts OrchestratorProofs.

(** *** The events of [chat_stream] *)

(** The chunk is sent to the client. *)
Definition forwarded (chunk : str) : bool :=
  negb (starts_with history_update_prefix chunk).

Lemma forward_events_run (full_answer : str) (chunks : list str) :
  forward_events full_answer chunks
  = (map MessageEvent (filter forwarded chunks),
     full_answer ++ List.concat (filter forwarded chunks)).
Proof.
  revert full_answer; induction chunks as [|chunk rest IH]; intros full_answer.
  - cbn. rewrite app_nil_r; reflexivity.
  - cbn [forward_events filter].
    assert (F : forwarded chunk
                = negb (starts_with history_update_prefix chunk))
      by reflexivity.
    rewrite F. destruct (starts_with history_update_prefix chunk); cbn [negb].
    + apply IH.
    + rewrite IH. cbn [map List.concat]. rewrite <- app_assoc. reflexivity.
Qed.

Lemma event_generator_run (chunks : list str) :
  event_generator chunks None
  = map MessageEvent (filter forwarded chunks)
    ++ [DoneEvent (List.concat (filter forwarded chunks))].
Proof. unfold event_generator. rewrite forward_events_run. reflexivity. Qed.

Definition is_error_event (ev : Event) : bool :=
  match ev with ErrorEvent _ => true | _ => false end.

Definition is_done_event (ev : Event) : bool :=
  match ev with DoneEvent _ => true | _ => false end.

(** The chunks of the message events, in order. *)
Fixpoint message_chunks (events : list Event) : list str :=
  match events with
  | [] => []
  | MessageEvent chunk :: rest => chunk :: message_chunks rest
  | _ :: rest => message_chunks rest
  end.

Lemma message_chunks_app (a b : list Event) :
  message_chunks (a ++ b) = message_chunks a ++ message_chunks b.
Proof.
  induction a as [|[c|f|e] a IH]; cbn [app message_chunks]; auto.
  rewrite IH; reflexivity.
Qed.

Lemma message_chunks_messages (chunks : list str) :
  message_chunks (map MessageEvent chunks) = chunks.
Proof. induction chunks as [|c chunks IH]; cbn; [|rewrite IH]; reflexivity. Qed.

Lemma filter_forwarded (chunks : list str) :
  forallb forwarded (filter forwarded chunks) = true.
Proof.
  induction chunks as [|c chunks IH]; cbn [filter]; auto.
  destruct (forwarded c) eqn:E; cbn [forallb]; rewrite ?E; auto.
Qed.

Lemma no_event_among_messages (f : Event -> bool) (chunks : list str) :
  (forall c, f (MessageEvent c) = false) ->
  existsb f (map MessageEvent chunks) = false.
Proof.
  intros H; induction chunks as [|c chunks IH]; cbn; auto.
  rewrite H; exact IH.
Qed.

(** X13.  The two chat endpoints answer with status 503 as long as the
    system is not initialised, and leave it so.  Once it is, neither of
    them raises.  The stream of [chat_stream] consists of message events
    closed by a single [done] event and holds no [error] event, whatever
    fails in between; no message carries a chunk that starts with the
    history marker; and the [full_answer] of the [done] event is the
    concatenation of the chunks sent. *)
Theorem chat_endpoints_never_fail (env : Env) (request : ChatRequest) :
  chat None env request = (HTTPException 503 not_initialized, None)
  /\ chat_stream None env request = (HTTPException 503 not_initialized, None)
  /\ (forall m,
        chat (Some m) env request
        = (Returned
             (fst (ask env (req_question request)
                     (Some (req_conversation_history request)) m)),
           Some (snd (ask env (req_question request)
                        (Some (req_conversation_history request)) m))))
  /\ (forall m,
        exists events full_answer,
          chat_stream (Some m) env request
          = (Returned (events ++ [DoneEvent full_answer]),
             Some (snd (ask_stream env (req_question request)
                          (Some (req_conversation_history request)) m)))
          /\ existsb is_error_event events = false
          /\ existsb is_done_event events = false
          /\ events = map MessageEvent (message_chunks events)
          /\ forallb forwarded (message_chunks events) = true
          /\ full_answer = List.concat (message_chunks events)).
Proof.
  split; [reflexivity|]. split; [reflexivity|]. split.
  - intros m. unfold chat.
    destruct (ask env _ _ m) as [[a h] m']. reflexivity.
  - intros m. unfold chat_stream.
    destruct (ask_stream env _ _ m) as [chunks m'].
    rewrite event_generator_run. cbn [snd].
    exists (map MessageEvent (filter forwarded chunks)),
           (List.concat (filter forwarded chunks)).
    rewrite message_chunks_messages.
    repeat split; try apply no_event_among_messages; auto.
    apply filter_forwarded.
Qed.

(** *** What [ask_stream] yields, as the endpoint sees it *)

Lemma marker_not_forwarded (n : nat) :
  forwarded (yielded (HistoryMarker n)) = false.
Proof.
  unfold forwarded, yielded, history_update_prefix.
  rewrite starts_with_app. reflexivity.
Qed.

Lemma reference_forwarded (question : str) (docs : list Document) :
  filter forwarded (map yielded (reference_yielded question docs))
  = map yielded (reference_yielded question docs).
Proof.
  unfold reference_yielded; cbv zeta. destruct (_ && _); reflexivity.
Qed.

Lemma chunks_yielded_strings (chunks : list str) :
  map yielded (chunks_yielded chunks) = filter nonempty chunks.
Proof.
  unfold chunks_yielded. rewrite map_map. cbn [yielded].
  apply map_id.
Qed.

Lemma filter_all {A} (f : A -> bool) (l : list A) :
  forallb f l = true -> filter f l = l.
Proof.
  induction l as [|x l IH]; cbn; auto.
  intros H; apply andb_true_iff in H as [Hx Hl]. rewrite Hx, IH; auto.
Qed.

Lemma forallb_filter {A} (f g : A -> bool) (l : list A) :
  forallb f l = true -> forallb f (filter g l) = true.
Proof.
  induction l as [|x l IH]; cbn; auto.
  intros H; apply andb_true_iff in H as [Hx Hl].
  destruct (g x); cbn; rewrite ?Hx; auto.
Qed.

Lemma concat_nonempty (chunks : list str) :
  List.concat (filter nonempty chunks) = List.concat chunks.
Proof.
  induction chunks as [|[|c chunk] chunks IH]; cbn [filter nonempty List.concat];
    auto. rewrite IH; reflexivity.
Qed.

(** The request of a question asked with a history. *)
Definition request_of (question : str) (history : list Turn) : ChatRequest :=
  {| req_question := question; req_session_id := [];
     req_conversation_history := history |}.

(** X14.  A streamed answer that completes.  The client receives the
    chunks of the model that are not empty, then the citation if one is
    due, then [done]; the history marker of [ask_stream] is withheld, and
    so is any chunk of the model that happens to start with the marker.
    When no chunk does, the [full_answer] of the [done] event is the answer
    [ask_stream] recorded followed by the citation: what the client
    receives as the full answer is not what the generator put in its
    history whenever a citation is sent. *)
Theorem chat_stream_of_success (env : Env) (request : ChatRequest)
    (m : Metrics) (updated : list Turn) :
  fst (ask_stream_try env (req_question request)
         (req_conversation_history request) (m, [])) = Ok updated ->
  exists docs chunks,
    retrieve env (req_question request) = Ok docs
    /\ chain_stream env
         (chain_input (_format_docs docs)
            (stream_context (req_question request))
            (req_conversation_history request) (req_question request))
       = (chunks, None)
    /\ let sent :=
         filter forwarded (filter nonempty chunks)
         ++ map yielded (reference_yielded (req_question request) docs) in
       fst (chat_stream (Some m) env request)
       = Returned (map MessageEvent sent ++ [DoneEvent (List.concat sent)])
       /\ (forallb forwarded chunks = true ->
           List.concat sent
           = List.concat chunks
             ++ List.concat
                  (map yielded
                     (reference_yielded (req_question request) docs))).
Proof.
  unfold chat_stream, ask_stream, ask_stream_run; cbn [get_default].
  rewrite ask_stream_try_run; cbv zeta.
  destruct (retrieve env _) as [docs|e1]; cbn [fst]; [|discriminate].
  destruct (chain_stream env _) as [chunks [e2|]] eqn:E; cbn [fst snd];
    [discriminate|].
  intros _. exists docs, chunks.
  split; [reflexivity|]. split; [exact E|]. split.
  - rewrite event_generator_run. rewrite !map_app, !filter_app.
    rewrite chunks_yielded_strings, reference_forwarded.
    cbn [map filter]. rewrite marker_not_forwarded, app_nil_r.
    rewrite <- map_app. reflexivity.
  - intros H. rewrite concat_app.
    rewrite (filter_all forwarded) by (apply forallb_filter; exact H).
    rewrite concat_nonempty. reflexivity.
Qed.

(** The user asks for the source; the model answers in two chunks. *)
Lemma chat_stream_of_success_example :
  fst (chat_stream (Some initial_metrics) streaming_env
         (request_of (lit "show source for 4T") one_turn))
  = Returned
      [ MessageEvent (lit "Target, Time, ");
        MessageEvent (lit "Team, Theme. For more details see the deck.");
        MessageEvent
          ([NL; NL]
           ++ lit "📚 For more details, refer to **Session 3** videos and documentation (PPT/PDF).");
        DoneEvent
          (lit "Target, Time, Team, Theme. For more details see the deck."
           ++ [NL; NL]
           ++ lit "📚 For more details, refer to **Session 3** videos and documentation (PPT/PDF).") ].
Proof.
  destruct (chat_stream_of_success streaming_env
              (request_of (lit "show source for 4T") one_turn)
              initial_metrics
              (one_turn
               ++ [recorded streaming_env (lit "show source for 4T")
                     (lit "Target, Time, Team, Theme. For more details see the deck.")])
              eq_refl)
    as [docs [chunks [Hd [Hc [Hsent _]]]]].
  injection Hd as <-. injection Hc as <-.
  rewrite Hsent. reflexivity.
Defined.



(** *** Feedback *)

Section Feedback.

Variable http_exception_text : nat -> str -> str.

(** The row [submit_feedback] stores for a request. *)
Definition stored_row (feedback : FeedbackRequest) (assigned : Z * str)
    : Feedback :=
  {| row_id := fst assigned;
     row_session_id := fb_session_id feedback;
     row_message_id := fb_message_id feedback;
     row_question := fb_question feedback;
     row_answer := fb_answer feedback;
     row_rating := fb_rating feedback;
     row_timestamp := snd assigned;
     row_user_comment := fb_user_comment feedback |}.

Lemma submit_feedback_run (db : Session) (feedback : FeedbackRequest)
    (table : list Feedback) :
  submit_feedback http_exception_text db feedback table
  = if invalid_rating (fb_rating feedback)
    then (HTTPException 500 (http_exception_text 400 rating_detail), table)
    else
      match commit db with
      | Raise e => (HTTPException 500 e, table)
      | Ok assigned =>
          match refresh db with
          | Raise e =>
              (HTTPException 500 e, table ++ [stored_row feedback assigned])
          | Ok _ =>
              (Returned {| success := true;
                           response_message :=
                             lit "Feedback submitted successfully";
                           feedback_id := fst assigned |},
               table ++ [stored_row feedback assigned])
          end
      end.
Proof.
  unfold submit_feedback, submit_feedback_try, bind, lift, modify, raise, ret.
  destruct (invalid_rating _); [reflexivity|].
  destruct (commit db) as [assigned|e]; [|reflexivity].
  destruct (refresh db) as [[]|e]; reflexivity.
Qed.

(** X16.  A rating other than [positive] and [negative] is refused with
    status 500, not with the status 400 the endpoint raises for it: the
    exception is raised inside the [try] block, whose [except Exception]
    clause turns it into a 500 that carries the text of the 400.  Nothing
    is stored.  More generally, [submit_feedback] never answers with a
    status other than 500 when it fails. *)
Theorem invalid_rating_answers_500 (db : Session) (feedback : FeedbackRequest)
    (table : list Feedback) :
  (invalid_rating (fb_rating feedback) = true ->
   submit_feedback http_exception_text db feedback table
   = (HTTPException 500 (http_exception_text 400 rating_detail), table))
  /\ (forall status detail,
        fst (submit_feedback http_exception_text db feedback table)
        = HTTPException status detail ->
        status = 500).
Proof.
  rewrite submit_feedback_run. split.
  - intros ->; reflexivity.
  - intros status detail.
    destruct (invalid_rating _); cbn [fst]; [congruence|].
    destruct (commit db) as [assigned|e]; cbn [fst]; [|congruence].
    destruct (refresh db) as [[]|e]; cbn [fst]; [discriminate | congruence].
Qed.

(** Every rating stored is one of the two. *)
Definition well_rated (table : list Feedback) : Prop :=
  Forall (fun row => invalid_rating (row_rating row) = false) table.

(** X17.  What a request leaves in the table.  The table is unchanged, or
    has one row more, at its end, with the fields of the request and the
    id and timestamp the database assigned.  A successful response means
    that row was stored and carries its id.  The row is stored exactly
    when the rating is valid and the commit succeeded, so that a failure
    of [refresh] answers 500 for feedback that is stored.  Ratings
    stored through the endpoint are valid. *)
Theorem submit_feedback_outcomes (db : Session) (feedback : FeedbackRequest)
    (table : list Feedback) :
  let response := fst (submit_feedback http_exception_text db feedback table) in
  let table' := snd (submit_feedback http_exception_text db feedback table) in
  (table' = table
   \/ exists assigned,
        commit db = Ok assigned
        /\ invalid_rating (fb_rating feedback) = false
        /\ table' = table ++ [stored_row feedback assigned])
  /\ (forall r,
        response = Returned r ->
        success r = true
        /\ exists assigned,
             commit db = Ok assigned /\ feedback_id r = fst assigned
             /\ table' = table ++ [stored_row feedback assigned])
  /\ (table' <> table <->
      invalid_rating (fb_rating feedback) = false
      /\ exists assigned, commit db = Ok assigned)
  /\ (well_rated table -> well_rated table').
Proof.
  cbv zeta. rewrite submit_feedback_run.
  assert (Hneq : forall row : Feedback, table ++ [row] <> table).
  { intros row H. apply (f_equal (@List.length Feedback)) in H.
    rewrite length_app in H. cbn in H. lia. }
  destruct (invalid_rating (fb_rating feedback)) eqn:V; cbn [fst snd].
  - repeat split; auto; try discriminate; try tauto.
    intros [H _]; discriminate H.
  - destruct (commit db) as [assigned|e]; cbn [fst snd].
    + assert (Hw : well_rated table ->
                   well_rated (table ++ [stored_row feedback assigned])).
      { intros H. apply Forall_app; split; [exact H|].
        constructor; [exact V | constructor]. }
      destruct (refresh db) as [[]|e]; cbn [fst snd];
        (split; [right; eauto|]);
        (split; [intros r Hr; try discriminate Hr;
                 injection Hr as <-; split; eauto|]);
        (split; [split; [eauto | intros _; apply Hneq] | exact Hw]).
    + repeat split; auto; try discriminate; try tauto.
      intros [_ [assigned H]]; discriminate H.
Qed.

(** The feedback requests of a run, each with what the database did. *)
Definition submit_all (requests : list (Session * FeedbackRequest))
    (table : list Feedback) : list Feedback :=
  fold_left
    (fun table request =>
       snd (submit_feedback http_exception_text (fst request) (snd request)
              table))
    requests table.

Lemma submit_all_well_rated (requests : list (Session * FeedbackRequest))
    (table : list Feedback) :
  well_rated table -> well_rated (submit_all requests table).
Proof.
  unfold submit_all; revert table.
  induction requests as [|[db feedback] requests IH]; intros table H; auto.
  cbn [fold_left fst snd]. apply IH.
  rewrite submit_feedback_run.
  destruct (invalid_rating (fb_rating feedback)) eqn:V; cbn [snd]; auto.
  destruct (commit db) as [assigned|e]; cbn [snd]; auto.
  assert (Hw : well_rated (table ++ [stored_row feedback assigned])).
  { apply Forall_app; split; [exact H|].
    constructor; [exact V | constructor]. }
  destruct (refresh db) as [[]|e]; exact Hw.
Qed.

Lemma count_ratings (table : list Feedback) :
  (count_rating (lit "positive") table + count_rating (lit "negative") table
   <= Z.of_nat (List.length table))%Z
  /\ (well_rated table ->
      (count_rating (lit "positive") table
       + count_rating (lit "negative") table
       = Z.of_nat (List.length table))%Z).
Proof.
  unfold count_rating, well_rated.
  induction table as [|row table [IH1 IH2]]; [split; reflexivity|].
  cbn [filter].
  assert (X : str_eqb (row_rating row) (lit "positive") = true ->
              str_eqb (row_rating row) (lit "negative") = false).
  { intros H. apply str_eqb_eq in H. rewrite H. reflexivity. }
  split.
  - destruct (str_eqb (row_rating row) (lit "positive")) eqn:P;
      [rewrite (X eq_refl)|];
      destruct (str_eqb (row_rating row) (lit "negative")) eqn:N;
      cbn [List.length]; lia.
  - intros H. inversion H as [|? ? Hrow Hrest]; subst.
    specialize (IH2 Hrest).
    unfold invalid_rating in Hrow. cbn [existsb] in Hrow.
    rewrite orb_false_r in Hrow. apply negb_false_iff in Hrow.
    destruct (str_eqb (row_rating row) (lit "positive")) eqn:P;
      [rewrite (X eq_refl)|];
      destruct (str_eqb (row_rating row) (lit "negative")) eqn:N;
      cbn [List.length]; try lia; discriminate Hrow.
Qed.

(** X18.  The statistics.  A failure of the queries answers 500.  On an
    empty table the percentage is the integer 0 and nothing is divided.
    The positive and the negative counts never exceed the total together,
    and they add up to it on a table filled through [submit_feedback],
    whatever was submitted and whatever the database did: every row then
    counts as positive or as negative. *)
Theorem feedback_stats_add_up
    (requests : list (Session * FeedbackRequest)) :
  (forall e, get_feedback_stats (Raise e) = HTTPException 500 e)
  /\ (exists stats,
        get_feedback_stats (Ok []) = Returned stats
        /\ total_feedback stats = 0%Z
        /\ positive_percentage stats = IntNumber 0)
  /\ (forall table,
        exists stats,
          get_feedback_stats (Ok table) = Returned stats
          /\ total_feedback stats = Z.of_nat (List.length table)
          /\ (positive_count stats + negative_count stats
              <= total_feedback stats)%Z)
  /\ (exists stats,
        get_feedback_stats (Ok (submit_all requests [])) = Returned stats
        /\ (positive_count stats + negative_count stats
            = total_feedback stats)%Z).
Proof.
  split; [reflexivity|]. split; [eexists; repeat split|]. split.
  - intros table. eexists; split; [reflexivity|].
    cbn [total_feedback positive_count negative_count].
    split; [reflexivity | apply count_ratings].
  - eexists; split; [reflexivity|].
    cbn [total_feedback positive_count negative_count].
    apply count_ratings, submit_all_well_rated. constructor.
Qed.

End Feedback.

(** [str(e)] as Starlette renders it: the status code, a colon, the
    detail. *)
Definition starlette_text (status_code : nat) (detail : str) : str :=
  str_of_nat status_code ++ lit ": " ++ detail.

Definition thumbs_up : FeedbackRequest :=
  {| fb_session_id := lit "s-1"; fb_message_id := lit "m-7";
     fb_question := lit "What is 4T?";
     fb_answer := lit "Target, Time, Team, Theme.";
     fb_rating := lit "thumbs_up"; fb_user_comment := None |}.

Definition healthy_db : Session :=
  {| commit := Ok (1%Z, lit "2025-01-01T00:00:03"); refresh := Ok tt |}.

(** The database is up and the rating is not one of the two. *)
Lemma invalid_rating_answers_500_example :
  submit_feedback starlette_text healthy_db thumbs_up []
  = (HTTPException 500 (lit "400: Rating must be 'positive' or 'negative'"),
     []).
Proof.
  apply (invalid_rating_answers_500 starlette_text healthy_db thumbs_up []).
  reflexivity.
Defined.

(** One vote in three is positive: [round(1 / 3 * 100, 2)] is the float
    nearest to 33.33. *)
Example one_positive_in_three :
  let row rating :=
    {| row_id := 0; row_session_id := []; row_message_id := [];
       row_question := []; row_answer := []; row_rating := lit rating;
       row_timestamp := []; row_user_comment := None |} in
  exists stats,
    get_feedback_stats
      (Ok [row "negative"; row "positive"; row "negative"]%string)
    = Returned stats
    /\ positive_count stats = 1%Z /\ negative_count stats = 2%Z
    /\ positive_percentage stats = FloatNumber (PyFloat.int_div 3333 100).
Proof. cbv zeta. eexists. repeat split. Qed.

End ApiProofs.

Module ReferenceRequestProofs.
Import ProfileAwareRAGSystem StrFacts StripFacts.
Import DetectorInvariants RetrievalProofs.

(** The test of [_is_asking_for_references] on a list of keywords. *)
Definition mentions (keywords : list str) (question : str) : bool :=
  existsb (fun keyword => contains keyword (lower question)) keywords.

Lemma mentions_iff (keywords : list str) (question : str) :
  mentions keywords question = true
  <-> exists keyword, In keyword keywords /\ occurs keyword (lower question).
Proof.
  unfold mentions. rewrite existsb_exists.
  split; intros [kw [Hin H]]; exists kw; split; auto;
    apply contains_iff; exact H.
Qed.

(** The keywords without [show source]. *)
Definition effective_keywords : list str :=
  map lit ["source"; "reference"; "where can i find"; "where is this from";
           "which session"; "what video"; "where to learn more";
           "more details"; "cite"; "citation";
           "what document"; "which document"]%string.

(** X19.  Whether a question asks for references is a matter of
    substrings of its lower-cased text.  A question asks for them exactly
    when one of the keywords occurs in it, inside a word or not; a text
    that holds such a question asks for them too; and the keyword
    [show source] adds nothing to the keyword [source]. *)
Theorem asking_for_references_by_substring (question : str) :
  (_is_asking_for_references question = true
   <-> exists keyword,
         In keyword reference_keywords /\ occurs keyword (lower question))
  /\ (forall before after,
        _is_asking_for_references question = true ->
        _is_asking_for_references (before ++ question ++ after) = true)
  /\ _is_asking_for_references question
     = mentions effective_keywords question.
Proof.
  change (_is_asking_for_references question)
    with (mentions reference_keywords question).
  split; [apply mentions_iff|]. split.
  - intros before after H.
    change (_is_asking_for_references (before ++ question ++ after))
      with (mentions reference_keywords (before ++ question ++ after)).
    apply mentions_iff in H as [kw [Hin H]]. apply mentions_iff.
    exists kw; split; auto. rewrite !lower_app.
    apply occurs_app_r, occurs_app_l, H.
  - destruct (mentions effective_keywords question) eqn:E.
    + apply mentions_iff in E as [kw [Hin H]]. apply mentions_iff.
      exists kw; split; auto.
      repeat (destruct Hin as [<- | Hin]; [vm_compute; tauto|]). destruct Hin.
    + destruct (mentions reference_keywords question) eqn:F; auto.
      apply mentions_iff in F as [kw [Hin H]].
      assert (M : mentions effective_keywords question = true);
        [|congruence].
      apply mentions_iff.
      assert (Hcases : In kw effective_keywords \/ kw = lit "show source").
      { repeat (destruct Hin as [<- | Hin];
                [first [left; vm_compute; tauto | right; reflexivity]|]).
        destruct Hin. }
      destruct Hcases as [Hk | ->]; [exists kw; auto|].
      exists (lit "source"); split; [left; reflexivity|].
      apply (occurs_trans _ (lit "show source")); auto.
      exists (lit "show "), []; reflexivity.
Qed.

(** A keyword inside a word counts. *)
Example asking_by_accident :
  _is_asking_for_references (lit "What resources does a team need?") = true
  /\ _is_asking_for_references (lit "I am excited about 4T") = true
  /\ _is_asking_for_references (lit "What is the 4T framework?") = false.
Proof. repeat split. Qed.

End ReferenceRequestProofs.
